(** * Preview generation pipeline of [preview.py]: model and verified properties

    The development embeds the [VideoProcessor] class of
    [metadata&preview_maker/preview.py] as Rocq functions and proves the
    properties of the preview pipeline about them.

    Conventions of the embedding:
    - Python floats (fractions, seconds) are exact rationals [Q]; [round(x, n)]
      and the [:.nf] formats are rounding to the nearest multiple of [10^-n],
      ties to even.
    - A [pathlib.Path] is the list of its components.
    - The file system is the finite set of existing paths.
    - Every call that leaves the process (ffmpeg, ffprobe, PIL file access,
      [shutil], [input]) is recorded in a log together with its outcome; the
      outcomes are chosen by a [world], a function of the log so far and of
      the call, so that the world may answer every call differently. *)

From stdpp Require Import gmap strings list.
From Stdlib Require Import QArith Qround Lqa Ascii DecimalString Sorted.
From Stdlib Require String SetoidList DecimalNat.

Open Scope Q_scope.

(** ** Python numerics on exact rationals *)

(** [x < y] on floats. *)
Definition Qltb (x y : Q) : bool := negb (Qle_bool y x).

(** [round(x)]: nearest integer, ties to the even one. *)
Definition py_round (x : Q) : Z :=
  let f := Qfloor x in
  match Qcompare (x - inject_Z f) (1 # 2) with
  | Lt => f
  | Gt => (f + 1)%Z
  | Eq => if Z.even f then f else (f + 1)%Z
  end.

(** [round(x, 3)] and the format [f"{x:.3f}"]. *)
Definition round3 (x : Q) : Q := py_round (x * 1000) # 1000.

(** [round(x, 2)] and the format [f"{x:.2f}"]. *)
Definition round2 (x : Q) : Q := py_round (x * 100) # 100.

(** [min(a, b)] and [max(a, b)] of two numbers. *)
Definition py_min (a b : Q) : Q := if Qltb b a then b else a.
Definition py_max (a b : Q) : Q := if Qltb a b then b else a.

(** [x in l] for a list of numbers: comparison by value. *)
Definition Qmem (x : Q) (l : list Q) : bool := existsb (Qeq_bool x) l.

(** A Python [set] of numbers: no two members equal by value. *)
Definition set_add (x : Q) (s : list Q) : list Q :=
  if Qmem x s then s else s ++ [x].

(** [min(s)] and [max(s)] of a collection; [None] stands for the
    [ValueError] raised on an empty one. *)
Definition set_min (s : list Q) : option Q :=
  match s with
  | [] => None
  | x :: s' => Some (fold_left py_min s' x)
  end.

Definition set_max (s : list Q) : option Q :=
  match s with
  | [] => None
  | x :: s' => Some (fold_left py_max s' x)
  end.

(** [sorted(list(s))]. *)
Fixpoint insert_sorted (x : Q) (l : list Q) : list Q :=
  match l with
  | [] => [x]
  | y :: l' => if Qle_bool x y then x :: l else y :: insert_sorted x l'
  end.

Definition sorted (s : list Q) : list Q := foldr insert_sorted [] s.

(** ** Outcomes of a Python function or loop *)

(** A function either returns a value or raises. *)
Inductive outcome (A : Type) : Type :=
  | Returns (a : A)
  | Raises.
Arguments Returns {A} a.
Arguments Raises {A}.

(** A loop either falls through with its state, or executes a [return], or
    raises. *)
Inductive flow (S R : Type) : Type :=
  | Falls (s : S)
  | Exits (r : R)
  | Throws.
Arguments Falls {S R} s.
Arguments Exits {S R} r.
Arguments Throws {S R}.

(** ** Cut-point planning: [VideoProcessor._generate_cut_points] *)

Section CutPoints.
Variable num_points : nat.
Variable BLACKLISTED_CUT_POINTS : list Q.

(** The body of [for i in range(1, num_inner_points + 1)]. *)
Definition add_inner_point (current_start current_end step : Q)
    (points : list Q) (i : nat) : list Q :=
  let point := round3 (current_start + step * inject_Z (Z.of_nat i)) in
  let point := py_max (current_start + 0.001) (py_min (current_end - 0.001) point) in
  if Qmem point BLACKLISTED_CUT_POINTS then points else set_add point points.

(** The [while len(valid_points) < num_points and retries > 0] loop;
    [valid_points] is empty whenever the loop condition is evaluated.  The
    loop falls through with [valid_points]. *)
Fixpoint cut_points_loop (retries : nat) (start_pct end_pct : Q)
    : flow (list Q) (list Q) :=
  match retries with
  | O => Falls []
  | S retries' =>
    if negb (0 <? num_points)%nat then Falls [] else
    let points := [] in
    let points := if Qmem start_pct BLACKLISTED_CUT_POINTS then points
                  else set_add (round3 start_pct) points in
    let points := if Qmem end_pct BLACKLISTED_CUT_POINTS then points
                  else set_add (round3 end_pct) points in
    if (length points <? 2)%nat && (2 <=? num_points)%nat then
      let start_pct := start_pct + 0.01 in
      let end_pct := end_pct - 0.01 in
      if Qle_bool end_pct start_pct then Exits []
      else cut_points_loop retries' start_pct end_pct
    else
      match set_min points, set_max points with
      | Some current_start, Some current_end =>
        let num_inner_points := (Z.of_nat num_points - Z.of_nat (length points))%Z in
        let inner :=
          if (0 <? num_inner_points)%Z then
            if Qeq_bool current_end current_start then Exits []
            else
              let step := (current_end - current_start)
                          / inject_Z (num_inner_points + 1) in
              Falls (fold_left (add_inner_point current_start current_end step)
                               (seq 1 (Z.to_nat num_inner_points)) points)
          else Falls points in
        match inner with
        | Falls points =>
          if (length points <? num_points)%nat then
            let start_pct := start_pct + 0.005 in
            let end_pct := end_pct - 0.005 in
            if Qle_bool end_pct start_pct then Exits []
            else cut_points_loop retries' start_pct end_pct
          else Falls (sorted points)
        | Exits r => Exits r
        | Throws => Throws
        end
      | _, _ => Throws
      end
  end.

(** [_generate_cut_points] up to the final count check: the value of
    [valid_points] after it, or the result of an earlier [return]. *)
Definition plan_cut_points (duration : Q) : flow (list Q) (list Q) :=
  if negb (Qltb 0 duration) then Exits []
  else
    match cut_points_loop 2 0.05 0.98 with
    | Falls valid_points =>
      if (length valid_points <? num_points)%nat then Exits []
      else Falls valid_points
    | other => other
    end.
End CutPoints.


Close Scope Q_scope.

(** ** Strings and paths *)

Definition in_range (lo hi : nat) (c : ascii) : bool :=
  (lo <=? nat_of_ascii c)%nat && (nat_of_ascii c <=? hi)%nat.

Definition is_upper (c : ascii) : bool := in_range 65 90 c.
Definition is_lower (c : ascii) : bool := in_range 97 122 c.
Definition is_digit (c : ascii) : bool := in_range 48 57 c.

Fixpoint map_string (f : ascii -> ascii) (s : string) : string :=
  match s with
  | EmptyString => EmptyString
  | String c s' => String (f c) (map_string f s')
  end.

(** [str.lower()] and [str.upper()] on ASCII text. *)
Definition lower : string -> string :=
  map_string (fun c => if is_upper c then ascii_of_nat (nat_of_ascii c + 32) else c).
Definition upper : string -> string :=
  map_string (fun c => if is_lower c then ascii_of_nat (nat_of_ascii c - 32) else c).

(** [s.replace(c, t)] for a single character [c]. *)
Fixpoint replace_char (c : ascii) (t : string) (s : string) : string :=
  match s with
  | EmptyString => EmptyString
  | String a s' =>
    if bool_decide (a = c) then t +:+ replace_char c t s'
    else String a (replace_char c t s')
  end.

(** [re.sub(r'[^K]+', '_', s)] for a character class [K]: every maximal run
    of characters outside [K] becomes one underscore. *)
Fixpoint sub_runs (keep : ascii -> bool) (in_run : bool) (s : string) : string :=
  match s with
  | EmptyString => EmptyString
  | String c s' =>
    if keep c then String c (sub_runs keep false s')
    else if in_run then sub_runs keep true s'
    else String "_" (sub_runs keep true s')
  end.

(** [s.lstrip(chars)] and [s.strip(chars)]. *)
Fixpoint lstrip (drop : ascii -> bool) (s : string) : string :=
  match s with
  | EmptyString => EmptyString
  | String c s' => if drop c then lstrip drop s' else s
  end.

Definition strip (drop : ascii -> bool) (s : string) : string :=
  String.rev (lstrip drop (String.rev (lstrip drop s))).

(** Decimal text of a natural number, and the format [f"{n:02d}"]. *)
Definition decimal (n : nat) : string := NilZero.string_of_uint (Nat.to_uint n).
Definition pad2 (n : nat) : string :=
  if (n <? 10)%nat then "0" +:+ decimal n else decimal n.

(** A [pathlib.Path]: the list of its components. *)
Definition path : Type := list string.

(** [p / n]. *)
Definition child (p : path) (n : string) : path := p ++ [n].
Infix "//" := child (at level 40, left associativity).

(** [p.name] and [p.with_name(n)]. *)
Definition name (p : path) : string := List.last p EmptyString.
Definition with_name (p : path) (n : string) : path := removelast p ++ [n].

(** [name.rfind('.')]: the position of the last dot. *)
Fixpoint rfind_dot (s : string) : option nat :=
  match s with
  | EmptyString => None
  | String c s' =>
    match rfind_dot s' with
    | Some i => Some (S i)
    | None => if bool_decide (c = ".")%char then Some O else None
    end
  end.

(** [PurePath.stem] and [PurePath.suffix] of a file name: the name is split
    at its last dot unless that dot is its first or last character. *)
Definition splits_at (nm : string) : option nat :=
  match rfind_dot nm with
  | Some i => if (0 <? i)%nat && (i <? String.length nm - 1)%nat then Some i else None
  | None => None
  end.

Definition stem_of (nm : string) : string :=
  match splits_at nm with
  | Some i => String.substring 0 i nm
  | None => nm
  end.

Definition suffix_of (nm : string) : string :=
  match splits_at nm with
  | Some i => String.substring i (String.length nm - i) nm
  | None => EmptyString
  end.

Definition stem (p : path) : string := stem_of (name p).
Definition suffix (p : path) : string := suffix_of (name p).

(** ** Utility functions of the script *)

(** [sanitize_filename].  [ascii_fold] is
    [unicodedata.normalize('NFKD', s).encode('ascii', 'ignore').decode('ascii')]
    and [rnd] the draw of [random.randint(1000, 9999)]. *)
Definition is_word (c : ascii) : bool :=
  is_upper c || is_lower c || is_digit c || bool_decide (c = "_")%char.

Definition sanitize_filename (ascii_fold : string -> string) (rnd : nat)
    (filename : string) : string :=
  let normalized := ascii_fold filename in
  let sanitized :=
    sub_runs (fun c => is_word c || bool_decide (c = ".")%char
                       || bool_decide (c = "-")%char) false normalized in
  let sanitized :=
    strip (fun c => bool_decide (c = "_")%char || bool_decide (c = ".")%char)
          (sub_runs (fun c => negb (bool_decide (c = "_")%char)) false sanitized) in
  if bool_decide (sanitized = EmptyString) then "sanitized_" +:+ decimal rnd else sanitized.

(** [format_duration]: HH:MM:SS of a number of seconds rounded to the nearest
    second; [timedelta] keeps days and a non-negative number of seconds below a
    day, and refuses more than 999999999 days. *)
Definition format_duration (seconds : Q) : string :=
  let total := py_round seconds in
  let days := (total / 86400)%Z in
  let secs := (total mod 86400)%Z in
  if (999999999 <? Z.abs days)%Z then "00:00:00"
  else
    let hours := (secs / 3600)%Z in
    let remainder := (secs mod 3600)%Z in
    let minutes := (remainder / 60)%Z in
    let seconds := (remainder mod 60)%Z in
    let hours := if (0 <? days)%Z then (hours + days * 24)%Z else hours in
    pad2 (Z.to_nat hours) +:+ ":" +:+ pad2 (Z.to_nat minutes) +:+ ":"
      +:+ pad2 (Z.to_nat seconds).


(** ** Configuration and processor *)

(** The class [Config], read-only during a run. *)
Record Config : Type := {
  INPUT_FOLDER : path;
  CUSTOM_OUTPUT_PATH : option path;
  CREATE_WEBP_PREVIEW : bool;
  CREATE_WEBP_PREVIEW_SHEET : bool;
  CREATE_IMAGE_PREVIEW_SHEET : bool;
  NUM_OF_SEGMENTS : nat;
  SEGMENT_DURATION : Q;
  ADD_BLACK_BARS : bool;
  GRID_WIDTH : nat;
  TIMESTAMPS_MODE : nat;
  IMAGE_SHEET_FORMAT : string;
  KEEP_TEMP_FILES : bool;
  IGNORE_EXISTING : bool;
  CONFIRM_CUT_POINTS_REQUIRED : bool;
  BLACKLISTED_CUT_POINTS : list Q;
  FONT_PATH : path
}.

(** The three artifact types. *)
Inductive artifact : Type := WebpPreview | WebpSheet | ImageSheet.

Global Instance artifact_eq_dec : EqDecision artifact.
Proof. solve_decision. Defined.

(** Is the artifact type configured? *)
Definition requested (cfg : Config) (a : artifact) : bool :=
  match a with
  | WebpPreview => CREATE_WEBP_PREVIEW cfg
  | WebpSheet => CREATE_WEBP_PREVIEW_SHEET cfg
  | ImageSheet => CREATE_IMAGE_PREVIEW_SHEET cfg
  end.

Definition any_preview_requested (cfg : Config) : bool :=
  CREATE_WEBP_PREVIEW cfg || CREATE_WEBP_PREVIEW_SHEET cfg
  || CREATE_IMAGE_PREVIEW_SHEET cfg.

(** The fields of a [VideoProcessor] fixed by [__init__]. *)
Record VideoProcessor : Type := {
  original_video_path : path;
  base_filename : string;
  output_dir : path;
  temp_dir : path
}.

(** [VideoProcessor.__init__]. *)
Definition init (ascii_fold : string -> string) (rnd : nat) (cfg : Config)
    (video_path : path) : VideoProcessor :=
  let base_filename := sanitize_filename ascii_fold rnd (stem video_path) in
  let base_filename :=
    if ADD_BLACK_BARS cfg then base_filename +:+ "_black_bars" else base_filename in
  let base_output_dir :=
    match CUSTOM_OUTPUT_PATH cfg with
    | Some (c :: p) => c :: p
    | _ => INPUT_FOLDER cfg
    end in
  let output_dir := base_output_dir // base_filename in
  {| original_video_path := video_path;
     base_filename := base_filename;
     output_dir := output_dir;
     temp_dir := output_dir // (base_filename +:+ "-temp") |}.

(** The path of each artifact in the output directory. *)
Definition artifact_path (cfg : Config) (self : VideoProcessor) (a : artifact) : path :=
  match a with
  | WebpPreview => output_dir self // (base_filename self +:+ "_preview.webp")
  | WebpSheet => output_dir self // (base_filename self +:+ "_preview_sheet.webp")
  | ImageSheet =>
    output_dir self // (base_filename self +:+ "_preview_sheet" +:+ "."
                        +:+ lower (IMAGE_SHEET_FORMAT cfg))
  end.

(** The place of the source video in the output directory. *)
Definition target_video_path (self : VideoProcessor) : path :=
  output_dir self // name (original_video_path self).

(** ** The outside world *)

Inductive axis : Type := Horizontal | Vertical.

(** The [-vf] filter of a segment extraction. *)
Inductive vf_filter : Type :=
  | ScalePad (w h : Z)
  | Scale (w h : Z).

(** What is drawn on the canvas of the static sheet. *)
Inductive draw : Type :=
  | PasteInfo (img : path)
  | PasteFrame (frame : path) (x y : Z) (resized : bool)
  | Placeholder (x y w h : Z) (text : string).

(** The calls that leave the process.  [Info] is a [logger.info] line. *)
Inductive call : Type :=
  | Info (message : string)
  | Input (prompt : string)
  | Unlink (p : path)
  | Mkdir (p : path)
  | Move (src dst : path)
  | Rmtree (p : path)
  | ProbeRotation (video : path)
  | ProbeFormat (video : path)
  | Extract (video : path) (ss t : Q) (vf : vf_filter) (out : path)
  | StatSegment (seg : path)
  | ProbeDuration (seg : path)
  | Overlay (seg : path) (text : string) (out : path)
  | WriteConcat (segs : list path) (out : path)
  | Concat (list_file out : path)
  | EncodePreview (src : path) (portrait : bool) (out : path)
  | RenderInfo (img_width : Z) (out : path)
  | InfoVideo (img : path) (fps t : Q) (out : path)
  | ProbeProps (seg : path)
  | BlackClip (w h : Z) (fps dur : Q) (out : path)
  | Reencode (src out : path)
  | ProbeSize (clip : path)
  | Stack (ax : axis) (inputs : list path) (w h : Z) (fps : Q) (out : path)
  | Downscale (src out : path)
  | EncodeSheet (src out : path)
  | ExtractFrame (seg : path) (ss : Q) (out : path)
  | OpenImage (img : path)
  | SaveSheet (canvas : list draw) (w h : Z) (format : string) (out : path).

(** The video stream and the format section of [ffprobe -show_format
    -show_streams]: a missing width or height is [0], a missing codec name
    ["N/A"], [rate] is [r_frame_rate] as numerator and denominator when both
    parse as integers, and [format_duration_field] is [float] of the duration
    field or [0]. *)
Record stream_info : Type := {
  width : Z;
  height : Z;
  codec_name : string;
  rate : option (Z * Z)
}.

Record format_info : Type := {
  video_stream : option stream_info;
  format_duration_field : Q
}.

(** A line of probe output, by what [int], [float] and ['/' in] make of it. *)
Inductive token : Type :=
  | TInt (z : Z)
  | TDecimal (q : Q)
  | TRatio (num den : Z)
  | TJunk (has_slash : bool).

(** The answers of the world: [Ok] is exit status 0 together with the checks
    the code makes on the output file, [Failed] a non-zero exit status, a
    failed check or an exception, the others carry the parsed standard
    output. *)
Inductive response : Type :=
  | Ok
  | Failed
  | Text (s : string)
  | Number (q : Q)
  | Dimensions (w h : Z)
  | Streams (f : format_info)
  | Fields (l : list token).

Definition is_ok (r : response) : bool :=
  match r with Ok => true | _ => false end.

(** The world answers a call knowing everything that happened before. *)
Definition entry : Type := call * response.
Definition world : Type := list entry -> call -> response.

(** The state a run works on: the existing paths and the log of calls. *)
Record state : Type := { fs : gset path; log : list entry }.

Definition M (A : Type) : Type := state -> A * state.

Definition ret {A : Type} (a : A) : M A := fun st => (a, st).

Definition bind {A B : Type} (m : M A) (k : A -> M B) : M B :=
  fun st => let (a, st') := m st in k a st'.

Notation "x <- m ; k" := (bind m (fun x => k))
  (at level 20, m at level 100, k at level 200, only parsing).
Notation "' pat <- m ; k" := (bind m (fun x => match x with pat => k end))
  (at level 20, pat pattern, m at level 100, k at level 200, only parsing).

(** A call: the world answers, the log grows. *)
Definition ask (w : world) (c : call) : M response :=
  fun st =>
    let r := w (log st) c in
    (r, {| fs := fs st; log := log st ++ [(c, r)] |}).

(** [p.exists()] / [p.is_file()]. *)
Definition present (p : path) : M bool :=
  fun st => (bool_decide (p ∈ fs st), st).

(** A file or directory known to exist from now on. *)
Definition create (p : path) : M unit :=
  fun st => (tt, {| fs := {[p]} ∪ fs st; log := log st |}).

(** [p.unlink(missing_ok=True)]. *)
Definition discard (p : path) : M unit :=
  fun st => (tt, {| fs := fs st ∖ {[p]}; log := log st |}).

(** The effect of [shutil.rmtree(d, ignore_errors=True)]. *)
Definition discard_tree (d : path) : M unit :=
  fun st => (tt, {| fs := filter (fun p => ¬ d `prefix_of` p) (fs st); log := log st |}).

(** ** The pipeline: the methods of [VideoProcessor] *)

(** What [_get_metadata] stores in [self.metadata] and [self.is_vertical], as
    far as the pipeline reads it. *)
Record metadata : Type := {
  duration : Q;
  fps : Q;
  is_vertical : bool
}.

Definition is_space (c : ascii) : bool :=
  in_range 9 13 c || in_range 28 32 c.

(** [reply.strip().lower() in ["yes", "y"]]. *)
Definition accepts (reply : string) : bool :=
  let choice := lower (strip is_space reply) in
  bool_decide (choice = "yes") || bool_decide (choice = "y").

Definition nl : string := String (ascii_of_nat 10) EmptyString.

Definition is_nil {A : Type} (l : list A) : bool :=
  match l with [] => true | _ => false end.

Section Pipeline.
Variable w : world.
Variable cfg : Config.
Variable self : VideoProcessor.

(** *** [_check_existing_outputs] *)

Definition output_files_config : list (string * path * bool) :=
  [ ("WebP Preview", artifact_path cfg self WebpPreview, CREATE_WEBP_PREVIEW cfg);
    ("WebP Sheet", artifact_path cfg self WebpSheet, CREATE_WEBP_PREVIEW_SHEET cfg);
    ("Image Sheet", artifact_path cfg self ImageSheet, CREATE_IMAGE_PREVIEW_SHEET cfg);
    ("Original Video (Moved)", target_video_path self, true) ].

(** The variables of the scan over [output_files_config]. *)
Record scan : Type := {
  required_files_exist : list string;
  required_files_missing : list string;
  files_to_potentially_delete : list (string * path);
  original_video_in_target : bool;
  video_path : path
}.

Definition scan_item (found : path -> bool) (s : scan)
    (item : string * path * bool) : scan :=
  let '(nm, file_path, create_flag) := item in
  let is_original_video_check := bool_decide (nm = "Original Video (Moved)") in
  if found file_path then
    if is_original_video_check then
      {| required_files_exist := required_files_exist s;
         required_files_missing := required_files_missing s;
         files_to_potentially_delete := files_to_potentially_delete s;
         original_video_in_target := true;
         video_path := file_path |}
    else if create_flag then
      {| required_files_exist := required_files_exist s ++ [nm];
         required_files_missing := required_files_missing s;
         files_to_potentially_delete :=
           files_to_potentially_delete s ++ [(nm, file_path)];
         original_video_in_target := original_video_in_target s;
         video_path := video_path s |}
    else s
  else
    if create_flag && negb is_original_video_check then
      {| required_files_exist := required_files_exist s;
         required_files_missing := required_files_missing s ++ [nm];
         files_to_potentially_delete := files_to_potentially_delete s;
         original_video_in_target := original_video_in_target s;
         video_path := video_path s |}
    else if is_original_video_check then
      {| required_files_exist := required_files_exist s;
         required_files_missing := required_files_missing s;
         files_to_potentially_delete := files_to_potentially_delete s;
         original_video_in_target := original_video_in_target s;
         video_path := original_video_path self |}
    else s.

(** Scenario 2: delete what exists, go on when a deletion fails. *)
Fixpoint delete_existing (files : list (string * path)) : M unit :=
  match files with
  | [] => ret tt
  | (_, file_path) :: files' =>
    r <- ask w (Unlink file_path);
    _ <- (if is_ok r then discard file_path else ret tt);
    delete_existing files'
  end.

(** Scenario 3: ask before each deletion; [false] is [return False]. *)
Fixpoint prompt_and_delete (files : list (string * path)) : M bool :=
  match files with
  | [] => ret true
  | (nm, file_path) :: files' =>
    r <- ask w (Input ("  Existing '" +:+ nm +:+ "' found: '" +:+ name file_path
                       +:+ "'. Delete before regenerating? (yes/no): "));
    match r with
    | Text choice =>
      if accepts choice then
        r <- ask w (Unlink file_path);
        if is_ok r then _ <- discard file_path; prompt_and_delete files'
        else ret false
      else ret false
    | _ => ret false
    end
  end.

(** The result and the new value of [self.video_path]. *)
Definition _check_existing_outputs : M (bool * path) :=
  fun st =>
    let s := foldl (scan_item (fun p => bool_decide (p ∈ fs st)))
               {| required_files_exist := [];
                  required_files_missing := [];
                  files_to_potentially_delete := [];
                  original_video_in_target := false;
                  video_path := original_video_path self |}
               output_files_config in
    let all_required_generated_exist := is_nil (required_files_missing s) in
    if all_required_generated_exist && original_video_in_target s
       && negb (IGNORE_EXISTING cfg)
    then (false, video_path s, st)
    else if IGNORE_EXISTING cfg then
      (_ <- delete_existing (files_to_potentially_delete s);
       ret (true, video_path s)) st
    else if negb all_required_generated_exist || negb (original_video_in_target s)
    then
      (go_on <- prompt_and_delete (files_to_potentially_delete s);
       ret (go_on, video_path s)) st
    else (false, video_path s, st).

(** *** [_get_metadata] *)

Definition _get_metadata (video_path : path) : M (option metadata) :=
  found <- present video_path;
  if negb found then ret None else
  rot <- ask w (ProbeRotation video_path);
  let rotated :=
    match rot with
    | Text stdout_rot =>
      negb (bool_decide (stdout_rot = EmptyString))
      && negb (bool_decide (strip is_space stdout_rot = "0"))
      && negb (bool_decide (strip is_space stdout_rot = EmptyString))
    | _ => false
    end in
  if rotated then ret None else
  r <- ask w (ProbeFormat video_path);
  match r with
  | Streams data =>
    match video_stream data with
    | None => ret None
    | Some vs =>
      if bool_decide (width vs = 0%Z) || bool_decide (height vs = 0%Z)
      then ret None
      else
        let fps :=
          match rate vs with
          | Some (num, den) =>
            if bool_decide (den = 0%Z) then 0%Q
            else round2 (inject_Z num / inject_Z den)
          | None => 0%Q
          end in
        if bool_decide (upper (codec_name vs) = "MSMPEG4V3") then ret None
        else ret (Some {| duration := format_duration_field data;
                          fps := fps;
                          is_vertical := (width vs <? height vs)%Z |})
    end
  | _ => ret None
  end.

(** *** [_generate_cut_points] *)

Definition _generate_cut_points (md : metadata) : M (outcome (list Q)) :=
  match plan_cut_points (NUM_OF_SEGMENTS cfg) (BLACKLISTED_CUT_POINTS cfg)
          (duration md) with
  | Exits r => ret (Returns r)
  | Throws => ret Raises
  | Falls valid_points =>
    if CONFIRM_CUT_POINTS_REQUIRED cfg then
      r <- ask w (Input "Use these cut points? (yes/no): ");
      match r with
      | Text confirmation =>
        if accepts confirmation then ret (Returns valid_points)
        else ret (Returns [])
      | _ => ret (Returns [])
      end
    else ret (Returns valid_points)
  end.

(** *** [_get_vf_filter] *)

Definition _get_vf_filter (md : metadata) : vf_filter :=
  let target_w := 480%Z in
  let target_h := 270%Z in
  if is_vertical md then
    if ADD_BLACK_BARS cfg then ScalePad target_w target_h
    else Scale target_h target_w
  else Scale target_w target_h.

(** *** [_verify_segment] *)

Definition _verify_segment (segment_path : path) : M bool :=
  r <- ask w (StatSegment segment_path);
  if negb (is_ok r) then ret false else
  r <- ask w (ProbeDuration segment_path);
  match r with
  | Number d => ret (negb (Qle_bool d 0.01))
  | _ => ret false
  end.

(** *** [_overlay_timestamp] *)

(** [segment_path.with_name(f"ts_{segment_path.stem}{segment_path.suffix}")]. *)
Definition overlay_output (segment_path : path) : path :=
  with_name segment_path ("ts_" +:+ stem segment_path +:+ suffix segment_path).

Definition _overlay_timestamp (segment_path : path) (start_sec : Q)
    : M (option path) :=
  let timestamp_text := format_duration start_sec in
  let output_path := overlay_output segment_path in
  font <- present (FONT_PATH cfg);
  if negb font then ret None else
  r <- ask w (Overlay segment_path timestamp_text output_path);
  if is_ok r then _ <- create output_path; ret (Some output_path)
  else _ <- discard output_path; ret None.

(** *** [_generate_segments] *)

Record segments : Type := {
  valid_segment_paths : list path;
  timestamped_paths_for_sheet : list path;
  segments_generated : nat
}.

(** [timedelta(seconds=start_sec)] keeps microseconds; the [-ss] argument
    prints them all. *)
Definition round6 (x : Q) : Q := py_round (x * 1000000) # 1000000.

(** The segment file of cut point [i] (counted from 0) at [start_sec]. *)
Definition segment_file (i : nat) (start_sec : Q) : path :=
  let segment_index := (i + 1)%nat in
  let start_time_fn := replace_char ":" "." (format_duration start_sec) in
  let segment_filename :=
    base_filename self +:+ "_start-" +:+ start_time_fn +:+ "_seg-"
      +:+ pad2 segment_index +:+ ".mp4" in
  temp_dir self // segment_filename.

(** One turn of [for i, start_sec in enumerate(self.cut_points_sec)]. *)
Definition segment_step (video_path : path) (md : metadata) (acc : segments)
    (i : nat) (start_sec : Q) : M segments :=
  let max_duration := duration md in
  if Qle_bool max_duration start_sec then ret acc else
  let cut_duration := py_min (SEGMENT_DURATION cfg) (max_duration - start_sec)%Q in
  if Qle_bool cut_duration 0.01 then ret acc else
  let segment_path := segment_file i start_sec in
  r <- ask w (Extract video_path (round6 start_sec) (round3 cut_duration)
                (_get_vf_filter md) segment_path);
  verified <- (if is_ok r then _verify_segment segment_path else ret false);
  if verified then
    _ <- create segment_path;
    '(final_segment_path_for_preview, path_for_sheet) <-
      (if bool_decide (TIMESTAMPS_MODE cfg = 1%nat)
          || bool_decide (TIMESTAMPS_MODE cfg = 2%nat)
       then
         overlay_path <- _overlay_timestamp segment_path start_sec;
         match overlay_path with
         | Some overlay_path =>
           if bool_decide (TIMESTAMPS_MODE cfg = 1%nat)
           then ret (overlay_path, overlay_path)
           else ret (segment_path, overlay_path)
         | None => ret (segment_path, segment_path)
         end
       else ret (segment_path, segment_path));
    ret {| valid_segment_paths :=
             valid_segment_paths acc ++ [final_segment_path_for_preview];
           timestamped_paths_for_sheet :=
             timestamped_paths_for_sheet acc ++ [path_for_sheet];
           segments_generated := S (segments_generated acc) |}
  else
    _ <- discard segment_path;
    _ <- discard (with_name segment_path ("ts_" +:+ name segment_path));
    ret acc.

Fixpoint segments_loop (video_path : path) (md : metadata) (i : nat)
    (cut_points_sec : list Q) (acc : segments) : M segments :=
  match cut_points_sec with
  | [] => ret acc
  | start_sec :: rest =>
    acc' <- segment_step video_path md acc i start_sec;
    segments_loop video_path md (S i) rest acc'
  end.

Definition _generate_segments (video_path : path) (md : metadata)
    (cut_points_sec : list Q) : M (list path * list path) :=
  let total_segments_requested := length cut_points_sec in
  found <- present video_path;
  if negb found then ret ([], []) else
  acc <- segments_loop video_path md 0 cut_points_sec
           {| valid_segment_paths := [];
              timestamped_paths_for_sheet := [];
              segments_generated := 0 |};
  if bool_decide (segments_generated acc = 0%nat)
     && (0 <? total_segments_requested)%nat
  then ret ([], [])
  else ret (valid_segment_paths acc, timestamped_paths_for_sheet acc).

(** *** [_write_concat_file], [_run_ffmpeg_concat], [_generate_webp_preview] *)

Definition _write_concat_file (segment_paths : list path)
    (output_filename : string) : M (option path) :=
  if is_nil segment_paths then ret None else
  let concat_path := temp_dir self // output_filename in
  r <- ask w (WriteConcat segment_paths concat_path);
  if is_ok r then _ <- create concat_path; ret (Some concat_path)
  else ret None.

Definition _run_ffmpeg_concat (concat_file_path output_video_path : path)
    : M bool :=
  found <- present concat_file_path;
  if negb found then ret false else
  r <- ask w (Concat concat_file_path output_video_path);
  if is_ok r then _ <- create output_video_path; ret true
  else _ <- discard output_video_path; ret false.

Definition _generate_webp_preview (md : metadata) (segment_files : list path)
    : M bool :=
  _ <- ask w (Info "Generating standalone animated WebP preview...");
  let segments_for_preview := segment_files in
  if is_nil segments_for_preview then ret false else
  concat_file <- _write_concat_file segments_for_preview
                   "concat_list_webp_preview.txt";
  match concat_file with
  | None => ret false
  | Some concat_file =>
    let concat_video :=
      temp_dir self // (base_filename self +:+ "_concat_webp_preview.mp4") in
    concatenated <- _run_ffmpeg_concat concat_file concat_video;
    if negb concatenated then ret false else
    let output_webp := artifact_path cfg self WebpPreview in
    let portrait := negb (negb (is_vertical md) || ADD_BLACK_BARS cfg) in
    r <- ask w (EncodePreview concat_video portrait output_webp);
    if is_ok r then _ <- create output_webp; ret true
    else _ <- discard output_webp; ret false
  end.

(** *** [_create_info_image] *)

Definition _create_info_image (md : metadata) : M (option path) :=
  let narrow := is_vertical md && negb (ADD_BLACK_BARS cfg) in
  let img_width : option Z :=
    if bool_decide (GRID_WIDTH cfg = 3%nat) then
      Some (if narrow then 810 else 1440)%Z
    else if bool_decide (GRID_WIDTH cfg = 4%nat) then
      Some (if narrow then 1080 else 1920)%Z
    else None in
  match img_width with
  | None => ret None
  | Some img_width =>
    let output_path := temp_dir self // (base_filename self +:+ "_info.png") in
    r <- ask w (RenderInfo img_width output_path);
    if is_ok r then _ <- create output_path; ret (Some output_path)
    else ret None
  end.

(** *** [_stack_videos] *)

Definition _stack_videos (md : metadata) (input_paths : list path)
    (output_path : path) (ax : axis) : M bool :=
  match input_paths with
  | [] => ret false
  | [single] =>
    r <- ask w (Reencode single output_path);
    ret (is_ok r)
  | first :: _ =>
    r <- ask w (ProbeSize first);
    let '(target_w, target_h) :=
      match r with
      | Dimensions pw ph => (pw, ph)
      | _ => ((-1)%Z, (-1)%Z)
      end in
    let '(target_w, target_h) :=
      if (target_w <=? 0)%Z || (target_h <=? 0)%Z then
        if is_vertical md && negb (ADD_BLACK_BARS cfg)
        then (270%Z, 480%Z) else (480%Z, 270%Z)
      else (target_w, target_h) in
    r <- ask w (Stack ax input_paths target_w target_h (round2 (fps md))
                  output_path);
    if is_ok r then ret true
    else _ <- discard output_path; ret false
  end.

(** *** [_generate_webp_preview_sheet] *)

(** The properties of a filler clip: defaults, overwritten field by
    field from the probe of the first clip of the row until a field does
    not parse. *)
Record clip_props : Type := {
  clip_w : Z;
  clip_h : Z;
  clip_fps : Q;
  clip_dur : Q
}.

Definition default_props (md : metadata) : clip_props :=
  {| clip_w := 480; clip_h := 270;
     clip_fps := round2 (fps md);
     clip_dur := round3 (SEGMENT_DURATION cfg) |}.

Definition parse_props (md : metadata) (lines : list token) : clip_props :=
  let d := default_props md in
  match lines with
  | [] => d
  | l0 :: rest0 =>
    match l0 with
    | TInt pw =>
      let d := {| clip_w := pw; clip_h := clip_h d;
                  clip_fps := clip_fps d; clip_dur := clip_dur d |} in
      match rest0 with
      | [] => d
      | l1 :: rest1 =>
        match l1 with
        | TInt ph =>
          let d := {| clip_w := clip_w d; clip_h := ph;
                      clip_fps := clip_fps d; clip_dur := clip_dur d |} in
          match rest1 with
          | [] => d
          | l2 :: rest2 =>
            let parsed_fps : option Q :=
              match l2 with
              | TRatio num den =>
                if bool_decide (den = 0%Z) then Some (clip_fps d)
                else Some (round2 (inject_Z num / inject_Z den))
              | TJunk true => None
              | _ => Some (clip_fps d)
              end in
            match parsed_fps with
            | None => d
            | Some f =>
              let d := {| clip_w := clip_w d; clip_h := clip_h d;
                          clip_fps := f; clip_dur := clip_dur d |} in
              match rest2 with
              | [] => d
              | l3 :: _ =>
                match l3 with
                | TInt z =>
                  {| clip_w := clip_w d; clip_h := clip_h d;
                     clip_fps := clip_fps d;
                     clip_dur := round3 (inject_Z z) |}
                | TDecimal q =>
                  {| clip_w := clip_w d; clip_h := clip_h d;
                     clip_fps := clip_fps d; clip_dur := round3 q |}
                | _ => d
                end
              end
            end
          end
        | _ => d
        end
      end
    | _ => d
    end
  end.

(** One turn of [for r in range(num_rows)]; [None] is [return False],
    otherwise the new value of [h_stacked_videos]. *)
Definition sheet_row (md : metadata) (sheet_segments : list path)
    (h_stacked_videos : list path) (r : nat) : M (option (list path)) :=
  let grid := GRID_WIDTH cfg in
  let num_segments := length sheet_segments in
  let row_start_index := (r * grid)%nat in
  let row_end_index := Nat.min ((r + 1) * grid) num_segments in
  let group :=
    take (row_end_index - row_start_index) (drop row_start_index sheet_segments) in
  match group with
  | [] => ret (Some h_stacked_videos)
  | first_seg_path :: _ =>
    let num_missing := (grid - length group)%nat in
    padded <-
      (if (0 <? num_missing)%nat then
         p <- ask w (ProbeProps first_seg_path);
         let props :=
           match p with
           | Fields lines => parse_props md lines
           | _ => default_props md
           end in
         let black_vid_path :=
           temp_dir self // ("black_placeholder_row" +:+ decimal (r + 1) +:+ ".mp4") in
         b <- ask w (BlackClip (clip_w props) (clip_h props) (clip_fps props)
                       (clip_dur props) black_vid_path);
         if is_ok b then ret (Some (group ++ replicate num_missing black_vid_path))
         else ret None
       else ret (Some group));
    match padded with
    | None => ret None
    | Some group =>
      let h_stack_output :=
        temp_dir self // ("hstacked_row_" +:+ decimal (r + 1) +:+ ".mp4") in
      stacked <- _stack_videos md group h_stack_output Horizontal;
      if stacked then ret (Some (h_stacked_videos ++ [h_stack_output]))
      else ret None
    end
  end.

Fixpoint sheet_rows (md : metadata) (sheet_segments : list path)
    (rows : list nat) (h_stacked_videos : list path) : M (option (list path)) :=
  match rows with
  | [] => ret (Some h_stacked_videos)
  | r :: rows' =>
    step <- sheet_row md sheet_segments h_stacked_videos r;
    match step with
    | None => ret None
    | Some h_stacked_videos => sheet_rows md sheet_segments rows' h_stacked_videos
    end
  end.

Definition _generate_webp_preview_sheet (md : metadata)
    (timestamped_segment_files : list path) : M bool :=
  _ <- ask w (Info "Generating animated WebP preview sheet...");
  let sheet_segments := timestamped_segment_files in
  if is_nil sheet_segments then ret false else
  info_image_path <- _create_info_image md;
  match info_image_path with
  | None => ret false
  | Some info_image_path =>
    let info_video_duration := SEGMENT_DURATION cfg in
    if negb (Qltb 0 info_video_duration) then ret false else
    let info_video_path :=
      temp_dir self // (base_filename self +:+ "_info_video.mp4") in
    r <- ask w (InfoVideo info_image_path (round2 (fps md))
                  (round3 info_video_duration) info_video_path);
    if negb (is_ok r) then ret false else
    let grid := GRID_WIDTH cfg in
    let num_segments := length sheet_segments in
    let num_rows := ((num_segments + grid - 1) / grid)%nat in
    rows <- sheet_rows md sheet_segments (seq 0 num_rows) [];
    match rows with
    | None => ret false
    | Some h_stacked_videos =>
      if is_nil h_stacked_videos then ret false else
      let final_sheet_video_path :=
        temp_dir self // (base_filename self +:+ "_final_sheet_raw.mp4") in
      let all_v_inputs := info_video_path :: h_stacked_videos in
      stacked <- _stack_videos md all_v_inputs final_sheet_video_path Vertical;
      if negb stacked then ret false else
      let is_landscape_effective := negb (is_vertical md) || ADD_BLACK_BARS cfg in
      final_processed_sheet_path <-
        (if bool_decide (GRID_WIDTH cfg = 4%nat) && is_landscape_effective then
           let downscaled_path :=
             temp_dir self // (base_filename self +:+ "_final_sheet_downscaled.mp4") in
           r <- ask w (Downscale final_sheet_video_path downscaled_path);
           if is_ok r then ret downscaled_path else ret final_sheet_video_path
         else ret final_sheet_video_path);
      let output_webp := artifact_path cfg self WebpSheet in
      r <- ask w (EncodeSheet final_processed_sheet_path output_webp);
      if is_ok r then _ <- create output_webp; ret true
      else _ <- discard output_webp; ret false
    end
  end.

(** *** [_extract_segment_frames] *)

(** One turn of [for i, segment_path in enumerate(segments_to_frame)]. *)
Definition frame_file (segment_path : path) : path :=
  let frame_filename := "frame_" +:+ stem segment_path +:+ ".png" in
  temp_dir self // frame_filename.

Definition frame_step (extracted_frames : list path) (segment_path : path)
    : M (list path) :=
  let frame_path := frame_file segment_path in
  found <- present segment_path;
  if negb found then ret extracted_frames else
  let mid_point_time := (SEGMENT_DURATION cfg / 2)%Q in
  let fallback_seek_time := 0.1%Q in
  r <- ask w (ExtractFrame segment_path (round3 mid_point_time) frame_path);
  frame_extracted <-
    (if is_ok r then ret true
     else
       _ <- discard frame_path;
       r <- ask w (ExtractFrame segment_path (round3 fallback_seek_time) frame_path);
       if is_ok r then ret true
       else _ <- discard frame_path; ret false);
  if frame_extracted then
    _ <- create frame_path; ret (extracted_frames ++ [frame_path])
  else ret extracted_frames.

Fixpoint frames_loop (segments_to_frame : list path)
    (extracted_frames : list path) : M (list path) :=
  match segments_to_frame with
  | [] => ret extracted_frames
  | segment_path :: rest =>
    extracted_frames <- frame_step extracted_frames segment_path;
    frames_loop rest extracted_frames
  end.

Definition _extract_segment_frames (segment_files : list path) : M (list path) :=
  _ <- ask w (Info "Extracting frames for static image sheet...");
  let segments_to_frame := segment_files in
  if is_nil segments_to_frame then ret [] else
  frames_loop segments_to_frame [].

(** *** [_generate_image_preview_sheet] *)

(** The upper left corner of grid cell [i]. *)
Definition cell_x (grid : nat) (frame_w : Z) (i : nat) : Z :=
  (Z.of_nat (i mod grid) * frame_w)%Z.
Definition cell_y (grid : nat) (info_h frame_h : Z) (i : nat) : Z :=
  (info_h + Z.of_nat (i / grid) * frame_h)%Z.

(** One turn of [for i, frame_path in enumerate(self.segment_frame_files)]. *)
Definition paste_step (info_h frame_w frame_h : Z) (canvas : list draw)
    (i : nat) (frame_path : path) : M (list draw) :=
  let grid := GRID_WIDTH cfg in
  let paste_x := cell_x grid frame_w i in
  let paste_y := cell_y grid info_h frame_h i in
  found <- present frame_path;
  if negb found then
    ret (canvas ++ [Placeholder paste_x paste_y frame_w frame_h
                      ("Error" +:+ nl +:+ "Missing" +:+ nl +:+ "Frame "
                       +:+ decimal (i + 1))])
  else
    r <- ask w (OpenImage frame_path);
    match r with
    | Dimensions fw fh =>
      let resized := negb (bool_decide (fw = frame_w) && bool_decide (fh = frame_h)) in
      ret (canvas ++ [PasteFrame frame_path paste_x paste_y resized])
    | _ =>
      ret (canvas ++ [Placeholder paste_x paste_y frame_w frame_h
                        ("Error" +:+ nl +:+ "Load/Paste" +:+ nl +:+ "Frame "
                         +:+ decimal (i + 1))])
    end.

Fixpoint paste_loop (info_h frame_w frame_h : Z) (i : nat)
    (frames : list path) (canvas : list draw) : M (list draw) :=
  match frames with
  | [] => ret canvas
  | frame_path :: rest =>
    canvas <- paste_step info_h frame_w frame_h canvas i frame_path;
    paste_loop info_h frame_w frame_h (S i) rest canvas
  end.

(** [for i in range(num_frames_extracted, num_frames_expected)]. *)
Definition missing_placeholders (info_h frame_w frame_h : Z)
    (num_frames_extracted num_frames_expected : nat) : list draw :=
  let grid := GRID_WIDTH cfg in
  map (fun i => Placeholder (cell_x grid frame_w i) (cell_y grid info_h frame_h i)
                  frame_w frame_h
                  ("Missing" +:+ nl +:+ "Frame " +:+ decimal (i + 1)))
      (seq num_frames_extracted (num_frames_expected - num_frames_extracted)).

Definition _generate_image_preview_sheet (md : metadata)
    (segment_frame_files : list path) : M bool :=
  _ <- ask w (Info "Generating static image preview sheet...");
  match segment_frame_files with
  | [] => ret false
  | first_frame :: _ =>
    info_image_path <- _create_info_image md;
    match info_image_path with
    | None => ret false
    | Some info_image_path =>
      info <- ask w (OpenImage info_image_path);
      match info with
      | Dimensions info_w info_h =>
        found <- present first_frame;
        if negb found then ret false else
        first <- ask w (OpenImage first_frame);
        match first with
        | Dimensions frame_w frame_h =>
          let grid := GRID_WIDTH cfg in
          let num_frames_expected := NUM_OF_SEGMENTS cfg in
          let num_frames_extracted := length segment_frame_files in
          let num_rows := ((num_frames_expected + grid - 1) / grid)%nat in
          let sheet_width := info_w in
          let sheet_height := (info_h + Z.of_nat num_rows * frame_h)%Z in
          canvas <- paste_loop info_h frame_w frame_h 0 segment_frame_files
                      [PasteInfo info_image_path];
          let canvas :=
            if (num_frames_extracted <? num_frames_expected)%nat then
              canvas ++ missing_placeholders info_h frame_w frame_h
                          num_frames_extracted num_frames_expected
            else canvas in
          let output_path := artifact_path cfg self ImageSheet in
          let save_format := upper (IMAGE_SHEET_FORMAT cfg) in
          let save_format :=
            if bool_decide (save_format = "JPG") || bool_decide (save_format = "JPEG")
            then "JPEG" else save_format in
          r <- ask w (SaveSheet canvas sheet_width sheet_height save_format
                        output_path);
          if is_ok r then _ <- create output_path; ret true
          else ret false
        | _ => ret false
        end
      | _ => ret false
      end
    end
  end.

(** *** [run] *)

(** The body of the [try] block: the value returned or assigned to
    [processing_successful], or an exception. *)
Definition process (video_path : path) (md : metadata) : M (outcome bool) :=
  let video_duration := duration md in
  planned <- _generate_cut_points md;
  match planned with
  | Raises => ret Raises
  | Returns cut_points_pct =>
    if is_nil cut_points_pct then ret (Returns false) else
    let cut_points_sec := map (fun p => (p * video_duration)%Q) cut_points_pct in
    '(segment_files, timestamped_segment_files) <-
      _generate_segments video_path md cut_points_sec;
    if is_nil segment_files && any_preview_requested cfg
    then ret (Returns false) else
    results1 <-
      (if CREATE_WEBP_PREVIEW cfg then
         b <- _generate_webp_preview md segment_files; ret [b]
       else ret []);
    results2 <-
      (if CREATE_WEBP_PREVIEW_SHEET cfg then
         b <- _generate_webp_preview_sheet md timestamped_segment_files; ret [b]
       else ret []);
    results3 <-
      (if CREATE_IMAGE_PREVIEW_SHEET cfg then
         segment_frame_files <- _extract_segment_frames segment_files;
         if is_nil segment_frame_files then ret [false]
         else b <- _generate_image_preview_sheet md segment_frame_files; ret [b]
       else ret []);
    let results := results1 ++ results2 ++ results3 in
    let processing_successful := existsb (fun r => r) results in
    if processing_successful then ret (Returns true)
    else if any_preview_requested cfg then ret (Returns false)
    else ret (Returns true)
  end.

(** The [finally] block. *)
Definition cleanup : M unit :=
  found <- present (temp_dir self);
  if negb (KEEP_TEMP_FILES cfg) && found then
    _ <- ask w (Rmtree (temp_dir self));
    discard_tree (temp_dir self)
  else ret tt.

Definition run : M bool :=
  '(should_process, video_path) <- _check_existing_outputs;
  if negb should_process then ret false else
  r <- ask w (Mkdir (output_dir self));
  if negb (is_ok r) then ret false else
  _ <- create (output_dir self);
  let target_video_path := target_video_path self in
  moved <-
    (if negb (bool_decide (video_path = target_video_path)) then
       found <- present video_path;
       if negb found then ret None else
       r <- ask w (Move video_path target_video_path);
       if is_ok r then
         _ <- discard video_path;
         _ <- create target_video_path;
         ret (Some target_video_path)
       else ret None
     else ret (Some video_path));
  match moved with
  | None => ret false
  | Some video_path =>
    r <- ask w (Mkdir (temp_dir self));
    if negb (is_ok r) then ret false else
    _ <- create (temp_dir self);
    md <- _get_metadata video_path;
    match md with
    | None => ret false
    | Some md =>
      let video_duration := duration md in
      if Qle_bool video_duration 10 then ret false else
      result <- process video_path md;
      _ <- cleanup;
      match result with
      | Returns processing_successful => ret processing_successful
      | Raises => ret false
      end
    end
  end.
End Pipeline.

(** ** Observations on the log *)

(** The [logger.info] line that opens the work on an artifact. *)
Definition opening_line (a : artifact) : string :=
  match a with
  | WebpPreview => "Generating standalone animated WebP preview..."
  | WebpSheet => "Generating animated WebP preview sheet..."
  | ImageSheet => "Extracting frames for static image sheet..."
  end.

(** The artifact an entry starts the work on. *)
Definition attempt_of (e : entry) : option artifact :=
  match e.1 with
  | Info m =>
    if bool_decide (m = opening_line WebpPreview) then Some WebpPreview
    else if bool_decide (m = opening_line WebpSheet) then Some WebpSheet
    else if bool_decide (m = opening_line ImageSheet) then Some ImageSheet
    else None
  | _ => None
  end.

(** The artifact an entry writes: the final encoding or saving call of its
    builder, answered [Ok]. *)
Definition product_of (e : entry) : option artifact :=
  match e with
  | (EncodePreview _ _ _, Ok) => Some WebpPreview
  | (EncodeSheet _ _, Ok) => Some WebpSheet
  | (SaveSheet _ _ _ _ _, Ok) => Some ImageSheet
  | _ => None
  end.

Definition attempts (l : list entry) : list artifact := omap attempt_of l.
Definition products (l : list entry) : list artifact := omap product_of l.

Definition attempted (a : artifact) (l : list entry) : Prop := a ∈ attempts l.
Definition produced (a : artifact) (l : list entry) : Prop := a ∈ products l.

(** A segment passes verification when the probe of its duration, made only
    after the size check, reports more than a hundredth of a second. *)
Definition is_verification (e : entry) : bool :=
  match e with
  | (ProbeDuration _, Number d) => negb (Qle_bool d 0.01)
  | _ => false
  end.

Definition verified_segments (l : list entry) : nat :=
  length (filter (fun e => is_verification e = true) l).

(** The calls that start [ffmpeg] or [ffprobe]. *)
Definition is_external (c : call) : bool :=
  match c with
  | ProbeRotation _ | ProbeFormat _ | Extract _ _ _ _ _ | ProbeDuration _
  | Overlay _ _ _ | Concat _ _ | EncodePreview _ _ _ | InfoVideo _ _ _ _
  | ProbeProps _ | BlackClip _ _ _ _ _ | Reencode _ _ | ProbeSize _
  | Stack _ _ _ _ _ _ | Downscale _ _ | EncodeSheet _ _ | ExtractFrame _ _ _ => true
  | _ => false
  end.

Definition external_calls (l : list entry) : list call :=
  filter (fun c => is_external c = true) (map fst l).

(** ** Footprints *)

(** A computation with footprint [(P, Q)] only makes calls in [P] and leaves
    every path outside [Q] as it is. *)
Definition footprint {A : Type} (P : call -> Prop) (Q : path -> Prop) (m : M A) : Prop :=
  forall st,
    (exists new, log (m st).2 = log st ++ new /\ Forall (fun e => P e.1) new)
    /\ (forall p, ~ Q p -> p ∈ fs (m st).2 <-> p ∈ fs st).

(** Paths in the output directory or in the workspace. *)
Definition inside (self : VideoProcessor) (p : path) : Prop :=
  output_dir self `prefix_of` p \/ temp_dir self `prefix_of` p.

(** The calls of the methods. *)
Definition check_calls (c : call) : Prop :=
  match c with Unlink _ | Input _ => True | _ => False end.

Definition probe_calls (c : call) : Prop :=
  match c with ProbeRotation _ | ProbeFormat _ => True | _ => False end.

Definition plan_calls (c : call) : Prop :=
  match c with Input _ => True | _ => False end.

Definition segment_calls (c : call) : Prop :=
  match c with
  | Extract _ _ _ _ _ | StatSegment _ | ProbeDuration _ | Overlay _ _ _ => True
  | _ => False
  end.

Definition helper_calls (c : call) : Prop :=
  match c with
  | WriteConcat _ _ | Concat _ _ | RenderInfo _ _ | InfoVideo _ _ _ _
  | ProbeProps _ | BlackClip _ _ _ _ _ | Reencode _ _ | ProbeSize _
  | Stack _ _ _ _ _ _ | Downscale _ _ | ExtractFrame _ _ _ | OpenImage _ => True
  | _ => False
  end.

Definition builder_calls (c : call) : Prop :=
  match c with
  | Info _ | EncodePreview _ _ _ | EncodeSheet _ _ | SaveSheet _ _ _ _ _ => True
  | _ => helper_calls c
  end.

(** A configuration with another segment count. *)
Definition with_segment_count (n : nat) (cfg : Config) : Config :=
  {| INPUT_FOLDER := INPUT_FOLDER cfg;
     CUSTOM_OUTPUT_PATH := CUSTOM_OUTPUT_PATH cfg;
     CREATE_WEBP_PREVIEW := CREATE_WEBP_PREVIEW cfg;
     CREATE_WEBP_PREVIEW_SHEET := CREATE_WEBP_PREVIEW_SHEET cfg;
     CREATE_IMAGE_PREVIEW_SHEET := CREATE_IMAGE_PREVIEW_SHEET cfg;
     NUM_OF_SEGMENTS := n;
     SEGMENT_DURATION := SEGMENT_DURATION cfg;
     ADD_BLACK_BARS := ADD_BLACK_BARS cfg;
     GRID_WIDTH := GRID_WIDTH cfg;
     TIMESTAMPS_MODE := TIMESTAMPS_MODE cfg;
     IMAGE_SHEET_FORMAT := IMAGE_SHEET_FORMAT cfg;
     KEEP_TEMP_FILES := KEEP_TEMP_FILES cfg;
     IGNORE_EXISTING := IGNORE_EXISTING cfg;
     CONFIRM_CUT_POINTS_REQUIRED := CONFIRM_CUT_POINTS_REQUIRED cfg;
     BLACKLISTED_CUT_POINTS := BLACKLISTED_CUT_POINTS cfg;
     FONT_PATH := FONT_PATH cfg |}.

(** ** Properties of cut points, and the scenarios used below *)

(** [l] is a split into [N] cut points: strictly increasing fractions of the
    open unit interval, none of them blacklisted. *)
Definition valid_split (N : nat) (BL : list Q) (l : list Q) : Prop :=
  length l = N /\ StronglySorted Qlt l /\
  Forall (fun p => (0 < p /\ p < 1)%Q) l /\
  Forall (fun p => Qmem p BL = false) l.

(** The configuration the script ships with, on a folder [videos]. *)
Definition shipped : Config :=
  {| INPUT_FOLDER := ["videos"];
     CUSTOM_OUTPUT_PATH := None;
     CREATE_WEBP_PREVIEW := true;
     CREATE_WEBP_PREVIEW_SHEET := true;
     CREATE_IMAGE_PREVIEW_SHEET := true;
     NUM_OF_SEGMENTS := 16;
     SEGMENT_DURATION := 1.5;
     ADD_BLACK_BARS := false;
     GRID_WIDTH := 4;
     TIMESTAMPS_MODE := 2;
     IMAGE_SHEET_FORMAT := "PNG";
     KEEP_TEMP_FILES := false;
     IGNORE_EXISTING := true;
     CONFIRM_CUT_POINTS_REQUIRED := false;
     BLACKLISTED_CUT_POINTS := [];
     FONT_PATH := ["fonts"; "LiberationSans-Regular.ttf"] |}.

(** A two-minute landscape video. *)
Definition two_minutes : metadata :=
  {| duration := 120; fps := 30; is_vertical := false |}.

Definition clip : path := ["videos"; "clip.mp4"].

(** A world in which every call succeeds on that video. *)
Definition kind_world : world := fun _ c =>
  match c with
  | Input _ => Text "yes"
  | ProbeRotation _ => Text EmptyString
  | ProbeFormat _ =>
    Streams {| video_stream := Some {| width := 1920; height := 1080;
                                       codec_name := "h264"; rate := Some (30, 1)%Z |};
               format_duration_field := 120 |}
  | ProbeDuration _ => Number 1.5
  | ProbeSize _ => Dimensions 480 270
  | ProbeProps _ => Fields [TInt 480; TInt 270; TRatio 30 1; TDecimal 1.5]
  | OpenImage img =>
    if bool_decide (name img = "clip_info.png") then Dimensions 1920 186
    else Dimensions 480 270
  | _ => Ok
  end.

(** The file system before the first run: the video and the font. *)
Definition fresh_disk : gset path := {[ clip; FONT_PATH shipped ]}.

Definition fresh (files : gset path) : state := {| fs := files; log := [] |}.

(** The 16 cut points of the two-minute scenario. *)
Definition sixteen_points : list Q :=
  [0.050; 0.112; 0.174; 0.236; 0.298; 0.360; 0.422; 0.484;
   0.546; 0.608; 0.670; 0.732; 0.794; 0.856; 0.918; 0.980]%Q.

(** ** Predicates and scenarios of the properties *)

Open Scope Q_scope.

(** a multiple of 1/1000 is its own rounding *)
Definition milli (x : Q) : Prop := exists z : Z, x == z # 1000.

Close Scope Q_scope.

(** [yields m R]: every result of [m] satisfies [R]. *)
Definition yields {A : Type} (m : M A) (R : A -> Prop) : Prop :=
  forall st, R (m st).1.

(** A call that neither opens nor writes an artifact, whatever the answer. *)
Definition quiet (c : call) : Prop :=
  forall r, attempt_of (c, r) = None /\ product_of (c, r) = None.

(** A computation that leaves no attempt and no product in the log. *)
Definition silent {A : Type} (m : M A) : Prop :=
  forall st, exists new,
    log (m st).2 = log st ++ new /\ attempts new = [] /\ products new = [].

(** A builder body: nothing is opened, and the artifact is written exactly
    when the body returns [true]. *)
Definition builds (a : artifact) (m : M bool) : Prop :=
  forall st, exists new,
    log (m st).2 = log st ++ new /\ attempts new = [] /\
    products new = if (m st).1 then [a] else [].

(** [counts m R]: [R] relates the result of [m] to the number of
    verifications it adds to the log. *)
Definition counts {A : Type} (m : M A) (R : A -> nat -> Prop) : Prop :=
  forall st, exists new,
    log (m st).2 = log st ++ new /\ R (m st).1 (verified_segments new).

(** Calls that are never a verification. *)
Definition unverifying (c : call) : Prop :=
  match c with ProbeDuration _ => False | _ => True end.

Definition overlay_calls (c : call) : Prop :=
  match c with Overlay _ _ _ => True | _ => False end.

(** What a turn of the extraction loop adds. *)
Definition grows (acc acc' : segments) (n : nat) : Prop :=
  segments_generated acc' = (segments_generated acc + n)%nat /\
  length (valid_segment_paths acc') = (length (valid_segment_paths acc) + n)%nat /\
  length (timestamped_paths_for_sheet acc')
  = (length (timestamped_paths_for_sheet acc) + n)%nat.

Open Scope Q_scope.

(** The calls that follow the extraction of a segment. *)
Definition follow_up_calls (c : call) : Prop :=
  match c with
  | StatSegment _ | ProbeDuration _ | Overlay _ _ _ => True
  | _ => False
  end.

Close Scope Q_scope.

Definition verify_calls (c : call) : Prop :=
  match c with StatSegment _ | ProbeDuration _ => True | _ => False end.

Definition nowhere (p : path) : Prop := False.

(** The segments of row [r]: [sheet_segments[r * grid : min((r + 1) * grid, n)]]. *)
Definition row_of (cfg : Config) (segs : list path) (r : nat) : list path :=
  take (Nat.min ((r + 1) * GRID_WIDTH cfg) (length segs) - r * GRID_WIDTH cfg)
       (drop (r * GRID_WIDTH cfg) segs).

(** The filler clip of row [r]. *)
Definition filler (self : VideoProcessor) (r : nat) : path :=
  temp_dir self // ("black_placeholder_row" +:+ decimal (r + 1) +:+ ".mp4").

(** A full row: the segments of some row followed by copies of its filler,
    [GRID_WIDTH] entries in all. *)
Definition full_row (cfg : Config) (self : VideoProcessor) (segs : list path)
    (inputs : list path) : Prop :=
  length inputs = GRID_WIDTH cfg /\
  exists r,
    row_of cfg segs r <> [] /\
    inputs = row_of cfg segs r
             ++ replicate (GRID_WIDTH cfg - length (row_of cfg segs r)) (filler self r).

(** Every horizontal stacking is that of a full row. *)
Definition stacks_full_rows (cfg : Config) (self : VideoProcessor)
    (segs : list path) (c : call) : Prop :=
  match c with
  | Stack Horizontal inputs _ _ _ _ => full_row cfg self segs inputs
  | _ => True
  end.

(** The calls of [_stack_videos] on given inputs. *)
Definition stacking_of (inputs : list path) (ax : axis) (c : call) : Prop :=
  match c with
  | Stack ax' ins _ _ _ _ => ax' = ax /\ ins = inputs /\ (2 <= length inputs)%nat
  | Reencode src _ => inputs = [src]
  | ProbeSize _ => True
  | _ => False
  end.

Definition render_calls (c : call) : Prop :=
  match c with RenderInfo _ _ => True | _ => False end.

(** Fourteen segments on a grid of four: four rows, the last one padded. *)
Definition fourteen_segments : list path :=
  imap (fun i p => segment_file (init id 1234 shipped clip) i (p * 120)%Q)
       (take 14 sixteen_points).

(** Cell [j] of the grid holds a placeholder, or the frame [frame]. *)
Definition placeholder_at (cfg : Config) (info_h frame_w frame_h : Z) (j : nat)
    (d : draw) : Prop :=
  exists text,
    d = Placeholder (cell_x (GRID_WIDTH cfg) frame_w j)
          (cell_y (GRID_WIDTH cfg) info_h frame_h j) frame_w frame_h text.

Definition frame_at (cfg : Config) (info_h frame_w frame_h : Z) (j : nat)
    (frame : path) (d : draw) : Prop :=
  exists resized,
    d = PasteFrame frame (cell_x (GRID_WIDTH cfg) frame_w j)
          (cell_y (GRID_WIDTH cfg) info_h frame_h j) resized.

(** The layout the code gives the canvas: the info panel, then cell [j] for
    the [j]-th extracted frame (the frame, or a placeholder when it cannot be
    opened), then "Missing Frame" placeholders up to the configured count. *)
Definition compacted (cfg : Config) (frames : list path) (canvas : list draw) : Prop :=
  exists info info_h frame_w frame_h cells,
    canvas = PasteInfo info :: cells
             ++ missing_placeholders cfg info_h frame_w frame_h
                  (length frames) (NUM_OF_SEGMENTS cfg)
    /\ length cells = length frames
    /\ forall j frame, frames !! j = Some frame ->
         exists d, cells !! j = Some d /\
           (frame_at cfg info_h frame_w frame_h j frame d
            \/ placeholder_at cfg info_h frame_w frame_h j d).

(** Every sheet that is saved is laid out that way. *)
Definition saves_compacted (cfg : Config) (frames : list path) (c : call) : Prop :=
  match c with
  | SaveSheet canvas _ _ _ _ => compacted cfg frames canvas
  | _ => True
  end.

(** A second scenario: the frames of segments 3, 8 and 12 cannot be
    extracted, at the mid point or at the fallback position. *)
Definition job : VideoProcessor := init id 1234 shipped clip.

Definition segment_number (seg : path) : string :=
  let s := stem seg in String.substring (String.length s - 2) 2 s.

Definition three_frames_fail : world := fun h c =>
  match c with
  | ExtractFrame seg _ _ =>
    if bool_decide (segment_number seg ∈ ["03"; "08"; "12"]) then Failed
    else Ok
  | _ => kind_world h c
  end.

(** The canvases of the sheets saved, and the segments whose frame was given
    up after the fallback position. *)
Definition saved_sheets (l : list entry) : list (list draw) :=
  omap (fun e : entry =>
          match e with
          | (SaveSheet canvas _ _ _ _, Ok) => Some canvas
          | _ => None
          end) l.

Definition frame_failures (l : list entry) : list path :=
  omap (fun e : entry =>
          match e with
          | (ExtractFrame seg ss _, r) =>
            if negb (is_ok r) && Qeq_bool ss (round3 0.1) then Some seg else None
          | _ => None
          end) l.

Definition sixteen_segments : list path :=
  imap (fun i p => segment_file job i (p * 120)%Q) sixteen_points.

(** A canvas that keeps the grid aligned with the segments: cell [j] shows
    segment [j], by its frame or, when its extraction failed, by a
    placeholder. *)
Definition aligned (cfg : Config) (self : VideoProcessor) (segs : list path)
    (failed : list path) (info_h frame_w frame_h : Z) (canvas : list draw) : Prop :=
  forall j seg, segs !! j = Some seg ->
    exists d, canvas !! S j = Some d /\
      if bool_decide (seg ∈ failed) then placeholder_at cfg info_h frame_w frame_h j d
      else frame_at cfg info_h frame_w frame_h j (frame_file self seg) d.

(** What that scenario leaves: the frames of the thirteen other segments
    fill the first thirteen cells, three placeholders the last three. *)
Definition thirteen_frames : list draw :=
  [ PasteFrame ["videos"; "clip"; "clip-temp"; "frame_clip_start-00.00.06_seg-01.png"]
      0 186 false;
    PasteFrame ["videos"; "clip"; "clip-temp"; "frame_clip_start-00.00.13_seg-02.png"]
      480 186 false;
    PasteFrame ["videos"; "clip"; "clip-temp"; "frame_clip_start-00.00.28_seg-04.png"]
      960 186 false;
    PasteFrame ["videos"; "clip"; "clip-temp"; "frame_clip_start-00.00.36_seg-05.png"]
      1440 186 false;
    PasteFrame ["videos"; "clip"; "clip-temp"; "frame_clip_start-00.00.43_seg-06.png"]
      0 456 false;
    PasteFrame ["videos"; "clip"; "clip-temp"; "frame_clip_start-00.00.51_seg-07.png"]
      480 456 false;
    PasteFrame ["videos"; "clip"; "clip-temp"; "frame_clip_start-00.01.06_seg-09.png"]
      960 456 false;
    PasteFrame ["videos"; "clip"; "clip-temp"; "frame_clip_start-00.01.13_seg-10.png"]
      1440 456 false;
    PasteFrame ["videos"; "clip"; "clip-temp"; "frame_clip_start-00.01.20_seg-11.png"]
      0 726 false;
    PasteFrame ["videos"; "clip"; "clip-temp"; "frame_clip_start-00.01.35_seg-13.png"]
      480 726 false;
    PasteFrame ["videos"; "clip"; "clip-temp"; "frame_clip_start-00.01.43_seg-14.png"]
      960 726 false;
    PasteFrame ["videos"; "clip"; "clip-temp"; "frame_clip_start-00.01.50_seg-15.png"]
      1440 726 false;
    PasteFrame ["videos"; "clip"; "clip-temp"; "frame_clip_start-00.01.58_seg-16.png"]
      0 996 false ].

Definition three_fail_canvas : list draw :=
  PasteInfo ["videos"; "clip"; "clip-temp"; "clip_info.png"]
  :: thirteen_frames
  ++ [ Placeholder 480 996 480 270 ("Missing" +:+ nl +:+ "Frame 14");
       Placeholder 960 996 480 270 ("Missing" +:+ nl +:+ "Frame 15");
       Placeholder 1440 996 480 270 ("Missing" +:+ nl +:+ "Frame 16") ].

Definition three_failures : list path :=
  [ ["videos"; "clip"; "clip-temp"; "clip_start-00.00.21_seg-03.mp4"];
    ["videos"; "clip"; "clip-temp"; "clip_start-00.00.58_seg-08.mp4"];
    ["videos"; "clip"; "clip-temp"; "clip_start-00.01.28_seg-12.mp4"] ].

(** The artifact types configured, in the order [run] builds them. *)
Definition configured (cfg : Config) : list artifact :=
  (if CREATE_WEBP_PREVIEW cfg then [WebpPreview] else [])
  ++ (if CREATE_WEBP_PREVIEW_SHEET cfg then [WebpSheet] else [])
  ++ (if CREATE_IMAGE_PREVIEW_SHEET cfg then [ImageSheet] else []).

(** [emits m R]: [R] relates the result of [m] to what it adds to the log. *)
Definition emits {A : Type} (m : M A) (R : A -> list entry -> Prop) : Prop :=
  forall st, exists new, log (m st).2 = log st ++ new /\ R (m st).1 new.

(** A run that stopped before the builders, and one that reached them. *)
Definition stopped (ok : bool) (new : list entry) : Prop :=
  attempts new = [] /\ products new = [] /\ ok = false.

Definition built (cfg : Config) (ok : bool) (new : list entry) : Prop :=
  attempts new = configured cfg
  /\ (forall a, a ∈ products new -> a ∈ configured cfg)
  /\ ok = negb (is_nil (products new)) || negb (any_preview_requested cfg)
  /\ (any_preview_requested cfg = true -> (0 < verified_segments new)%nat).

Definition verdict (cfg : Config) (ok : bool) (new : list entry) : Prop :=
  stopped ok new \/ built cfg ok new.

(** The value [run] makes of the outcome of the [try] block. *)
Definition settled (r : outcome bool) : bool :=
  match r with Returns b => b | Raises => false end.

(** What a builder stage leaves: [flag] is its switch, [rs] its results. *)
Definition stage (a : artifact) (flag : bool) (rs : list bool) (new : list entry) : Prop :=
  attempts new = (if flag then [a] else [])
  /\ products new = (if existsb (fun r => r) rs then [a] else [])
  /\ (flag = false -> rs = []).

(** A world in which both WebP encodings fail. *)
Definition only_static_sheet : world := fun h c =>
  match c with
  | EncodePreview _ _ _ | EncodeSheet _ _ => Failed
  | _ => kind_world h c
  end.

(** A world in which no segment can be extracted. *)
Definition barren_world : world := fun h c =>
  match c with
  | Extract _ _ _ _ _ => Failed
  | _ => kind_world h c
  end.

(** Any call at all. *)
Definition anything (c : call) : Prop := True.

(** The part of [run] that follows the move of the source video. *)
Definition finish (w : world) (cfg : Config) (self : VideoProcessor)
    (video_path : path) : M bool :=
  r <- ask w (Mkdir (temp_dir self));
  if negb (is_ok r) then ret false else
  _ <- create (temp_dir self);
  md <- _get_metadata w video_path;
  match md with
  | None => ret false
  | Some md =>
    let video_duration := duration md in
    if Qle_bool video_duration 10 then ret false else
    result <- process w cfg self video_path md;
    _ <- cleanup w cfg self;
    match result with
    | Returns processing_successful => ret processing_successful
    | Raises => ret false
    end
  end.

(** A short video: the probe reports eight seconds. *)
Definition short_world : world := fun h c =>
  match c with
  | ProbeFormat _ =>
    Streams {| video_stream := Some {| width := 1920; height := 1080;
                                       codec_name := "h264"; rate := Some (30, 1)%Z |};
               format_duration_field := 8 |}
  | _ => kind_world h c
  end.

(** A configuration with another policy on existing outputs. *)
Definition with_ignore_existing (b : bool) (cfg : Config) : Config :=
  {| INPUT_FOLDER := INPUT_FOLDER cfg;
     CUSTOM_OUTPUT_PATH := CUSTOM_OUTPUT_PATH cfg;
     CREATE_WEBP_PREVIEW := CREATE_WEBP_PREVIEW cfg;
     CREATE_WEBP_PREVIEW_SHEET := CREATE_WEBP_PREVIEW_SHEET cfg;
     CREATE_IMAGE_PREVIEW_SHEET := CREATE_IMAGE_PREVIEW_SHEET cfg;
     NUM_OF_SEGMENTS := NUM_OF_SEGMENTS cfg;
     SEGMENT_DURATION := SEGMENT_DURATION cfg;
     ADD_BLACK_BARS := ADD_BLACK_BARS cfg;
     GRID_WIDTH := GRID_WIDTH cfg;
     TIMESTAMPS_MODE := TIMESTAMPS_MODE cfg;
     IMAGE_SHEET_FORMAT := IMAGE_SHEET_FORMAT cfg;
     KEEP_TEMP_FILES := KEEP_TEMP_FILES cfg;
     IGNORE_EXISTING := b;
     CONFIRM_CUT_POINTS_REQUIRED := CONFIRM_CUT_POINTS_REQUIRED cfg;
     BLACKLISTED_CUT_POINTS := BLACKLISTED_CUT_POINTS cfg;
     FONT_PATH := FONT_PATH cfg |}.

Definition keeping : Config := with_ignore_existing false shipped.

(** A disk that holds the three artifacts of [clip], and the video still at
    its original place. *)
Definition stale_disk : gset path :=
  fresh_disk ∪ {[ output_dir job;
                  artifact_path keeping job WebpPreview;
                  artifact_path keeping job WebpSheet;
                  artifact_path keeping job ImageSheet ]}.

(** A user who declines the first question and accepts every later one. *)
Definition asked_before (h : list entry) : bool :=
  existsb (fun e : entry => match e.1 with Input _ => true | _ => false end) h.

Definition moody_world : world := fun h c =>
  match c with
  | Input _ => if asked_before h then Text "yes" else Text "no"
  | _ => kind_world h c
  end.

(** The state a first run of the kind scenario leaves, with the policy
    disabled. *)
Definition after_first_run : state :=
  (run kind_world keeping job (fresh fresh_disk)).2.

(** A configuration with another padding toggle. *)
Definition with_black_bars (b : bool) (cfg : Config) : Config :=
  {| INPUT_FOLDER := INPUT_FOLDER cfg;
     CUSTOM_OUTPUT_PATH := CUSTOM_OUTPUT_PATH cfg;
     CREATE_WEBP_PREVIEW := CREATE_WEBP_PREVIEW cfg;
     CREATE_WEBP_PREVIEW_SHEET := CREATE_WEBP_PREVIEW_SHEET cfg;
     CREATE_IMAGE_PREVIEW_SHEET := CREATE_IMAGE_PREVIEW_SHEET cfg;
     NUM_OF_SEGMENTS := NUM_OF_SEGMENTS cfg;
     SEGMENT_DURATION := SEGMENT_DURATION cfg;
     ADD_BLACK_BARS := b;
     GRID_WIDTH := GRID_WIDTH cfg;
     TIMESTAMPS_MODE := TIMESTAMPS_MODE cfg;
     IMAGE_SHEET_FORMAT := IMAGE_SHEET_FORMAT cfg;
     KEEP_TEMP_FILES := KEEP_TEMP_FILES cfg;
     IGNORE_EXISTING := IGNORE_EXISTING cfg;
     CONFIRM_CUT_POINTS_REQUIRED := CONFIRM_CUT_POINTS_REQUIRED cfg;
     BLACKLISTED_CUT_POINTS := BLACKLISTED_CUT_POINTS cfg;
     FONT_PATH := FONT_PATH cfg |}.

(** The directory the output directories are made in. *)
Definition base_output_dir (cfg : Config) : path :=
  match CUSTOM_OUTPUT_PATH cfg with
  | Some (c :: p) => c :: p
  | _ => INPUT_FOLDER cfg
  end.

(** A state with one more path. *)
Definition plus (p : path) (st : state) : state :=
  {| fs := fs st ∪ {[p]}; log := log st |}.

(** The paths the existing-output check looks at. *)
Definition watched (cfg : Config) (self : VideoProcessor) : list path :=
  map (fun it : string * path * bool => it.1.2) (output_files_config cfg self).

(** [blind p m]: [m] neither reads nor touches [p]. *)
Definition blind (p : path) {A : Type} (m : M A) : Prop :=
  forall st, m (plus p st) = ((m st).1, plus p (m st).2).

(** The characters of a string. *)
Fixpoint chars (s : string) : list ascii :=
  match s with
  | EmptyString => []
  | String c s' => c :: chars s'
  end.

(** The characters [sanitize_filename] lets through, and those it strips
    from both ends. *)
Definition safe_char (c : ascii) : bool :=
  is_word c || bool_decide (c = ".")%char || bool_decide (c = "-")%char.

Definition edge_char (c : ascii) : bool :=
  bool_decide (c = "_")%char || bool_decide (c = ".")%char.

(** [str.lstrip] on the list of characters. *)
Fixpoint ldrop (drop : ascii -> bool) (l : list ascii) : list ascii :=
  match l with
  | [] => []
  | c :: l' => if drop c then ldrop drop l' else l
  end.

(** Every deletion in [l] directly follows a question that was accepted. *)
Definition consented (l : list entry) : Prop :=
  forall i p r, l !! i = Some ((Unlink p, r) : entry) ->
    exists j q t, i = S j /\ l !! j = Some ((Input q, Text t) : entry)
                  /\ accepts t = true.

(** The calls of [l] are deletions of files of [files], nothing else. *)
Definition deletes_only (files : list (string * path)) (l : list entry) : Prop :=
  Forall (fun e : entry => exists f, f ∈ files /\ e.1 = Unlink f.2) l.

(** The deletions of [l] are deletions of files of [files]. *)
Definition deletes_among (files : list (string * path)) (l : list entry) : Prop :=
  forall p r, ((Unlink p, r) : entry) ∈ l -> exists f, f ∈ files /\ p = f.2.

(** The paths a run may touch: its output directory, its workspace and the
    source video. *)
Definition own (self : VideoProcessor) (p : path) : Prop :=
  inside self p \/ p = original_video_path self.

(** What a turn of the extraction loop adds, at most one segment. *)
Definition grows_by_one (acc acc' : segments) (n : nat) : Prop :=
  grows acc acc' n /\ (n <= 1)%nat.

Open Scope Q_scope.

(** Every point of [l] lies between [lo] and [hi]. *)
Definition within (lo hi : Q) (l : list Q) : Prop :=
  Forall (fun p => lo <= p /\ p <= hi) l.

(** The outcome of the planning loop lies within the margins. *)
Definition planned_within (lo hi : Q) (f : flow (list Q) (list Q)) : Prop :=
  match f with
  | Falls l => within lo hi l
  | Exits r => within lo hi r
  | Throws => True
  end.

Close Scope Q_scope.

(** The assignments [cls.FONT_PATH = ...] and [cls.IMAGE_SHEET_FORMAT = ...]. *)
Definition with_font (font : path) (cfg : Config) : Config :=
  {| INPUT_FOLDER := INPUT_FOLDER cfg;
     CUSTOM_OUTPUT_PATH := CUSTOM_OUTPUT_PATH cfg;
     CREATE_WEBP_PREVIEW := CREATE_WEBP_PREVIEW cfg;
     CREATE_WEBP_PREVIEW_SHEET := CREATE_WEBP_PREVIEW_SHEET cfg;
     CREATE_IMAGE_PREVIEW_SHEET := CREATE_IMAGE_PREVIEW_SHEET cfg;
     NUM_OF_SEGMENTS := NUM_OF_SEGMENTS cfg;
     SEGMENT_DURATION := SEGMENT_DURATION cfg;
     ADD_BLACK_BARS := ADD_BLACK_BARS cfg;
     GRID_WIDTH := GRID_WIDTH cfg;
     TIMESTAMPS_MODE := TIMESTAMPS_MODE cfg;
     IMAGE_SHEET_FORMAT := IMAGE_SHEET_FORMAT cfg;
     KEEP_TEMP_FILES := KEEP_TEMP_FILES cfg;
     IGNORE_EXISTING := IGNORE_EXISTING cfg;
     CONFIRM_CUT_POINTS_REQUIRED := CONFIRM_CUT_POINTS_REQUIRED cfg;
     BLACKLISTED_CUT_POINTS := BLACKLISTED_CUT_POINTS cfg;
     FONT_PATH := font |}.

Definition with_image_format (format : string) (cfg : Config) : Config :=
  {| INPUT_FOLDER := INPUT_FOLDER cfg;
     CUSTOM_OUTPUT_PATH := CUSTOM_OUTPUT_PATH cfg;
     CREATE_WEBP_PREVIEW := CREATE_WEBP_PREVIEW cfg;
     CREATE_WEBP_PREVIEW_SHEET := CREATE_WEBP_PREVIEW_SHEET cfg;
     CREATE_IMAGE_PREVIEW_SHEET := CREATE_IMAGE_PREVIEW_SHEET cfg;
     NUM_OF_SEGMENTS := NUM_OF_SEGMENTS cfg;
     SEGMENT_DURATION := SEGMENT_DURATION cfg;
     ADD_BLACK_BARS := ADD_BLACK_BARS cfg;
     GRID_WIDTH := GRID_WIDTH cfg;
     TIMESTAMPS_MODE := TIMESTAMPS_MODE cfg;
     IMAGE_SHEET_FORMAT := format;
     KEEP_TEMP_FILES := KEEP_TEMP_FILES cfg;
     IGNORE_EXISTING := IGNORE_EXISTING cfg;
     CONFIRM_CUT_POINTS_REQUIRED := CONFIRM_CUT_POINTS_REQUIRED cfg;
     BLACKLISTED_CUT_POINTS := BLACKLISTED_CUT_POINTS cfg;
     FONT_PATH := FONT_PATH cfg |}.

(** The fonts tried when the configured one is missing (POSIX components). *)
Definition common_fonts : list path :=
  [ ["/"; "usr"; "share"; "fonts"; "truetype"; "dejavu"; "DejaVuSans.ttf"];
    ["/"; "usr"; "share"; "fonts"; "TTF"; "DejaVuSans.ttf"];
    ["C:"; "Windows"; "Fonts"; "Arial.ttf"] ].

(** [for alt_font in common_fonts: if Path(alt_font).is_file(): ...; break]. *)
Fixpoint first_font (fonts : list path) : M (option path) :=
  match fonts with
  | [] => ret None
  | alt_font :: rest =>
    found <- present alt_font;
    if found then ret (Some alt_font) else first_font rest
  end.

(** The segment counts accepted for the animated sheet. *)
Definition segments_fit_grid (cfg : Config) : bool :=
  let min_segments := if bool_decide (GRID_WIDTH cfg = 3%nat) then 9%nat else 12%nat in
  let max_segments := if bool_decide (GRID_WIDTH cfg = 3%nat) then 30%nat else 28%nat in
  (min_segments <=? NUM_OF_SEGMENTS cfg)%nat
  && (NUM_OF_SEGMENTS cfg <=? max_segments)%nat
  && bool_decide (NUM_OF_SEGMENTS cfg mod GRID_WIDTH cfg = 0%nat).

(** [Config.validate]: the value returned and the class as it is left, or
    the exception of [mkdir]. *)
Definition validate (w : world) (cfg : Config) : M (outcome (bool * Config)) :=
  if CREATE_WEBP_PREVIEW_SHEET cfg
     && negb (bool_decide (GRID_WIDTH cfg = 3%nat) || bool_decide (GRID_WIDTH cfg = 4%nat))
  then ret (Returns (false, cfg)) else
  if CREATE_WEBP_PREVIEW_SHEET cfg && negb (segments_fit_grid cfg)
  then ret (Returns (false, cfg)) else
  found <- present (FONT_PATH cfg);
  cfg <- (if negb found then
            alt <- first_font common_fonts;
            match alt with
            | Some alt_font => ret (with_font alt_font cfg)
            | None => ret cfg
            end
          else ret cfg);
  is_dir <- present (INPUT_FOLDER cfg);
  if negb is_dir then ret (Returns (false, cfg)) else
  made <-
    (match CUSTOM_OUTPUT_PATH cfg with
     | Some (c :: p) =>
       r <- ask w (Mkdir (c :: p));
       if is_ok r then _ <- create (c :: p); ret true else ret false
     | _ => ret true
     end);
  if negb made then ret Raises else
  let cfg :=
    if negb (bool_decide (upper (IMAGE_SHEET_FORMAT cfg) ∈ ["PNG"; "JPG"; "JPEG"]))
    then with_image_format "PNG" cfg else cfg in
  ret (Returns (true, cfg)).

(** The fields [validate] leaves as they are. *)
Definition same_settings (cfg cfg' : Config) : Prop :=
  INPUT_FOLDER cfg' = INPUT_FOLDER cfg
  /\ CUSTOM_OUTPUT_PATH cfg' = CUSTOM_OUTPUT_PATH cfg
  /\ CREATE_WEBP_PREVIEW cfg' = CREATE_WEBP_PREVIEW cfg
  /\ CREATE_WEBP_PREVIEW_SHEET cfg' = CREATE_WEBP_PREVIEW_SHEET cfg
  /\ CREATE_IMAGE_PREVIEW_SHEET cfg' = CREATE_IMAGE_PREVIEW_SHEET cfg
  /\ NUM_OF_SEGMENTS cfg' = NUM_OF_SEGMENTS cfg
  /\ GRID_WIDTH cfg' = GRID_WIDTH cfg.

(** The disk of the shipped scenario with its input folder. *)
Definition scanned_disk : gset path := fresh_disk ∪ {[ INPUT_FOLDER shipped ]}.

(** Any call but the probe and the synthesis of a filler clip. *)
Definition no_filler (c : call) : Prop :=
  match c with
  | ProbeProps _ | BlackClip _ _ _ _ _ => False
  | _ => True
  end.

Definition VALID_VIDEO_EXTENSIONS : list string :=
  [".mp4"; ".mkv"; ".m2ts"; ".m4v"; ".avi"; ".ts"; ".wmv"; ".mov"].

(** [[f.lower() for f in Config.EXCLUDED_FILES if f]]. *)
Definition excluded_lower (EXCLUDED_FILES : list string) : list string :=
  map lower (filter (fun f => f <> EmptyString) EXCLUDED_FILES).

(** The test that appends an item of the folder to [video_files_found]. *)
Definition is_selected (EXCLUDED_FILES : list string) (item : path) (is_file : bool)
    : bool :=
  is_file && bool_decide (lower (suffix item) ∈ VALID_VIDEO_EXTENSIONS)
  && negb (bool_decide (lower (name item) ∈ excluded_lower EXCLUDED_FILES)).

(** [for item in items_in_folder: ...]: the items come with the answer of
    [item.is_file()]. *)
Definition scan_folder (EXCLUDED_FILES : list string) (items : list (path * bool))
    : list path :=
  fold_left (fun video_files_found (it : path * bool) =>
               if is_selected EXCLUDED_FILES it.1 it.2
               then video_files_found ++ [it.1] else video_files_found)
            items [].

Definition lower_char (c : ascii) : ascii :=
  if is_upper c then ascii_of_nat (nat_of_ascii c + 32) else c.

(** [for i, video_file in enumerate(video_files_found)]: every video comes
    with the draw that [sanitize_filename] may use for its name; the state of
    the loop is [(processed_count, success_count, failure_count)].  The
    interrupt from the keyboard is outside the model. *)
Fixpoint processing_loop (w : world) (cfg : Config) (ascii_fold : string -> string)
    (video_files_found : list (path * nat)) (counts : nat * nat * nat)
    : M (nat * nat * nat) :=
  match video_files_found with
  | [] => ret counts
  | (video_file, rnd) :: rest =>
    let '(processed_count, success_count, failure_count) := counts in
    let processed_count := (processed_count + 1)%nat in
    let processor := init ascii_fold rnd cfg video_file in
    result <- run w cfg processor;
    if result
    then processing_loop w cfg ascii_fold rest
           (processed_count, (success_count + 1)%nat, failure_count)
    else processing_loop w cfg ascii_fold rest
           (processed_count, success_count, (failure_count + 1)%nat)
  end.

(** The paths the runs of a batch may touch. *)
Definition batch_own (cfg : Config) (ascii_fold : string -> string)
    (videos : list (path * nat)) (p : path) : Prop :=
  Exists (fun v : path * nat => own (init ascii_fold v.2 cfg v.1) p) videos.

(** The number a decimal text stands for. *)
Definition value (s : string) : option nat :=
  option_map Nat.of_uint (NilEmpty.uint_of_string s).

(** * Properties *)

Open Scope Q_scope.


Lemma Qltb_true x y : Qltb x y = true <-> x < y.
Proof.
  unfold Qltb. rewrite negb_true_iff. split.
  - intros H. apply Qnot_le_lt. intros Hle. apply Qle_bool_iff in Hle. congruence.
  - intros H. destruct (Qle_bool y x) eqn:E; [|reflexivity].
    apply Qle_bool_iff in E. lra.
Qed.

Lemma Qltb_false x y : Qltb x y = false <-> y <= x.
Proof.
  unfold Qltb. rewrite negb_false_iff. apply Qle_bool_iff.
Qed.

Lemma py_round_proper x y : x == y -> py_round x = py_round y.
Proof.
  intros H. unfold py_round.
  assert (Hf : Qfloor x = Qfloor y) by (now rewrite H).
  rewrite Hf.
  assert (Hc : Qcompare (x - inject_Z (Qfloor y)) (1#2) = Qcompare (y - inject_Z (Qfloor y)) (1#2)).
  { now rewrite H. }
  now rewrite Hc.
Qed.

Lemma py_round_Z z : py_round (inject_Z z) = z.
Proof.
  unfold py_round. rewrite Qfloor_Z.
  assert (H : Qcompare (inject_Z z - inject_Z z) (1 # 2) = Lt).
  { apply (proj1 (Qlt_alt _ _)). generalize (inject_Z z). intros q. lra. }
  now rewrite H.
Qed.

(** |py_round x - x| <= 1/2 *)
Lemma py_round_near x :
  inject_Z (py_round x) - (1#2) <= x /\ x <= inject_Z (py_round x) + (1#2).
Proof.
  unfold py_round. cbv zeta.
  pose proof (Qfloor_le x) as Hlo. pose proof (Qlt_floor x) as Hhi.
  rewrite inject_Z_plus in Hhi. change (inject_Z 1) with 1 in Hhi.
  revert Hlo Hhi. generalize (Qfloor x). intros f Hlo Hhi.
  destruct (Qcompare (x - inject_Z f) (1 # 2)) eqn:E.
  - apply (proj2 (Qeq_alt _ _)) in E.
    destruct (Z.even f); [|rewrite inject_Z_plus; change (inject_Z 1) with 1];
      revert E Hlo Hhi; generalize (inject_Z f); intros q E Hlo Hhi; lra.
  - apply (proj2 (Qlt_alt _ _)) in E.
    revert E Hlo Hhi; generalize (inject_Z f); intros q E Hlo Hhi; lra.
  - apply (proj2 (Qgt_alt _ _)) in E. rewrite inject_Z_plus; change (inject_Z 1) with 1.
    revert E Hlo Hhi; generalize (inject_Z f); intros q E Hlo Hhi; lra.
Qed.

Lemma Qmake_1000 z : z # 1000 == inject_Z z / 1000.
Proof. unfold Qeq, Qdiv, Qmult, Qinv, inject_Z. simpl. lia. Qed.

(** round3 is within 1/2000 of its argument *)
Lemma round3_near x : x - (1 # 2000) <= round3 x /\ round3 x <= x + (1 # 2000).
Proof.
  unfold round3. rewrite Qmake_1000.
  pose proof (py_round_near (x * 1000)) as [H1 H2].
  revert H1 H2. generalize (inject_Z (py_round (x * 1000))). intros q H1 H2.
  split.
  - apply Qle_shift_div_l; lra.
  - apply Qle_shift_div_r; lra.
Qed.

Lemma round3_milli x : milli x -> round3 x == x.
Proof.
  intros [z Hz]. unfold round3.
  assert (H : x * 1000 == inject_Z z).
  { rewrite Hz, Qmake_1000. field. }
  rewrite (py_round_proper _ _ H), py_round_Z. symmetry. exact Hz.
Qed.

Lemma milli_plus x y : milli x -> milli y -> milli (x + y).
Proof.
  intros [a Ha] [b Hb]. exists (a + b)%Z. rewrite Ha, Hb, !Qmake_1000, inject_Z_plus. field.
Qed.

Lemma milli_minus x y : milli x -> milli y -> milli (x - y).
Proof.
  intros [a Ha] [b Hb]. exists (a - b)%Z.
  rewrite Ha, Hb, !Qmake_1000. unfold Z.sub. rewrite inject_Z_plus, inject_Z_opp. field.
Qed.

Lemma Qmem_true x l : Qmem x l = true <-> exists y, In y l /\ x == y.
Proof.
  unfold Qmem. rewrite existsb_exists. split; intros [y [Hin H]]; exists y; split; auto.
  - now apply Qeq_bool_iff.
  - now apply Qeq_bool_iff.
Qed.

Lemma Qmem_proper x y l : x == y -> Qmem x l = Qmem y l.
Proof.
  intros H. destruct (Qmem y l) eqn:E.
  - apply Qmem_true in E as [z [Hin Hz]]. apply Qmem_true. exists z. split; auto. now rewrite H.
  - destruct (Qmem x l) eqn:E'; [|reflexivity].
    apply Qmem_true in E' as [z [Hin Hz]].
    assert (Qmem y l = true) by (apply Qmem_true; exists z; split; auto; now rewrite <- H).
    congruence.
Qed.

Section Planner.
Import SetoidList.

Lemma Qmem_InA x l : Qmem x l = true <-> InA Qeq x l.
Proof.
rewrite Qmem_true, InA_alt. split; intros [y [H1 H2]]; exists y; auto.
Qed.

Lemma insert_sorted_length x l : length (insert_sorted x l) = S (length l).
Proof.
induction l as [|y l IH]; simpl; [reflexivity|].
destruct (Qle_bool x y); simpl; congruence.
Qed.

Lemma sorted_length s : length (sorted s) = length s.
Proof.
induction s as [|x s IH]; simpl; [reflexivity|].
rewrite insert_sorted_length. congruence.
Qed.

Lemma insert_sorted_Forall (P : Q -> Prop) x l :
P x -> Forall P l -> Forall P (insert_sorted x l).
Proof.
intros Hx. induction 1 as [|y l Hy Hl IH]; simpl.
- constructor; auto.
- destruct (Qle_bool x y); repeat constructor; auto.
Qed.

Lemma sorted_Forall (P : Q -> Prop) s : Forall P s -> Forall P (sorted s).
Proof.
induction 1 as [|x s Hx Hs IH]; simpl; [constructor|].
now apply insert_sorted_Forall.
Qed.

Lemma insert_sorted_InA y x l :
InA Qeq y (insert_sorted x l) -> y == x \/ InA Qeq y l.
Proof.
induction l as [|z l IH]; simpl.
- intros H. inversion H; subst; auto.
- destruct (Qle_bool x z).
  + intros H. inversion H; subst; auto.
  + intros H. inversion H; subst.
    * right. now constructor.
    * destruct (IH H1); auto.
Qed.

Lemma sorted_InA y s : InA Qeq y (sorted s) -> InA Qeq y s.
Proof.
induction s as [|x s IH]; simpl; [auto|].
intros H. apply insert_sorted_InA in H as [H|H]; [now constructor|].
constructor 2. auto.
Qed.

Lemma insert_sorted_sorted x l :
StronglySorted Qlt l -> ~ InA Qeq x l -> StronglySorted Qlt (insert_sorted x l).
Proof.
induction 1 as [|y l Hl IH Hy]; intros Hx; simpl.
- repeat constructor.
- destruct (Qle_bool x y) eqn:E.
  + apply Qle_bool_iff in E.
    assert (Hxy : x < y).
    { apply Qle_lteq in E as [E|E]; [exact E|]. exfalso. apply Hx. now constructor. }
    constructor; [now constructor|].
    constructor; [exact Hxy|].
    eapply Forall_impl; [|exact Hy]. intros a Ha. simpl in Ha. lra.
  + assert (Hyx : y < x).
    { apply Qnot_le_lt. intros H. apply Qle_bool_iff in H. congruence. }
    constructor.
    * apply IH. intros H. apply Hx. now constructor 2.
    * apply insert_sorted_Forall; assumption.
Qed.

Lemma sorted_sorted s : NoDupA Qeq s -> StronglySorted Qlt (sorted s).
Proof.
induction 1 as [|x s Hx Hs IH]; simpl; [constructor|].
apply insert_sorted_sorted; [exact IH|].
intros H. apply Hx. now apply sorted_InA.
Qed.

(** The invariant of the set [points]. *)
Definition fine (BL : list Q) (s : list Q) : Prop :=
SetoidList.NoDupA Qeq s /\ Forall (fun p => 0 < p /\ p < 1) s /\
Forall (fun p => Qmem p BL = false) s.

Lemma set_add_fine BL x s :
fine BL s -> 0 < x -> x < 1 -> Qmem x BL = false -> fine BL (set_add x s).
Proof.
intros (Hnd & Hr & Hb) H0 H1 Hx. unfold set_add.
destruct (Qmem x s) eqn:E; [repeat split; assumption|].
repeat split.
- apply NoDupA_app; [apply Q_Setoid|assumption|repeat constructor; inversion 1|].
  intros y Hy Hy'. inversion Hy' as [? ? Heq|? ? Hnil]; subst; [|inversion Hnil].
  assert (Qmem x s = true); [|congruence].
  apply Qmem_InA. rewrite <- Heq. exact Hy.
- apply Forall_app; split; [assumption|]. repeat constructor; assumption.
- apply Forall_app; split; [assumption|]. repeat constructor; assumption.
Qed.

Lemma set_add_length x s : (length (set_add x s) <= S (length s))%nat.
Proof.
unfold set_add. destruct (Qmem x s); [lia|]. rewrite length_app. simpl. lia.
Qed.

Lemma py_max_cases a b : (py_max a b = a /\ b <= a) \/ (py_max a b = b /\ a < b).
Proof.
unfold py_max. destruct (Qltb a b) eqn:E.
- right. split; [reflexivity|]. now apply Qltb_true.
- left. split; [reflexivity|]. now apply Qltb_false.
Qed.

Lemma py_min_cases a b : (py_min a b = a /\ a <= b) \/ (py_min a b = b /\ b < a).
Proof.
unfold py_min. destruct (Qltb b a) eqn:E.
- right. split; [reflexivity|]. now apply Qltb_true.
- left. split; [reflexivity|]. now apply Qltb_false.
Qed.

Section InnerPoints.
Variable BL : list Q.
Variables cs ce step : Q.
Hypothesis Hcs : 0 < cs.
Hypothesis Hce : ce < 1.
Hypothesis Hgap : cs + 0.001 <= ce.

Lemma add_inner_point_fine points i :
  fine BL points -> fine BL (add_inner_point BL cs ce step points i).
Proof.
  intros H. unfold add_inner_point.
  set (p := round3 _).
  destruct (Qmem (py_max (cs + 0.001) (py_min (ce - 0.001) p)) BL) eqn:E; [exact H|].
  apply set_add_fine; [exact H| | |exact E].
  - destruct (py_max_cases (cs + 0.001) (py_min (ce - 0.001) p)) as [[-> _]|[-> Hlt]]; lra.
  - destruct (py_max_cases (cs + 0.001) (py_min (ce - 0.001) p)) as [[-> _]|[-> Hlt]]; [lra|].
    destruct (py_min_cases (ce - 0.001) p) as [[-> _]|[-> Hlt']]; lra.
Qed.

Lemma add_inner_point_length points i :
  (length (add_inner_point BL cs ce step points i) <= S (length points))%nat.
Proof.
  unfold add_inner_point. destruct (Qmem _ BL); [lia|]. apply set_add_length.
Qed.

Lemma inner_points_fine l points :
  fine BL points ->
  fine BL (fold_left (add_inner_point BL cs ce step) l points).
Proof.
  revert points. induction l as [|i l IH]; intros points H; simpl; [exact H|].
  apply IH. now apply add_inner_point_fine.
Qed.

Lemma inner_points_length l points :
  (length (fold_left (add_inner_point BL cs ce step) l points)
   <= length points + length l)%nat.
Proof.
  revert points. induction l as [|i l IH]; intros points; simpl; [lia|].
  etransitivity; [apply IH|]. pose proof (add_inner_point_length points i). lia.
Qed.
End InnerPoints.

Lemma milli_lit z : milli (z # 1000).
Proof. exists z. reflexivity. Qed.

Lemma milli_001 : milli 0.01.
Proof. exists 10%Z. reflexivity. Qed.

Lemma milli_0005 : milli 0.005.
Proof. exists 5%Z. reflexivity. Qed.

Lemma milli_gap x y : milli x -> milli y -> x < y -> x + 0.001 <= y.
Proof.
intros [a Ha] [b Hb] H. rewrite Ha, Hb in *.
unfold Qlt, Qle, Qplus in *. simpl in *. lia.
Qed.

Section Loop.
Variable N : nat.
Variable BL : list Q.
Hypothesis HN : (2 <= N)%nat.

Lemma finish_spec points :
  fine BL points -> length points = N -> valid_split N BL (sorted points).
Proof.
  intros (Hnd & Hr & Hb) Hlen. repeat split.
  - now rewrite sorted_length.
  - now apply sorted_sorted.
  - now apply sorted_Forall.
  - now apply sorted_Forall.
Qed.

Lemma cut_points_loop_spec retries : forall start_pct end_pct,
  milli start_pct -> milli end_pct ->
  0 < start_pct -> start_pct < end_pct -> end_pct < 1 ->
  match cut_points_loop N BL retries start_pct end_pct with
  | Falls l => l = [] \/ valid_split N BL l
  | Exits r => r = []
  | Throws => False
  end.
Proof.
  induction retries as [|retries IH]; intros s e Hms Hme Hs Hse He;
    cbn [cut_points_loop].
  { now left. }
  assert (HN0 : (0 <? N)%nat = true) by (apply Nat.ltb_lt; lia).
  assert (HN2 : (2 <=? N)%nat = true) by (apply Nat.leb_le; lia).
  rewrite HN0, HN2. simpl negb. cbv iota. cbv zeta.
  pose proof (round3_milli _ Hms) as Hrs. pose proof (round3_milli _ Hme) as Hre.
  (* the nudged ranges of the two retry branches *)
  assert (Hnudge : forall d, milli d -> 0 < d ->
            match (if Qle_bool (e - d) (s + d) then Exits []
                   else cut_points_loop N BL retries (s + d) (e - d)) with
            | Falls l => l = [] \/ valid_split N BL l
            | Exits r => r = []
            | Throws => False
            end).
  { intros d Hmd Hd. destruct (Qle_bool (e - d) (s + d)) eqn:E; [reflexivity|].
    apply IH.
    - now apply milli_plus.
    - now apply milli_minus.
    - lra.
    - apply Qnot_le_lt. intros H. apply Qle_bool_iff in H. congruence.
    - lra. }
  destruct (Qmem s BL) eqn:Es.
  { (* start blacklisted: at most one boundary *)
    assert (Hlen : (length (if Qmem e BL then [] else set_add (round3 e) []) <? 2)%nat = true).
    { destruct (Qmem e BL); reflexivity. }
    rewrite Hlen. simpl andb. cbv iota.
    apply (Hnudge 0.01); [apply milli_001|reflexivity]. }
  destruct (Qmem e BL) eqn:Ee.
  { simpl. apply (Hnudge 0.01); [apply milli_001|reflexivity]. }
  (* both boundaries are kept *)
  assert (Hne : Qmem (round3 e) [round3 s] = false).
  { destruct (Qmem (round3 e) [round3 s]) eqn:E; [|reflexivity].
    apply Qmem_true in E as [y [[<-|[]] Hy]]. rewrite Hrs, Hre in Hy. lra. }
  assert (Hpts : set_add (round3 e) (set_add (round3 s) []) = [round3 s; round3 e]).
  { change (set_add (round3 s) []) with [round3 s].
    unfold set_add. now rewrite Hne. }
  rewrite Hpts. simpl length. simpl Nat.ltb. simpl andb. cbv iota.
  assert (Hmin : set_min [round3 s; round3 e] = Some (round3 s)).
  { simpl. unfold py_min. replace (Qltb (round3 e) (round3 s)) with false; [reflexivity|].
    symmetry. apply Qltb_false. rewrite Hrs, Hre. lra. }
  assert (Hmax : set_max [round3 s; round3 e] = Some (round3 e)).
  { simpl. unfold py_max. replace (Qltb (round3 s) (round3 e)) with true; [reflexivity|].
    symmetry. apply Qltb_true. rewrite Hrs, Hre. lra. }
  rewrite Hmin, Hmax.
  assert (Hfine0 : fine BL [round3 s; round3 e]).
  { repeat split.
    - constructor; [|repeat constructor; inversion 1].
      intros H. inversion H as [? ? Heq|? ? Hnil]; subst; [|inversion Hnil].
      rewrite Hrs, Hre in Heq. lra.
    - repeat constructor; rewrite ?Hrs, ?Hre; lra.
    - repeat constructor.
      + now rewrite (Qmem_proper _ _ _ Hrs).
      + now rewrite (Qmem_proper _ _ _ Hre). }
  assert (Hfinal : forall points, fine BL points -> (length points <= N)%nat ->
            match (if (length points <? N)%nat
                   then if Qle_bool (e - 0.005) (s + 0.005) then Exits []
                        else cut_points_loop N BL retries (s + 0.005) (e - 0.005)
                   else Falls (sorted points)) with
            | Falls l => l = [] \/ valid_split N BL l
            | Exits r => r = []
            | Throws => False
            end).
  { intros points Hf Hle. destruct (length points <? N)%nat eqn:E.
    - apply (Hnudge 0.005); [apply milli_0005|reflexivity].
    - right. apply finish_spec; [exact Hf|]. apply Nat.ltb_ge in E. lia. }
  destruct (0 <? Z.of_nat N - Z.of_nat 2)%Z eqn:Einner.
  - assert (Heq : Qeq_bool (round3 e) (round3 s) = false).
    { destruct (Qeq_bool (round3 e) (round3 s)) eqn:E; [|reflexivity].
      apply Qeq_bool_iff in E. rewrite Hrs, Hre in E. lra. }
    rewrite Heq. apply Hfinal.
    + apply inner_points_fine; [rewrite Hrs; lra|rewrite Hre; lra| |exact Hfine0].
      rewrite Hrs, Hre. now apply milli_gap.
    + etransitivity; [apply inner_points_length|].
      rewrite length_seq. simpl length. lia.
  - apply Hfinal; [exact Hfine0|simpl; lia].
Qed.
End Loop.

Lemma plan_cut_points_spec N BL D :
(2 <= N)%nat ->
match plan_cut_points N BL D with
| Falls l => valid_split N BL l
| Exits r => r = []
| Throws => False
end.
Proof.
intros HN. unfold plan_cut_points.
destruct (negb (Qltb 0 D)); [reflexivity|].
pose proof (cut_points_loop_spec N BL HN 2 0.05 0.98) as H.
assert (Hm1 : milli 0.05) by (exists 50%Z; reflexivity).
assert (Hm2 : milli 0.98) by (exists 980%Z; reflexivity).
specialize (H Hm1 Hm2 eq_refl eq_refl eq_refl).
destruct (cut_points_loop N BL 2 0.05 0.98) as [l|r|]; [|exact H|exact H].
destruct (length l <? N)%nat eqn:E; [reflexivity|].
destruct H as [->|H]; [|exact H].
apply Nat.ltb_ge in E. simpl in E. lia.
Qed.

Lemma plan_sixteen D :
0 < D -> plan_cut_points 16 [] D = Falls sixteen_points.
Proof.
intros HD. unfold plan_cut_points.
replace (Qltb 0 D) with true by (symmetry; now apply Qltb_true).
reflexivity.
Qed.

End Planner.



(** What the planner returns for one segment and an empty blacklist. *)
Example one_segment_two_points :
  (_generate_cut_points kind_world (with_segment_count 1 shipped) two_minutes
     (fresh fresh_disk)).1 = Returns [0.050; 0.980].
Proof. reflexivity. Qed.



Close Scope Q_scope.


(** * Footprints of the pipeline *)

Lemma bind_eq {A B : Type} (m : M A) (k : A -> M B) (st : state) :
  bind m k st = k (m st).1 (m st).2.
Proof. unfold bind. now destruct (m st). Qed.

Section Footprints.
Context {P : call -> Prop} {Q : path -> Prop}.

Lemma footprint_ret {A : Type} (a : A) : footprint P Q (ret a).
Proof.
  intros st. split; [|reflexivity]. exists []. split; [now rewrite app_nil_r|constructor].
Qed.

Lemma footprint_bind {A B : Type} (m : M A) (k : A -> M B) :
  footprint P Q m -> (forall a, footprint P Q (k a)) -> footprint P Q (bind m k).
Proof.
  intros Hm Hk st. rewrite bind_eq.
  destruct (Hm st) as [(new1 & Hl1 & Hf1) Hfs1].
  destruct (Hk (m st).1 (m st).2) as [(new2 & Hl2 & Hf2) Hfs2].
  split.
  - exists (new1 ++ new2). split.
    + now rewrite Hl2, Hl1, app_assoc.
    + now apply Forall_app.
  - intros p Hp. now rewrite (Hfs2 p Hp), (Hfs1 p Hp).
Qed.

Lemma footprint_ask (w : world) (c : call) : P c -> footprint P Q (ask w c).
Proof.
  intros Hc st. split; [|reflexivity].
  exists [(c, w (log st) c)]. split; [reflexivity|]. now repeat constructor.
Qed.

Lemma footprint_present (p : path) : footprint P Q (present p).
Proof.
  intros st. split; [|reflexivity]. exists []. split; [now rewrite app_nil_r|constructor].
Qed.

Lemma footprint_create (p : path) : Q p -> footprint P Q (create p).
Proof.
  intros Hp st. split.
  - exists []. split; [now rewrite app_nil_r|constructor].
  - intros q Hq. cbn. rewrite elem_of_union, elem_of_singleton.
    split; [intros [->|H]; [contradiction|exact H]|now right].
Qed.

Lemma footprint_discard (p : path) : Q p -> footprint P Q (discard p).
Proof.
  intros Hp st. split.
  - exists []. split; [now rewrite app_nil_r|constructor].
  - intros q Hq. cbn. rewrite elem_of_difference, elem_of_singleton.
    split; [now intros [H _]|]. intros H. split; [exact H|]. now intros ->.
Qed.

Lemma footprint_discard_tree (d : path) :
  (forall p, d `prefix_of` p -> Q p) -> footprint P Q (discard_tree d).
Proof.
  intros Hd st. split.
  - exists []. split; [now rewrite app_nil_r|constructor].
  - intros q Hq. cbn. rewrite elem_of_filter.
    split; [now intros [_ H]|]. intros H. split; [|exact H]. intros Hpre. apply Hq. now apply Hd.
Qed.
End Footprints.

Lemma footprint_bind_yields {A B : Type} P Q (m : M A) (k : A -> M B) (R : A -> Prop) :
  footprint P Q m -> yields m R -> (forall a, R a -> footprint P Q (k a)) ->
  footprint P Q (bind m k).
Proof.
  intros Hm HR Hk st. rewrite bind_eq.
  destruct (Hm st) as [(new1 & Hl1 & Hf1) Hfs1].
  destruct (Hk (m st).1 (HR st) (m st).2) as [(new2 & Hl2 & Hf2) Hfs2].
  split.
  - exists (new1 ++ new2). split.
    + now rewrite Hl2, Hl1, app_assoc.
    + now apply Forall_app.
  - intros p Hp. now rewrite (Hfs2 p Hp), (Hfs1 p Hp).
Qed.

Lemma footprint_weaken {A : Type} (P P' : call -> Prop) (Q Q' : path -> Prop) (m : M A) :
  (forall c, P c -> P' c) -> (forall p, Q p -> Q' p) ->
  footprint P Q m -> footprint P' Q' m.
Proof.
  intros HP HQ Hm st. destruct (Hm st) as [(new & Hl & Hf) Hfs]. split.
  - exists new. split; [exact Hl|]. eapply Forall_impl; [exact Hf|]. intros e. apply HP.
  - intros p Hp. apply Hfs. intros H. apply Hp. now apply HQ.
Qed.

Create HintDb fp discriminated.

Ltac footprint_step :=
  first
    [ apply footprint_ret
    | apply footprint_present
    | apply footprint_discard; solve [auto with fp]
    | apply footprint_create; solve [auto with fp]
    | apply footprint_ask; cbn; tauto
    | solve [auto with fp]
    | apply footprint_bind; [|intros ?]
    | match goal with
      | |- footprint _ _ (if ?b then _ else _) => destruct b
      | |- footprint _ _ (match ?x with _ => _ end) => destruct x
      end ].

Ltac fp := repeat footprint_step.

Lemma inside_temp self n : inside self (temp_dir self // n).
Proof. right. now exists [n]. Qed.

Lemma inside_output self n : inside self (output_dir self // n).
Proof. left. now exists [n]. Qed.

Lemma inside_artifact cfg self a : inside self (artifact_path cfg self a).
Proof. destruct a; apply inside_output. Qed.

Lemma inside_output_dir self : inside self (output_dir self).
Proof. left. reflexivity. Qed.

Lemma inside_temp_dir self : inside self (temp_dir self).
Proof. right. reflexivity. Qed.

Lemma inside_target self : inside self (target_video_path self).
Proof. apply inside_output. Qed.

Lemma inside_temp_tree self p : temp_dir self `prefix_of` p -> inside self p.
Proof. now right. Qed.

#[global] Hint Resolve inside_temp inside_output inside_artifact inside_output_dir
  inside_temp_dir inside_target : fp.

Lemma with_name_child d n m : with_name (d // n) m = d // m.
Proof. unfold with_name, child. now rewrite removelast_last. Qed.

Lemma name_child d n : name (d // n) = n.
Proof. unfold name, child. apply last_last. Qed.

Lemma helper_builder c : helper_calls c -> builder_calls c.
Proof. destruct c; cbn; tauto. Qed.

Section Methods.
Variable w : world.
Variable cfg : Config.
Variable self : VideoProcessor.

Abbreviation Q := (inside self).

Lemma delete_existing_footprint files :
  Forall (fun f => Q f.2) files ->
  footprint check_calls Q (delete_existing w files).
Proof.
  induction 1 as [|[nm p] files Hp Hf IH]; cbn [delete_existing]; fp.
Qed.

Lemma prompt_and_delete_footprint files :
  Forall (fun f => Q f.2) files ->
  footprint check_calls Q (prompt_and_delete w files).
Proof.
  induction 1 as [|[nm p] files Hp Hf IH]; cbn [prompt_and_delete]; fp.
Qed.

(** What the scan finds, item by item. *)
Lemma scan_deletes found items : forall s,
  Forall (fun it => Q it.1.2) items ->
  Forall (fun f => Q f.2) (files_to_potentially_delete s) ->
  Forall (fun f => Q f.2)
    (files_to_potentially_delete (foldl (scan_item self found) s items)).
Proof.
  induction items as [|[[nm p] flag] items IH]; intros s Hi Hs; cbn [foldl]; [exact Hs|].
  inversion Hi as [|? ? Hp Hi']; subst. apply IH; [exact Hi'|].
  unfold scan_item.
  destruct (found p), (bool_decide (nm = "Original Video (Moved)")), flag;
    cbn; try exact Hs.
  apply Forall_app. split; [exact Hs|]. constructor; [exact Hp|constructor].
Qed.

Lemma output_files_inside :
  Forall (fun it : string * path * bool => Q it.1.2) (output_files_config cfg self).
Proof.
  unfold output_files_config.
  repeat (apply Forall_cons; split; [cbn; auto with fp|]). constructor.
Qed.

Lemma check_existing_footprint :
  footprint check_calls Q (_check_existing_outputs w cfg self).
Proof.
  intros st. unfold _check_existing_outputs.
  set (s := foldl _ _ _).
  assert (Hdel : Forall (fun f => Q f.2) (files_to_potentially_delete s)).
  { apply scan_deletes; [apply output_files_inside|constructor]. }
  destruct (is_nil (required_files_missing s) && original_video_in_target s
            && negb (IGNORE_EXISTING cfg)).
  { apply (footprint_ret (false, video_path s)). }
  destruct (IGNORE_EXISTING cfg).
  { apply (footprint_bind (P:=check_calls) (Q:=Q));
      [now apply delete_existing_footprint|].
    intros; apply footprint_ret. }
  destruct (negb (is_nil (required_files_missing s))
            || negb (original_video_in_target s)).
  { apply (footprint_bind (P:=check_calls) (Q:=Q));
      [now apply prompt_and_delete_footprint|].
    intros; apply footprint_ret. }
  apply (footprint_ret (false, video_path s)).
Qed.

Lemma get_metadata_footprint v :
  footprint probe_calls Q (_get_metadata w v).
Proof. unfold _get_metadata. fp. Qed.

Lemma generate_cut_points_footprint md :
  footprint plan_calls Q (_generate_cut_points w cfg md).
Proof. unfold _generate_cut_points. fp. Qed.

Lemma verify_segment_footprint seg :
  footprint segment_calls Q (_verify_segment w seg).
Proof. unfold _verify_segment. fp. Qed.

Lemma overlay_timestamp_footprint seg start :
  Q (overlay_output seg) ->
  footprint segment_calls Q (_overlay_timestamp w cfg seg start).
Proof. intros H. unfold _overlay_timestamp. fp. Qed.

Lemma segment_file_overlay i start :
  overlay_output (segment_file self i start) =
  temp_dir self // ("ts_" +:+ stem (segment_file self i start)
                    +:+ suffix (segment_file self i start)).
Proof. unfold overlay_output, segment_file. now rewrite with_name_child. Qed.

Lemma inside_overlay i start : Q (overlay_output (segment_file self i start)).
Proof. rewrite segment_file_overlay. apply inside_temp. Qed.

Lemma inside_segment i start : Q (segment_file self i start).
Proof. apply inside_temp. Qed.

Lemma inside_stale_overlay i start :
  Q (with_name (segment_file self i start)
       ("ts_" +:+ name (segment_file self i start))).
Proof. unfold segment_file. rewrite with_name_child. apply inside_temp. Qed.

#[local] Hint Resolve verify_segment_footprint overlay_timestamp_footprint
  inside_overlay inside_segment inside_stale_overlay : fp.

Lemma segment_step_footprint v md acc i start :
  footprint segment_calls Q (segment_step w cfg self v md acc i start).
Proof. unfold segment_step. fp. Qed.

#[local] Hint Resolve segment_step_footprint : fp.

Lemma segments_loop_footprint v md cuts : forall i acc,
  footprint segment_calls Q (segments_loop w cfg self v md i cuts acc).
Proof.
  induction cuts as [|s cuts IH]; intros i acc; cbn [segments_loop]; fp.
Qed.

#[local] Hint Resolve segments_loop_footprint : fp.

Lemma generate_segments_footprint v md cuts :
  footprint segment_calls Q (_generate_segments w cfg self v md cuts).
Proof. unfold _generate_segments. fp. Qed.

(** The helpers of the builders. *)
Lemma write_concat_file_footprint segs n :
  footprint helper_calls Q (_write_concat_file w self segs n).
Proof. unfold _write_concat_file. fp. Qed.

Lemma run_ffmpeg_concat_footprint l out :
  Q out -> footprint helper_calls Q (_run_ffmpeg_concat w l out).
Proof. intros H. unfold _run_ffmpeg_concat. fp. Qed.

Lemma create_info_image_footprint md :
  footprint helper_calls Q (_create_info_image w cfg self md).
Proof. unfold _create_info_image. fp. Qed.

Lemma stack_videos_footprint md inputs out ax :
  Q out -> footprint helper_calls Q (_stack_videos w cfg md inputs out ax).
Proof.
  intros H. unfold _stack_videos.
  destruct inputs as [|first [|second rest]]; fp.
  all: destruct a; fp.
Qed.

#[local] Hint Resolve write_concat_file_footprint run_ffmpeg_concat_footprint
  create_info_image_footprint stack_videos_footprint : fp.

Lemma sheet_row_footprint md segs hs r :
  footprint helper_calls Q (sheet_row w cfg self md segs hs r).
Proof. unfold sheet_row. fp. Qed.

#[local] Hint Resolve sheet_row_footprint : fp.

Lemma sheet_rows_footprint md segs rows : forall hs,
  footprint helper_calls Q (sheet_rows w cfg self md segs rows hs).
Proof.
  induction rows as [|r rows IH]; intros hs; cbn [sheet_rows]; fp.
Qed.

Lemma frame_step_footprint frames seg :
  footprint helper_calls Q (frame_step w cfg self frames seg).
Proof. unfold frame_step, frame_file. fp. Qed.

#[local] Hint Resolve sheet_rows_footprint frame_step_footprint : fp.

Lemma frames_loop_footprint segs : forall frames,
  footprint helper_calls Q (frames_loop w cfg self segs frames).
Proof.
  induction segs as [|seg segs IH]; intros frames; cbn [frames_loop]; fp.
Qed.

Lemma paste_step_footprint ih fw fh canvas i frame :
  footprint helper_calls Q (paste_step w cfg ih fw fh canvas i frame).
Proof. unfold paste_step. fp. Qed.

#[local] Hint Resolve frames_loop_footprint paste_step_footprint : fp.

Lemma paste_loop_footprint ih fw fh frames : forall i canvas,
  footprint helper_calls Q (paste_loop w cfg ih fw fh i frames canvas).
Proof.
  induction frames as [|f frames IH]; intros i canvas; cbn [paste_loop]; fp.
Qed.

#[local] Hint Resolve paste_loop_footprint : fp.
End Methods.

#[global] Hint Resolve delete_existing_footprint prompt_and_delete_footprint
  check_existing_footprint get_metadata_footprint generate_cut_points_footprint
  verify_segment_footprint overlay_timestamp_footprint segment_step_footprint
  segments_loop_footprint generate_segments_footprint write_concat_file_footprint
  run_ffmpeg_concat_footprint create_info_image_footprint stack_videos_footprint
  sheet_row_footprint sheet_rows_footprint frame_step_footprint frames_loop_footprint
  paste_step_footprint paste_loop_footprint inside_overlay inside_segment
  inside_stale_overlay : fp.



(** * What the log shows of attempts and products *)

Lemma attempts_app l1 l2 : attempts (l1 ++ l2) = attempts l1 ++ attempts l2.
Proof. apply omap_app. Qed.

Lemma products_app l1 l2 : products (l1 ++ l2) = products l1 ++ products l2.
Proof. apply omap_app. Qed.

Lemma attempts_cons e l :
  attempts (e :: l) =
  match attempt_of e with Some a => a :: attempts l | None => attempts l end.
Proof. reflexivity. Qed.

Lemma products_cons e l :
  products (e :: l) =
  match product_of e with Some a => a :: products l | None => products l end.
Proof. reflexivity. Qed.

Lemma quiet_entries new :
  Forall (fun e : entry => quiet e.1) new -> attempts new = [] /\ products new = [].
Proof.
  induction 1 as [|[c r] new Hq Hf [IHa IHp]]; [now split|].
  cbn in Hq. destruct (Hq r) as [Ha Hp].
  rewrite attempts_cons, products_cons, Ha, Hp. now split.
Qed.

Lemma check_calls_quiet c : check_calls c -> quiet c.
Proof. destruct c; cbn; try tauto; intros _ r; now destruct r. Qed.

Lemma probe_calls_quiet c : probe_calls c -> quiet c.
Proof. destruct c; cbn; try tauto; intros _ r; now destruct r. Qed.

Lemma plan_calls_quiet c : plan_calls c -> quiet c.
Proof. destruct c; cbn; try tauto; intros _ r; now destruct r. Qed.

Lemma segment_calls_quiet c : segment_calls c -> quiet c.
Proof. destruct c; cbn; try tauto; intros _ r; now destruct r. Qed.

Lemma helper_calls_quiet c : helper_calls c -> quiet c.
Proof. destruct c; cbn; try tauto; intros _ r; now destruct r. Qed.

Lemma footprint_silent {A : Type} P Q (m : M A) :
  (forall c, P c -> quiet c) -> footprint P Q m -> silent m.
Proof.
  intros HP Hm st. destruct (Hm st) as [(new & Hl & Hf) _].
  exists new. split; [exact Hl|]. apply quiet_entries.
  eapply Forall_impl; [exact Hf|]. intros e. apply HP.
Qed.

Lemma silent_ret {A : Type} (a : A) : silent (ret a).
Proof. intros st. exists []. now rewrite app_nil_r. Qed.

Lemma silent_bind {A B : Type} (m : M A) (k : A -> M B) :
  silent m -> (forall a, silent (k a)) -> silent (bind m k).
Proof.
  intros Hm Hk st. rewrite bind_eq.
  destruct (Hm st) as (n1 & Hl1 & Ha1 & Hp1).
  destruct (Hk (m st).1 (m st).2) as (n2 & Hl2 & Ha2 & Hp2).
  exists (n1 ++ n2). rewrite Hl2, Hl1, app_assoc, attempts_app, products_app, Ha1, Ha2, Hp1, Hp2.
  now repeat split.
Qed.

Lemma silent_present p : silent (present p).
Proof. intros st. exists []. now rewrite app_nil_r. Qed.

Lemma silent_create p : silent (create p).
Proof. intros st. exists []. now rewrite app_nil_r. Qed.

Lemma silent_discard p : silent (discard p).
Proof. intros st. exists []. now rewrite app_nil_r. Qed.

Lemma silent_ask w c : quiet c -> silent (ask w c).
Proof.
  intros Hq st. exists [(c, w (log st) c)]. split; [reflexivity|].
  apply quiet_entries. constructor; [exact Hq|constructor].
Qed.

Lemma builds_ret_false a : builds a (ret false).
Proof. intros st. exists []. now rewrite app_nil_r. Qed.

Lemma builds_bind {A : Type} a (m : M A) (k : A -> M bool) :
  silent m -> (forall x, builds a (k x)) -> builds a (bind m k).
Proof.
  intros Hm Hk st. rewrite bind_eq.
  destruct (Hm st) as (n1 & Hl1 & Ha1 & Hp1).
  destruct (Hk (m st).1 (m st).2) as (n2 & Hl2 & Ha2 & Hp2).
  exists (n1 ++ n2). rewrite Hl2, Hl1, app_assoc, attempts_app, products_app, Ha1, Ha2, Hp1, Hp2.
  now repeat split.
Qed.

(** The last call of a builder. *)
Lemma builds_final a w c (yes no : M bool) :
  (forall r, attempt_of (c, r) = None) ->
  (forall r, product_of (c, r) = if is_ok r then Some a else None) ->
  (forall st, (yes st).1 = true /\ log (yes st).2 = log st) ->
  (forall st, (no st).1 = false /\ log (no st).2 = log st) ->
  builds a (bind (ask w c) (fun r => if is_ok r then yes else no)).
Proof.
  intros Ha Hp Hyes Hno st. rewrite bind_eq. cbn [ask fst snd].
  set (r := w (log st) c). set (st1 := {| fs := fs st; log := log st ++ [(c, r)] |}).
  exists [(c, r)]. rewrite attempts_cons, products_cons, Ha, Hp.
  destruct (is_ok r).
  - destruct (Hyes st1) as [-> ->]. now repeat split.
  - destruct (Hno st1) as [-> ->]. now repeat split.
Qed.

Ltac silence :=
  repeat first
    [ apply silent_ret
    | apply silent_present
    | apply silent_create
    | apply silent_discard
    | apply silent_ask; solve [let r := fresh in intros r; now destruct r]
    | solve [eauto using footprint_silent, helper_calls_quiet with fp]
    | apply silent_bind; [|intros ?]
    | match goal with
      | |- silent (if ?b then _ else _) => destruct b
      | |- silent (match ?x with _ => _ end) => destruct x
      end ].

Section Builders.
Variable w : world.
Variable cfg : Config.
Variable self : VideoProcessor.

Lemma helper_silent {A : Type} (m : M A) :
  footprint helper_calls (inside self) m -> silent m.
Proof. apply footprint_silent, helper_calls_quiet. Qed.

Ltac body :=
  repeat first
    [ apply builds_ret_false
    | apply builds_final;
      [ let r := fresh in intros r; now destruct r
      | let r := fresh in intros r; now destruct r
      | now intros ? | now intros ? ]
    | apply builds_bind;
      [ first [ apply helper_silent; solve [auto with fp]
              | solve [silence] ] | intros ? ]
    | match goal with
      | |- builds _ (if ?b then _ else _) => destruct b
      | |- builds _ (match ?x with _ => _ end) => destruct x
      end
    | progress cbv zeta ].

(** The opening line of a builder followed by its body. *)
Lemma opens_then {B : Type} a (m : M B) st :
  exists e,
    bind (ask w (Info (opening_line a))) (fun _ => m) st
    = m {| fs := fs st; log := log st ++ [e] |}
    /\ attempt_of e = Some a /\ product_of e = None.
Proof.
  exists (Info (opening_line a), w (log st) (Info (opening_line a))).
  split; [reflexivity|]. split; [now destruct a|reflexivity].
Qed.

Lemma opens_then_builds a (m : M bool) :
  builds a m ->
  forall st, exists new,
    log (bind (ask w (Info (opening_line a))) (fun _ => m) st).2 = log st ++ new /\
    attempts new = [a] /\
    products new =
      if (bind (ask w (Info (opening_line a))) (fun _ => m) st).1 then [a] else [].
Proof.
  intros Hm st. destruct (opens_then a m st) as (e & -> & He & Hp).
  destruct (Hm {| fs := fs st; log := log st ++ [e] |}) as (n & Hl & Ha & Hn).
  exists (e :: n). cbn [log] in Hl. rewrite Hl, <- app_assoc. split; [reflexivity|].
  now rewrite attempts_cons, products_cons, He, Hp, Ha, Hn.
Qed.

Lemma generate_webp_preview_log md segs st :
  exists new,
    log (_generate_webp_preview w cfg self md segs st).2 = log st ++ new /\
    attempts new = [WebpPreview] /\
    products new =
      if (_generate_webp_preview w cfg self md segs st).1 then [WebpPreview] else [].
Proof. apply (opens_then_builds WebpPreview). body. Qed.

Lemma generate_webp_preview_sheet_log md segs st :
  exists new,
    log (_generate_webp_preview_sheet w cfg self md segs st).2 = log st ++ new /\
    attempts new = [WebpSheet] /\
    products new =
      if (_generate_webp_preview_sheet w cfg self md segs st).1 then [WebpSheet] else [].
Proof. apply (opens_then_builds WebpSheet). body. Qed.

Lemma extract_segment_frames_log segs st :
  exists new,
    log (_extract_segment_frames w cfg self segs st).2 = log st ++ new /\
    attempts new = [ImageSheet] /\ products new = [].
Proof.
  change (_extract_segment_frames w cfg self segs st)
    with (bind (ask w (Info (opening_line ImageSheet)))
            (fun _ => if is_nil segs then ret [] else frames_loop w cfg self segs [])
            st).
  destruct (opens_then ImageSheet
              (if is_nil segs then ret [] else frames_loop w cfg self segs []) st)
    as (e & -> & He & Hp).
  assert (Hs : silent (if is_nil segs then ret [] else frames_loop w cfg self segs []))
    by silence.
  destruct (Hs {| fs := fs st; log := log st ++ [e] |}) as (n & Hl & Ha & Hn).
  exists (e :: n). cbn [log] in Hl. rewrite Hl, <- app_assoc. split; [reflexivity|].
  now rewrite attempts_cons, products_cons, He, Hp, Ha, Hn.
Qed.

Lemma generate_image_preview_sheet_builds md frames :
  builds ImageSheet (_generate_image_preview_sheet w cfg self md frames).
Proof. unfold _generate_image_preview_sheet. body. Qed.
End Builders.



(** * Segment extraction *)

Lemma verified_segments_app l1 l2 :
  verified_segments (l1 ++ l2) = (verified_segments l1 + verified_segments l2)%nat.
Proof. unfold verified_segments. now rewrite filter_app, length_app. Qed.

Lemma verified_segments_cons e l :
  verified_segments (e :: l) =
  ((if is_verification e then 1 else 0) + verified_segments l)%nat.
Proof.
  unfold verified_segments. rewrite filter_cons.
  destruct (is_verification e); [|case_decide; [congruence|reflexivity]].
  case_decide; [reflexivity|congruence].
Qed.

Lemma counts_ret {A : Type} (a : A) (R : A -> nat -> Prop) :
  R a 0%nat -> counts (ret a) R.
Proof. intros H st. exists []. now rewrite app_nil_r. Qed.

Lemma counts_bind {A B : Type} (m : M A) (k : A -> M B) R1 (R : B -> nat -> Prop) :
  counts m R1 ->
  (forall a n1, R1 a n1 -> counts (k a) (fun b n2 => R b (n1 + n2)%nat)) ->
  counts (bind m k) R.
Proof.
  intros Hm Hk st. rewrite bind_eq.
  destruct (Hm st) as (n1 & Hl1 & H1).
  destruct (Hk _ _ H1 (m st).2) as (n2 & Hl2 & H2).
  exists (n1 ++ n2). rewrite Hl2, Hl1, app_assoc, verified_segments_app. now split.
Qed.

Lemma counts_impl {A : Type} (m : M A) (R R' : A -> nat -> Prop) :
  (forall a n, R a n -> R' a n) -> counts m R -> counts m R'.
Proof.
  intros HR Hm st. destruct (Hm st) as (new & Hl & H). exists new. auto.
Qed.

Lemma counts_ask w c :
  counts (ask w c) (fun r n => n = if is_verification (c, r) then 1%nat else 0%nat).
Proof.
  intros st. exists [(c, w (log st) c)]. split; [reflexivity|].
  cbn [ask fst]. rewrite verified_segments_cons. cbn. lia.
Qed.

Lemma counts_still {A : Type} (m : M A) :
  (forall st, log (m st).2 = log st) -> counts m (fun _ n => n = 0%nat).
Proof. intros H st. exists []. now rewrite H, app_nil_r. Qed.

Lemma unverifying_entries new :
  Forall (fun e : entry => unverifying e.1) new -> verified_segments new = 0%nat.
Proof.
  induction 1 as [|[c r] new Hc Hf IH]; [reflexivity|].
  rewrite verified_segments_cons, IH. destruct c; cbn in *; try reflexivity. destruct Hc.
Qed.

Lemma footprint_counts {A : Type} P Q (m : M A) :
  (forall c, P c -> unverifying c) -> footprint P Q m -> counts m (fun _ n => n = 0%nat).
Proof.
  intros HP Hm st. destruct (Hm st) as [(new & Hl & Hf) _].
  exists new. split; [exact Hl|]. apply unverifying_entries.
  eapply Forall_impl; [exact Hf|]. intros e. apply HP.
Qed.

Section Segments.
Variable w : world.
Variable cfg : Config.
Variable self : VideoProcessor.

Lemma overlay_only seg start :
  inside self (overlay_output seg) ->
  footprint overlay_calls (inside self) (_overlay_timestamp w cfg seg start).
Proof. intros H. unfold _overlay_timestamp. fp. Qed.

Lemma verify_segment_counts seg :
  counts (_verify_segment w seg)
    (fun b n => n = if b then 1%nat else 0%nat).
Proof.
  intros st. unfold _verify_segment. rewrite bind_eq. cbn [ask fst snd].
  set (r1 := w (log st) (StatSegment seg)).
  destruct (is_ok r1); cbn [negb].
  - rewrite bind_eq. cbn [ask fst snd log].
    set (r2 := w _ (ProbeDuration seg)).
    exists [(StatSegment seg, r1); (ProbeDuration seg, r2)].
    split.
    + destruct r2; cbn; now rewrite <- app_assoc.
    + rewrite !verified_segments_cons. destruct r2; cbn; try reflexivity.
      destruct (Qle_bool q 0.01); reflexivity.
  - exists [(StatSegment seg, r1)]. split; reflexivity.
Qed.

Lemma grows_refl acc : grows acc acc 0.
Proof. unfold grows. lia. Qed.

Lemma segment_step_counts v md acc i start :
  counts (segment_step w cfg self v md acc i start) (grows acc).
Proof.
  unfold segment_step.
  destruct (Qle_bool (duration md) start); [apply counts_ret, grows_refl|].
  destruct (Qle_bool _ 0.01); [apply counts_ret, grows_refl|].
  eapply counts_bind; [apply counts_ask|]. intros r n1 ->. cbn [is_verification].
  eapply counts_bind.
  { instantiate (1 := fun b n => n = if b then 1%nat else 0%nat).
    destruct (is_ok r); [apply verify_segment_counts|now apply counts_ret]. }
  intros verified n2 ->. destruct verified.
  - eapply counts_bind; [apply counts_still; reflexivity|]. intros _ n3 ->.
    eapply counts_bind.
    { instantiate (1 := fun _ n => n = 0%nat).
      destruct (bool_decide (TIMESTAMPS_MODE cfg = 1%nat)
                || bool_decide (TIMESTAMPS_MODE cfg = 2%nat));
        [|now apply counts_ret].
      eapply counts_bind.
      - eapply (footprint_counts overlay_calls); [|apply overlay_only, inside_overlay].
        now intros [].
      - intros o n ->. destruct o; [destruct (bool_decide _)|]; now apply counts_ret. }
    intros [p1 p2] n4 ->. apply counts_ret. unfold grows. cbn.
    rewrite !length_app. cbn. lia.
  - eapply counts_bind; [apply counts_still; reflexivity|]. intros _ n3 ->.
    eapply counts_bind; [apply counts_still; reflexivity|]. intros _ n4 ->.
    apply counts_ret. unfold grows. cbn. lia.
Qed.

Lemma segments_loop_counts v md cuts : forall i acc,
  counts (segments_loop w cfg self v md i cuts acc) (grows acc).
Proof.
  induction cuts as [|s cuts IH]; intros i acc; cbn [segments_loop].
  - apply counts_ret, grows_refl.
  - eapply counts_bind; [apply segment_step_counts|].
    intros acc1 n1 H1. eapply counts_impl; [|apply IH].
    intros acc2 n2 H2. unfold grows in *. lia.
Qed.

(** Without a verification in the log, no segment is returned. *)
Lemma generate_segments_counts v md cuts :
  counts (_generate_segments w cfg self v md cuts)
    (fun r n => (n = 0%nat -> r = ([], [])) /\ (r.1 = [] -> r = ([], []))).
Proof.
  unfold _generate_segments.
  eapply counts_bind; [apply counts_still; reflexivity|]. intros found n0 ->.
  destruct found; cbn [negb]; [|now apply counts_ret].
  eapply counts_bind; [apply segments_loop_counts|].
  intros acc n (Hg & Hv & Ht). cbn in Hg, Hv, Ht.
  destruct (bool_decide (segments_generated acc = 0%nat) && (0 <? length cuts)%nat);
    [now apply counts_ret|].
  apply counts_ret. cbn. rewrite Nat.add_0_r. split.
  - intros ->. destruct (valid_segment_paths acc), (timestamped_paths_for_sheet acc);
      cbn in *; try lia. reflexivity.
  - intros E. rewrite E in Hv. cbn in Hv.
    destruct (timestamped_paths_for_sheet acc); cbn in *; [now rewrite E|lia].
Qed.
End Segments.


Open Scope Q_scope.


(** What C7 asks of an extraction call. *)
Definition within_duration (cfg : Config) (D : Q) (cut_points_sec : list Q)
    (c : call) : Prop :=
  match c with
  | Extract _ ss t _ _ =>
    exists start_sec,
      In start_sec cut_points_sec /\ start_sec < D /\
      let cut_duration := py_min (SEGMENT_DURATION cfg) (D - start_sec) in
      0.01 < cut_duration /\ ss = round6 start_sec /\ t = round3 cut_duration /\
      start_sec + cut_duration <= D /\
      ss + t <= D + (1001 # 2000000)
  | _ => True
  end.

Lemma Qmake_1000000 z : z # 1000000 == inject_Z z / 1000000.
Proof. unfold Qeq, Qdiv, Qmult, Qinv, inject_Z. simpl. lia. Qed.

Lemma round6_near x :
  x - (1 # 2000000) <= round6 x /\ round6 x <= x + (1 # 2000000).
Proof.
  unfold round6. rewrite Qmake_1000000.
  pose proof (py_round_near (x * 1000000)) as [H1 H2].
  revert H1 H2. generalize (inject_Z (py_round (x * 1000000))). intros q H1 H2.
  split.
  - apply Qle_shift_div_l; lra.
  - apply Qle_shift_div_r; lra.
Qed.

Lemma py_min_le_r a b : py_min a b <= b.
Proof. destruct (py_min_cases a b) as [[-> H]|[-> H]]; lra. Qed.

Lemma verify_segment_follow_up w self seg :
  footprint follow_up_calls (inside self) (_verify_segment w seg).
Proof. unfold _verify_segment. fp. Qed.

Lemma overlay_follow_up w cfg self seg start :
  inside self (overlay_output seg) ->
  footprint follow_up_calls (inside self) (_overlay_timestamp w cfg seg start).
Proof. intros H. unfold _overlay_timestamp. fp. Qed.

#[global] Hint Resolve verify_segment_follow_up overlay_follow_up : fp.

Section Within.
Variable w : world.
Variable cfg : Config.
Variable self : VideoProcessor.
Variable v : path.
Variable md : metadata.
Variable cuts : list Q.

Abbreviation P := (within_duration cfg (duration md) cuts).

Lemma segment_step_within acc i start :
  In start cuts ->
  footprint P (inside self) (segment_step w cfg self v md acc i start).
Proof.
  intros Hin. unfold segment_step.
  destruct (Qle_bool (duration md) start) eqn:E1; [apply footprint_ret|].
  destruct (Qle_bool (py_min (SEGMENT_DURATION cfg) (duration md - start)) 0.01) eqn:E2;
    [apply footprint_ret|].
  assert (H1 : start < duration md).
  { apply Qnot_le_lt. intros H. apply Qle_bool_iff in H. congruence. }
  assert (H2 : 0.01 < py_min (SEGMENT_DURATION cfg) (duration md - start)).
  { apply Qnot_le_lt. intros H. apply Qle_bool_iff in H. congruence. }
  apply footprint_bind.
  { apply footprint_ask. cbn. exists start.
    pose proof (py_min_le_r (SEGMENT_DURATION cfg) (duration md - start)) as Hle.
    pose proof (round6_near start) as [_ H6].
    pose proof (round3_near (py_min (SEGMENT_DURATION cfg) (duration md - start)))
      as [_ H3].
    repeat split; auto; lra. }
  intros r.
  eapply footprint_weaken;
    [| intros p Hp; exact Hp
     | apply (footprint_bind (P:=follow_up_calls))].
  - intros c Hc. destruct c; cbn in Hc |- *; tauto.
  - destruct (is_ok r); fp.
  - intros verified. fp.
Qed.

Lemma segments_loop_within rest : forall i acc,
  incl rest cuts ->
  footprint P (inside self) (segments_loop w cfg self v md i rest acc).
Proof.
  induction rest as [|s rest IH]; intros i acc Hincl; cbn [segments_loop].
  - apply footprint_ret.
  - apply footprint_bind.
    + apply segment_step_within. apply Hincl. now left.
    + intros acc'. apply IH. intros x Hx. apply Hincl. now right.
Qed.

Lemma generate_segments_within :
  footprint P (inside self) (_generate_segments w cfg self v md cuts).
Proof.
  unfold _generate_segments. apply footprint_bind; [apply footprint_present|].
  intros found. destruct (negb found); [apply footprint_ret|].
  apply footprint_bind; [now apply segments_loop_within|].
  intros acc. destruct (_ && _); apply footprint_ret.
Qed.
End Within.

(** C7.  Every extraction call of the segment extractor starts, for some cut
    point [start_sec] below the video duration, at [start_sec] printed with
    microseconds and lasts [min(SEGMENT_DURATION, duration - start_sec)]
    printed with milliseconds, a length above 0.01 s; so
    [start_sec + length <= duration] exactly, and within 0.0005005 s for the
    printed arguments.  A cut point at or beyond the duration, or whose
    clamped length is at most 0.01 s, is passed over: no call is made and the
    segments collected so far are kept. *)
Theorem extraction_within_duration (w : world) (cfg : Config)
    (self : VideoProcessor) (v : path) (md : metadata) (cuts : list Q)
    (st : state) :
  (exists new,
     log (_generate_segments w cfg self v md cuts st).2 = log st ++ new /\
     Forall (fun e : entry => within_duration cfg (duration md) cuts e.1) new)
  /\ (forall acc i start_sec,
        duration md <= start_sec \/
        py_min (SEGMENT_DURATION cfg) (duration md - start_sec) <= 0.01 ->
        segment_step w cfg self v md acc i start_sec st = (acc, st)).
Proof.
  split.
  - apply (generate_segments_within w cfg self v md cuts st).
  - intros acc i start [H|H]; unfold segment_step.
    + apply Qle_bool_iff in H. now rewrite H.
    + apply Qle_bool_iff in H. rewrite H. now destruct (Qle_bool (duration md) start).
Qed.

Lemma extraction_within_duration_witness :
  segment_step kind_world shipped (init id 1234 shipped clip) clip two_minutes
    {| valid_segment_paths := []; timestamped_paths_for_sheet := [];
       segments_generated := 0 |} 0 130 (fresh fresh_disk)
  = ({| valid_segment_paths := []; timestamped_paths_for_sheet := [];
        segments_generated := 0 |}, fresh fresh_disk).
Proof.
  apply (extraction_within_duration kind_world shipped (init id 1234 shipped clip)
           clip two_minutes [] (fresh fresh_disk)).
  left. vm_compute. discriminate.
Defined.


Close Scope Q_scope.


Lemma substring_all s : String.substring 0 (String.length s) s = s.
Proof. induction s as [|c s IH]; cbn; [reflexivity|now rewrite IH]. Qed.

Lemma substring_split s : forall i,
  (i <= String.length s)%nat ->
  String.substring 0 i s +:+ String.substring i (String.length s - i) s = s.
Proof.
  induction s as [|c s IH]; intros [|i] Hi; cbn in *; try reflexivity; try lia.
  - now rewrite substring_all.
  - change (String c (String.substring 0 i s
                      +:+ String.substring i (String.length s - i) s) = String c s).
    rewrite IH by lia. reflexivity.
Qed.

Lemma append_empty s : s +:+ EmptyString = s.
Proof.
  induction s as [|c s IH]; [reflexivity|].
  change (String c (s +:+ EmptyString) = String c s). now rewrite IH.
Qed.

Lemma stem_suffix nm : stem_of nm +:+ suffix_of nm = nm.
Proof.
  unfold stem_of, suffix_of, splits_at.
  destruct (rfind_dot nm) as [i|]; [|apply append_empty].
  destruct ((0 <? i)%nat && (i <? String.length nm - 1)%nat) eqn:E;
    [|apply append_empty].
  apply substring_split. apply andb_true_iff in E as [_ E].
  apply Nat.ltb_lt in E. lia.
Qed.

Lemma append_length s t :
  String.length (s +:+ t) = (String.length s + String.length t)%nat.
Proof.
  induction s as [|c s IH]; [reflexivity|].
  change (S (String.length (s +:+ t)) = S (String.length s + String.length t)).
  now rewrite IH.
Qed.

Lemma prefixed_differs pre s : pre <> EmptyString -> pre +:+ s <> s.
Proof.
  intros Hpre H. apply (f_equal String.length) in H.
  rewrite append_length in H. destruct pre; [congruence|cbn in H; lia].
Qed.

Lemma child_inj d n m : d // n = d // m -> n = m.
Proof. unfold child. intros H. apply app_inv_head in H. congruence. Qed.

Lemma overlay_output_child d n : overlay_output (d // n) = d // ("ts_" +:+ n).
Proof.
  unfold overlay_output, stem, suffix. rewrite with_name_child, name_child.
  now rewrite stem_suffix.
Qed.

Lemma overlay_output_differs self i start :
  overlay_output (segment_file self i start) <> segment_file self i start.
Proof.
  unfold segment_file. rewrite overlay_output_child. intros H.
  apply child_inj in H. revert H. now apply prefixed_differs.
Qed.

Section Overlay.
Variable w : world.
Variable cfg : Config.
Variable self : VideoProcessor.

Lemma verify_segment_only seg :
  footprint verify_calls nowhere (_verify_segment w seg).
Proof. unfold _verify_segment. fp. Qed.

(** What an overlay attempt leaves behind. *)
Lemma overlay_timestamp_result seg start st :
  let r := _overlay_timestamp w cfg seg start st in
  let ts := overlay_output seg in
  (r.1 = None /\
   (exists new, log r.2 = log st ++ new /\
      forall text, (Overlay seg text ts, Ok) ∉ new) /\
   (forall p, p <> ts -> p ∈ fs r.2 <-> p ∈ fs st))
  \/ (r.1 = Some ts /\
      log r.2 = log st ++ [(Overlay seg (format_duration start) ts, Ok)] /\
      fs r.2 = {[ts]} ∪ fs st).
Proof.
  intros r ts. subst r. unfold _overlay_timestamp. fold ts.
  rewrite bind_eq. cbn [present fst snd].
  destruct (bool_decide (FONT_PATH cfg ∈ fs st)); cbn [negb].
  - rewrite bind_eq. cbn [ask fst snd].
    destruct (w (log st) (Overlay seg (format_duration start) ts)) eqn:E;
      cbn [is_ok]; [right; cbn; now repeat split|left..];
      (cbn; split; [reflexivity|]; split;
       [eexists; split; [reflexivity|]; intros text Hin;
        apply list_elem_of_singleton in Hin; congruence
       |intros p Hp; rewrite elem_of_difference, elem_of_singleton; tauto]).
  - left. cbn. split; [reflexivity|]. split; [|tauto].
    exists []. rewrite app_nil_r. split; [reflexivity|]. intros text Hin.
    now apply elem_of_nil in Hin.
Qed.
End Overlay.




(** * The rows of the animated sheet *)

Lemma create_info_image_render w cfg self md :
  footprint render_calls (inside self) (_create_info_image w cfg self md).
Proof. unfold _create_info_image. fp. Qed.

Lemma row_of_length cfg segs r : (length (row_of cfg segs r) <= GRID_WIDTH cfg)%nat.
Proof. unfold row_of. rewrite length_take. lia. Qed.

Lemma row_of_nonempty cfg segs r :
  (r * GRID_WIDTH cfg < length segs)%nat -> (0 < GRID_WIDTH cfg)%nat ->
  row_of cfg segs r <> [].
Proof.
  intros Hr HG H. apply (f_equal length) in H. unfold row_of in H.
  rewrite length_take, length_drop in H. cbn in H. lia.
Qed.

Section Rows.
Variable w : world.
Variable cfg : Config.
Variable self : VideoProcessor.
Variable md : metadata.

Lemma stack_videos_stacking inputs out ax :
  inside self out ->
  footprint (stacking_of inputs ax) (inside self)
    (_stack_videos w cfg md inputs out ax).
Proof.
  intros H. unfold _stack_videos.
  destruct inputs as [|first [|second rest]].
  - apply footprint_ret.
  - apply footprint_bind; [now apply footprint_ask|]. intros; apply footprint_ret.
  - apply footprint_bind; [now apply footprint_ask|]. intros r.
    destruct r; cbv zeta;
      repeat match goal with
             | |- footprint _ _ (let '(_, _) := (if ?b then _ else _) in _) => destruct b
             end;
      (apply footprint_bind;
       [apply footprint_ask; cbn; repeat split; lia
       |intros r'; destruct (is_ok r'); fp]).
Qed.

Variable segs : list path.

Abbreviation P := (stacks_full_rows cfg self segs).

Lemma stacking_full inputs c :
  full_row cfg self segs inputs -> stacking_of inputs Horizontal c -> P c.
Proof.
  intros Hfull. destruct c; cbn; try tauto.
  destruct ax; [|tauto]. now intros (_ & -> & _).
Qed.

Lemma sheet_row_full hs r :
  footprint P (inside self) (sheet_row w cfg self md segs hs r).
Proof.
  unfold sheet_row. cbv zeta.
  change (take _ (drop _ segs)) with (row_of cfg segs r).
  pose proof (row_of_length cfg segs r) as Hlen.
  destruct (row_of cfg segs r) as [|first rest] eqn:E; [apply footprint_ret|].
  assert (Hne : row_of cfg segs r <> []) by (rewrite E; discriminate).
  rewrite <- E in *. clear E.
  set (row := row_of cfg segs r) in *.
  eapply (footprint_bind_yields _ _ _ _
            (fun o => match o with
                      | Some g => g = row ++ replicate (GRID_WIDTH cfg - length row)
                                               (filler self r)
                      | None => True
                      end)).
  - destruct (0 <? GRID_WIDTH cfg - length row)%nat; [|apply footprint_ret].
    apply footprint_bind; [now apply footprint_ask|]. intros p.
    apply footprint_bind; [now apply footprint_ask|]. intros b.
    destruct (is_ok b); apply footprint_ret.
  - intros st. destruct (0 <? GRID_WIDTH cfg - length row)%nat eqn:Ez.
    + rewrite !bind_eq. cbn [ask fst snd].
      destruct (is_ok _); [reflexivity|exact I].
    + apply Nat.ltb_ge in Ez. cbn.
      replace (GRID_WIDTH cfg - length row)%nat with 0%nat by lia.
      cbn. now rewrite app_nil_r.
  - intros [group|] Hg; [|apply footprint_ret]. subst group.
    apply footprint_bind; [|intros stacked; destruct stacked; apply footprint_ret].
    eapply footprint_weaken; [|intros p Hp; exact Hp
                             |apply stack_videos_stacking, inside_temp].
    intros c Hc. eapply stacking_full; [|exact Hc]. split.
    + rewrite length_app, length_replicate. lia.
    + exists r. split; [exact Hne|reflexivity].
Qed.

Lemma sheet_rows_full rows : forall hs,
  footprint P (inside self) (sheet_rows w cfg self md segs rows hs).
Proof.
  induction rows as [|r rows IH]; intros hs; cbn [sheet_rows].
  - apply footprint_ret.
  - apply footprint_bind; [apply sheet_row_full|].
    intros [hs'|]; [apply IH|apply footprint_ret].
Qed.

(** A row that is stacked adds one entry to [h_stacked_videos]. *)
Lemma sheet_row_adds hs r st hs' :
  row_of cfg segs r <> [] ->
  (sheet_row w cfg self md segs hs r st).1 = Some hs' ->
  length hs' = S (length hs).
Proof.
  unfold sheet_row. cbv zeta.
  change (take _ (drop _ segs)) with (row_of cfg segs r).
  destruct (row_of cfg segs r) as [|first rest]; [congruence|]. intros _.
  rewrite bind_eq.
  match goal with |- context [(?m st).1] => destruct (m st) as [[group|] st1] end;
    cbn [fst snd]; [|discriminate].
  rewrite bind_eq.
  destruct (_stack_videos _ _ _ _ _ _ st1) as [[|] st2]; cbn; [|discriminate].
  intros [= <-]. rewrite length_app. cbn. lia.
Qed.

Lemma sheet_rows_adds rows : forall hs st hs',
  Forall (fun r => row_of cfg segs r <> []) rows ->
  (sheet_rows w cfg self md segs rows hs st).1 = Some hs' ->
  length hs' = (length hs + length rows)%nat.
Proof.
  induction rows as [|r rows IH]; intros hs st hs' Hrows; cbn [sheet_rows].
  - intros [= <-]. cbn. lia.
  - inversion Hrows as [|? ? Hr Hrows']; subst. rewrite bind_eq.
    destruct (sheet_row w cfg self md segs hs r st) as [[hs1|] st1] eqn:E;
      cbn [fst snd]; [|discriminate].
    intros H. apply IH in H; [|exact Hrows'].
    pose proof (sheet_row_adds hs r st hs1 Hr) as H1. rewrite E in H1.
    specialize (H1 eq_refl). cbn. lia.
Qed.

(** A short row is padded with a filler made from the probe of its
    first clip. *)
Lemma sheet_row_filler hs r st :
  let row := row_of cfg segs r in
  row <> [] -> (length row < GRID_WIDTH cfg)%nat ->
  exists first resp b rest,
    head row = Some first /\
    let props := match resp with
                 | Fields lines => parse_props cfg md lines
                 | _ => default_props cfg md
                 end in
    log (sheet_row w cfg self md segs hs r st).2
    = log st ++ (ProbeProps first, resp)
                :: (BlackClip (clip_w props) (clip_h props) (clip_fps props)
                      (clip_dur props) (filler self r), b)
                :: rest.
Proof.
  intros row Hne Hshort. subst row. unfold sheet_row. cbv zeta.
  change (take _ (drop _ segs)) with (row_of cfg segs r).
  destruct (row_of cfg segs r) as [|first rest] eqn:E; [congruence|].
  rewrite <- E in *.
  replace (0 <? GRID_WIDTH cfg - length (row_of cfg segs r))%nat with true
    by (symmetry; apply Nat.ltb_lt; lia).
  exists first, (w (log st) (ProbeProps first)).
  rewrite !bind_eq. cbn [ask fst snd log].
  set (resp := w (log st) (ProbeProps first)).
  set (props := match resp with Fields lines => parse_props cfg md lines
                              | _ => default_props cfg md end).
  set (c := BlackClip _ _ _ _ _).
  set (b := w _ c).
  destruct (is_ok b); cbn [ret fst snd log].
  - set (st1 := {| fs := _; log := _ |}).
    destruct (stack_videos_stacking
                (row_of cfg segs r
                 ++ replicate (GRID_WIDTH cfg - length (row_of cfg segs r))
                      (temp_dir self // ("black_placeholder_row" +:+ decimal (r + 1)
                                         +:+ ".mp4")))
                (temp_dir self // ("hstacked_row_" +:+ decimal (r + 1) +:+ ".mp4"))
                Horizontal (inside_temp _ _) st1) as [(new & Hl & _) _].
    rewrite bind_eq.
    exists b, new. split; [now rewrite E|].
    destruct ((_stack_videos _ _ _ _ _ _ st1).1); cbn [ret fst snd];
      rewrite Hl; subst st1; cbn [log]; now rewrite <- !app_assoc.
  - exists b, []. split; [now rewrite E|]. now rewrite <- !app_assoc.
Qed.
End Rows.

Lemma ceil_rows n g :
  (0 < g)%nat ->
  (n <= (n + g - 1) / g * g /\ (n + g - 1) / g * g < n + g)%nat.
Proof.
  intros Hg. pose proof (Nat.div_mod (n + g - 1) g ltac:(lia)) as H.
  pose proof (Nat.mod_upper_bound (n + g - 1) g ltac:(lia)) as H'.
  nia.
Qed.

Lemma rows_nonempty cfg segs :
  (0 < GRID_WIDTH cfg)%nat ->
  Forall (fun r => row_of cfg segs r <> [])
    (seq 0 ((length segs + GRID_WIDTH cfg - 1) / GRID_WIDTH cfg)).
Proof.
  intros HG. apply Forall_forall. intros r Hr. apply elem_of_seq in Hr as [_ Hr].
  apply row_of_nonempty; [|exact HG].
  destruct (ceil_rows (length segs) (GRID_WIDTH cfg) HG) as [_ H]. nia.
Qed.

Lemma parse_complete cfg md cw ch num den dur :
  den <> 0%Z ->
  parse_props cfg md [TInt cw; TInt ch; TRatio num den; TDecimal dur]
  = {| clip_w := cw; clip_h := ch;
       clip_fps := round2 (inject_Z num / inject_Z den);
       clip_dur := round3 dur |}.
Proof.
  intros Hden. unfold parse_props. cbn.
  destruct (bool_decide (den = 0%Z)) eqn:E; [|reflexivity].
  apply bool_decide_eq_true in E. contradiction.
Qed.





(** * The static sheet *)

Section Static.
Variable w : world.
Variable cfg : Config.
Variable self : VideoProcessor.

Lemma frame_step_result frames seg st :
  (frame_step w cfg self frames seg st).1 = frames
  \/ (frame_step w cfg self frames seg st).1 = frames ++ [frame_file self seg].
Proof.
  unfold frame_step. cbv zeta. rewrite bind_eq. cbn [present fst snd].
  destruct (bool_decide (seg ∈ fs st)); cbn [negb]; [|now left].
  rewrite !bind_eq.
  match goal with
  | |- context [if ?b then _ else _] => destruct b
  end; cbn; auto.
Qed.

Lemma frames_loop_result segs : forall frames st,
  exists more,
    (frames_loop w cfg self segs frames st).1 = frames ++ more
    /\ more `sublist_of` (frame_file self <$> segs).
Proof.
  induction segs as [|seg segs IH]; intros frames st; cbn [frames_loop].
  - exists []. split; [now rewrite app_nil_r|constructor].
  - rewrite bind_eq.
    destruct (IH (frame_step w cfg self frames seg st).1
                 (frame_step w cfg self frames seg st).2) as (more & -> & Hsub).
    destruct (frame_step_result frames seg st) as [->| ->].
    + exists more. split; [reflexivity|]. rewrite fmap_cons. now apply sublist_cons.
    + exists (frame_file self seg :: more). split; [now rewrite <- app_assoc|].
      rewrite fmap_cons. now apply sublist_skip.
Qed.

(** The frames handed to the sheet builder are frames of the segments, in
    the order of the segments. *)
Lemma extract_segment_frames_result segs st :
  (_extract_segment_frames w cfg self segs st).1
    `sublist_of` (frame_file self <$> segs).
Proof.
  unfold _extract_segment_frames. rewrite bind_eq.
  destruct segs as [|seg segs]; [constructor|]. cbn [is_nil].
  destruct (frames_loop_result (seg :: segs) [] (ask w (Info "Extracting frames for static image sheet...") st).2)
    as (more & -> & Hsub).
  exact Hsub.
Qed.

Lemma paste_step_result ih fw fh canvas i frame st :
  exists d,
    (paste_step w cfg ih fw fh canvas i frame st).1 = canvas ++ [d]
    /\ (frame_at cfg ih fw fh i frame d \/ placeholder_at cfg ih fw fh i d).
Proof.
  unfold paste_step. cbv zeta. rewrite bind_eq. cbn [present fst snd].
  destruct (bool_decide (frame ∈ fs st)); cbn [negb].
  - rewrite bind_eq. cbn [ask fst snd].
    destruct (w (log st) (OpenImage frame)); cbn [ret fst];
      eexists; (split; [reflexivity|]);
      first [ now right; eexists | now left; eexists ].
  - cbn [ret fst]. eexists; split; [reflexivity|]. now right; eexists.
Qed.

Lemma paste_loop_result ih fw fh frames : forall i canvas st,
  exists cells,
    (paste_loop w cfg ih fw fh i frames canvas st).1 = canvas ++ cells
    /\ length cells = length frames
    /\ forall j frame, frames !! j = Some frame ->
         exists d, cells !! j = Some d /\
           (frame_at cfg ih fw fh (i + j) frame d
            \/ placeholder_at cfg ih fw fh (i + j) d).
Proof.
  induction frames as [|f frames IH]; intros i canvas st; cbn [paste_loop].
  - exists []. split; [now rewrite app_nil_r|]. split; [reflexivity|].
    intros j frame Hj. discriminate.
  - rewrite bind_eq.
    destruct (paste_step_result ih fw fh canvas i f st) as (d & Hd & Hcell).
    destruct (IH (S i) (paste_step w cfg ih fw fh canvas i f st).1
                 (paste_step w cfg ih fw fh canvas i f st).2)
      as (cells & -> & Hlen & Hcells).
    exists (d :: cells). rewrite Hd, <- app_assoc. split; [reflexivity|].
    split; [cbn; now rewrite Hlen|].
    intros [|j] frame Hj; cbn in Hj.
    + injection Hj as <-. exists d. split; [reflexivity|].
      now rewrite Nat.add_0_r.
    + destruct (Hcells j frame Hj) as (d' & Hd' & Hc). exists d'.
      split; [exact Hd'|]. now rewrite Nat.add_succ_r.
Qed.

Lemma helper_saves frames c : helper_calls c -> saves_compacted cfg frames c.
Proof. now destruct c. Qed.

Lemma generate_image_preview_sheet_compacted md frames :
  footprint (saves_compacted cfg frames) (inside self)
    (_generate_image_preview_sheet w cfg self md frames).
Proof.
  unfold _generate_image_preview_sheet.
  apply footprint_bind; [now apply footprint_ask|intros _].
  destruct frames as [|first rest]; [apply footprint_ret|].
  set (frames := first :: rest).
  apply footprint_bind.
  { apply (footprint_weaken helper_calls _ (inside self) (inside self));
      [apply helper_saves|auto|apply create_info_image_footprint]. }
  intros [info|]; [|apply footprint_ret].
  apply footprint_bind; [now apply footprint_ask|intros r].
  destruct r as [| | | |info_w info_h| |]; try apply footprint_ret.
  apply footprint_bind; [apply footprint_present|intros found].
  destruct found; cbn [negb]; [|apply footprint_ret].
  apply footprint_bind; [now apply footprint_ask|intros r].
  destruct r as [| | | |frame_w frame_h| |]; try apply footprint_ret.
  cbv zeta.
  apply (footprint_bind_yields _ _ _ _
           (fun canvas => exists cells,
              canvas = [PasteInfo info] ++ cells
              /\ length cells = length frames
              /\ forall j frame, frames !! j = Some frame ->
                   exists d, cells !! j = Some d /\
                     (frame_at cfg info_h frame_w frame_h j frame d
                      \/ placeholder_at cfg info_h frame_w frame_h j d))).
  { apply (footprint_weaken helper_calls _ (inside self) (inside self));
      [apply helper_saves|auto|apply paste_loop_footprint]. }
  { intros st. apply (paste_loop_result info_h frame_w frame_h frames 0). }
  intros canvas (cells & -> & Hlen & Hcells).
  apply footprint_bind.
  - apply footprint_ask. cbn [saves_compacted].
    exists info, info_h, frame_w, frame_h, cells.
    split; [|split; [exact Hlen|exact Hcells]].
    destruct (Nat.ltb_spec (length frames) (NUM_OF_SEGMENTS cfg)) as [Hlt|Hge].
    + now rewrite <- app_assoc.
    + unfold missing_placeholders.
      replace (NUM_OF_SEGMENTS cfg - length frames)%nat with 0%nat by lia.
      cbn [seq map]. now rewrite app_nil_r.
  - intros r. destruct (is_ok r); fp.
Qed.
End Static.

Lemma pair_eq_inv {A B : Type} (a c : A) (b d : B) :
  (a, b) = (c, d) -> a = c /\ b = d.
Proof. intros H. split; [exact (f_equal fst H)|exact (f_equal snd H)]. Qed.

(** The run of the scenario with three failing frames. *)
Lemma three_frames_fail_run :
  let r := run three_frames_fail shipped job (fresh fresh_disk) in
  (r.1, products (log r.2), frame_failures (log r.2), saved_sheets (log r.2))
  = (true, [WebpPreview; WebpSheet; ImageSheet], three_failures, [three_fail_canvas]).
Proof. vm_compute. reflexivity. Qed.





(** * The log of a whole run *)

Lemma configured_requested cfg a : a ∈ configured cfg <-> requested cfg a = true.
Proof.
  unfold configured.
  destruct a, (CREATE_WEBP_PREVIEW cfg) eqn:E1, (CREATE_WEBP_PREVIEW_SHEET cfg) eqn:E2,
    (CREATE_IMAGE_PREVIEW_SHEET cfg) eqn:E3; cbn; rewrite ?E1, ?E2, ?E3;
    split; intros H; try discriminate; try reflexivity;
    repeat (apply elem_of_cons in H as [H|H]; try discriminate);
    try (now apply elem_of_nil in H);
    repeat first [ apply list_elem_of_here | apply list_elem_of_further ].
Qed.

Lemma new_unique {A : Type} (l n1 n2 : list A) : l ++ n1 = l ++ n2 -> n1 = n2.
Proof. apply app_inv_head. Qed.

Lemma emits_ret {A : Type} (a : A) (R : A -> list entry -> Prop) :
  R a [] -> emits (ret a) R.
Proof. intros H st. exists []. now rewrite app_nil_r. Qed.

Lemma emits_bind {A B : Type} (m : M A) (k : A -> M B) R1 (R : B -> list entry -> Prop) :
  emits m R1 ->
  (forall a n1, R1 a n1 -> emits (k a) (fun b n2 => R b (n1 ++ n2))) ->
  emits (bind m k) R.
Proof.
  intros Hm Hk st. rewrite bind_eq.
  destruct (Hm st) as (n1 & Hl1 & H1).
  destruct (Hk _ _ H1 (m st).2) as (n2 & Hl2 & H2).
  exists (n1 ++ n2). rewrite Hl2, Hl1, app_assoc. now split.
Qed.

Lemma emits_impl {A : Type} (m : M A) (R R' : A -> list entry -> Prop) :
  (forall a n, R a n -> R' a n) -> emits m R -> emits m R'.
Proof.
  intros HR Hm st. destruct (Hm st) as (new & Hl & H). exists new. auto.
Qed.

Lemma emits_conj {A : Type} (m : M A) (R R' : A -> list entry -> Prop) :
  emits m R -> emits m R' -> emits m (fun a n => R a n /\ R' a n).
Proof.
  intros H1 H2 st. destruct (H1 st) as (n1 & Hl1 & Hr1), (H2 st) as (n2 & Hl2 & Hr2).
  rewrite Hl1 in Hl2. apply new_unique in Hl2 as <-. now exists n1.
Qed.

Lemma silent_emits {A : Type} (m : M A) :
  silent m -> emits m (fun _ n => attempts n = [] /\ products n = []).
Proof. intros H st. exact (H st). Qed.

Lemma counts_emits {A : Type} (m : M A) R :
  counts m R -> emits m (fun a n => R a (verified_segments n)).
Proof. intros H st. exact (H st). Qed.

Lemma silent_discard_tree d : silent (discard_tree d).
Proof. intros st. exists []. now rewrite app_nil_r. Qed.

Lemma stopped_after ok n1 n2 :
  attempts n1 = [] -> products n1 = [] -> stopped ok n2 -> stopped ok (n1 ++ n2).
Proof.
  intros Ha Hp (Ha2 & Hp2 & ->). unfold stopped.
  now rewrite attempts_app, products_app, Ha, Hp, Ha2, Hp2.
Qed.

Lemma verdict_after cfg ok n1 n2 :
  attempts n1 = [] -> products n1 = [] -> verdict cfg ok n2 -> verdict cfg ok (n1 ++ n2).
Proof.
  intros Ha Hp [H|(Ha2 & Hp2 & Hok & Hv)]; [left; now apply stopped_after|].
  right. unfold built.
  rewrite attempts_app, products_app, verified_segments_app, Ha, Hp. cbn [app].
  repeat split; try assumption. intros H. specialize (Hv H). lia.
Qed.

Lemma verdict_before cfg ok n1 n2 :
  attempts n2 = [] -> products n2 = [] -> verdict cfg ok n1 -> verdict cfg ok (n1 ++ n2).
Proof.
  intros Ha Hp [(Ha1 & Hp1 & ->)|(Ha1 & Hp1 & Hok & Hv)].
  - left. unfold stopped. now rewrite attempts_app, products_app, Ha, Hp, Ha1, Hp1.
  - right. unfold built.
    rewrite attempts_app, products_app, verified_segments_app, Ha, Hp, !app_nil_r.
    repeat split; try assumption. intros H. specialize (Hv H). lia.
Qed.

(** A silent step in front of a computation with a verdict. *)
Lemma verdict_bind {A : Type} cfg (m : M A) (k : A -> M bool) :
  silent m -> (forall a, emits (k a) (verdict cfg)) -> emits (bind m k) (verdict cfg).
Proof.
  intros Hm Hk. eapply emits_bind; [apply silent_emits, Hm|].
  intros a n1 [Ha Hp]. eapply emits_impl; [|apply Hk].
  intros ok n2. now apply verdict_after.
Qed.

Lemma verdict_false cfg : emits (ret false) (verdict cfg).
Proof. apply emits_ret. now left. Qed.

Section Run.
Variable w : world.
Variable cfg : Config.
Variable self : VideoProcessor.

Lemma generate_cut_points_silent md : silent (_generate_cut_points w cfg md).
Proof.
  apply (footprint_silent plan_calls (inside self));
    [apply plan_calls_quiet|apply generate_cut_points_footprint].
Qed.

Lemma generate_segments_emits v md cuts :
  emits (_generate_segments w cfg self v md cuts)
    (fun r n => (attempts n = [] /\ products n = [])
                /\ ((verified_segments n = 0%nat -> r = ([], []))
                    /\ (r.1 = [] -> r = ([], [])))).
Proof.
  apply emits_conj.
  - apply silent_emits, (footprint_silent segment_calls (inside self));
      [apply segment_calls_quiet|apply generate_segments_footprint].
  - apply (counts_emits _ _ (generate_segments_counts w cfg self v md cuts)).
Qed.

Lemma stage_webp_preview md segs :
  emits (if CREATE_WEBP_PREVIEW cfg
         then bind (_generate_webp_preview w cfg self md segs) (fun b => ret [b])
         else ret [])
    (stage WebpPreview (CREATE_WEBP_PREVIEW cfg)).
Proof.
  destruct (CREATE_WEBP_PREVIEW cfg); [|now apply emits_ret].
  apply (emits_bind _ _ (fun (b : bool) n =>
           attempts n = [WebpPreview]
           /\ products n = if b then [WebpPreview] else []));
    [intros st; apply generate_webp_preview_log|].
  intros b n1 [Ha Hp]. apply emits_ret. rewrite app_nil_r. unfold stage. cbn.
  rewrite orb_false_r. now repeat split.
Qed.

Lemma stage_webp_sheet md segs :
  emits (if CREATE_WEBP_PREVIEW_SHEET cfg
         then bind (_generate_webp_preview_sheet w cfg self md segs) (fun b => ret [b])
         else ret [])
    (stage WebpSheet (CREATE_WEBP_PREVIEW_SHEET cfg)).
Proof.
  destruct (CREATE_WEBP_PREVIEW_SHEET cfg); [|now apply emits_ret].
  apply (emits_bind _ _ (fun (b : bool) n =>
           attempts n = [WebpSheet]
           /\ products n = if b then [WebpSheet] else []));
    [intros st; apply generate_webp_preview_sheet_log|].
  intros b n1 [Ha Hp]. apply emits_ret. rewrite app_nil_r. unfold stage. cbn.
  rewrite orb_false_r. now repeat split.
Qed.

Lemma stage_image_sheet md segs :
  emits (if CREATE_IMAGE_PREVIEW_SHEET cfg
         then bind (_extract_segment_frames w cfg self segs)
                (fun frames =>
                   if is_nil frames then ret [false]
                   else bind (_generate_image_preview_sheet w cfg self md frames)
                          (fun b => ret [b]))
         else ret [])
    (stage ImageSheet (CREATE_IMAGE_PREVIEW_SHEET cfg)).
Proof.
  destruct (CREATE_IMAGE_PREVIEW_SHEET cfg); [|now apply emits_ret].
  apply (emits_bind _ _ (fun (_ : list path) n =>
           attempts n = [ImageSheet] /\ products n = []));
    [intros st; apply extract_segment_frames_log|].
  intros frames n1 [Ha Hp]. destruct (is_nil frames).
  { apply emits_ret. rewrite app_nil_r. now repeat split. }
  apply (emits_bind _ _ (fun (b : bool) n =>
           attempts n = []
           /\ products n = if b then [ImageSheet] else [])).
  { intros st. apply (generate_image_preview_sheet_builds w cfg self md frames). }
  intros b n2 [Ha2 Hp2]. apply emits_ret. rewrite app_nil_r. unfold stage.
  rewrite attempts_app, products_app, Ha, Hp, Ha2, Hp2. cbn.
  rewrite orb_false_r. now repeat split.
Qed.

Lemma stages_built n0 rs1 n1 rs2 n2 rs3 n3 :
  attempts n0 = [] -> products n0 = [] ->
  (any_preview_requested cfg = true -> (0 < verified_segments n0)%nat) ->
  stage WebpPreview (CREATE_WEBP_PREVIEW cfg) rs1 n1 ->
  stage WebpSheet (CREATE_WEBP_PREVIEW_SHEET cfg) rs2 n2 ->
  stage ImageSheet (CREATE_IMAGE_PREVIEW_SHEET cfg) rs3 n3 ->
  built cfg (existsb (fun r => r) (rs1 ++ rs2 ++ rs3)
             || negb (any_preview_requested cfg))
    (n0 ++ n1 ++ n2 ++ n3).
Proof.
  intros Ha0 Hp0 Hv (Ha1 & Hp1 & Hf1) (Ha2 & Hp2 & Hf2) (Ha3 & Hp3 & Hf3).
  unfold built.
  rewrite !attempts_app, !products_app, !verified_segments_app, !existsb_app,
    Ha0, Hp0, Ha1, Hp1, Ha2, Hp2, Ha3, Hp3.
  cbn [app]. split; [reflexivity|]. split; [|split].
  - intros a Ha. apply configured_requested.
    rewrite !elem_of_app in Ha. destruct Ha as [Ha|[Ha|Ha]].
    + destruct (existsb _ rs1) eqn:E; [|now apply elem_of_nil in Ha].
      apply list_elem_of_singleton in Ha as ->. cbn.
      destruct (CREATE_WEBP_PREVIEW cfg); [reflexivity|].
      now rewrite Hf1 in E.
    + destruct (existsb _ rs2) eqn:E; [|now apply elem_of_nil in Ha].
      apply list_elem_of_singleton in Ha as ->. cbn.
      destruct (CREATE_WEBP_PREVIEW_SHEET cfg); [reflexivity|].
      now rewrite Hf2 in E.
    + destruct (existsb _ rs3) eqn:E; [|now apply elem_of_nil in Ha].
      apply list_elem_of_singleton in Ha as ->. cbn.
      destruct (CREATE_IMAGE_PREVIEW_SHEET cfg); [reflexivity|].
      now rewrite Hf3 in E.
  - now destruct (existsb _ rs1), (existsb _ rs2), (existsb _ rs3).
  - intros H. specialize (Hv H). lia.
Qed.

(** The [try] block either stops before the builders, or runs every
    configured builder. *)
Lemma process_verdict v md :
  emits (process w cfg self v md) (fun r n => verdict cfg (settled r) n).
Proof.
  unfold process. cbv zeta.
  eapply emits_bind; [apply silent_emits, generate_cut_points_silent|].
  intros planned n1 [Ha1 Hp1].
  eapply emits_impl.
  { intros r n H. apply (verdict_after cfg _ n1 n Ha1 Hp1 H). }
  destruct planned as [cut_points_pct|]; [|apply emits_ret; now left].
  destruct (is_nil cut_points_pct); [apply emits_ret; now left|].
  eapply emits_bind; [apply generate_segments_emits|].
  intros [segs tsegs] n2 ([Ha2 Hp2] & Hv & Hn).
  destruct (is_nil segs && any_preview_requested cfg) eqn:E.
  { apply emits_ret. left. unfold stopped.
    now rewrite app_nil_r. }
  eapply emits_bind; [apply stage_webp_preview|]. intros rs1 n3 H1.
  eapply emits_bind; [apply stage_webp_sheet|]. intros rs2 n4 H2.
  eapply emits_bind; [apply stage_image_sheet|]. intros rs3 n5 H3.
  assert (Hb : built cfg (existsb (fun r => r) (rs1 ++ rs2 ++ rs3)
                          || negb (any_preview_requested cfg))
                 (n2 ++ n3 ++ n4 ++ n5)).
  { apply stages_built; try assumption.
    intros Hr. rewrite Hr, andb_true_r in E.
    destruct (verified_segments n2) eqn:Ez; [|lia].
    specialize (Hv eq_refl). injection Hv as -> ->. discriminate. }
  destruct (existsb (fun r => r) (rs1 ++ rs2 ++ rs3)) eqn:Ex.
  - apply emits_ret. right. now rewrite app_nil_r.
  - destruct (any_preview_requested cfg) eqn:Er; apply emits_ret; right;
      now rewrite app_nil_r.
Qed.

Lemma check_existing_outputs_silent : silent (_check_existing_outputs w cfg self).
Proof.
  apply (footprint_silent check_calls (inside self));
    [apply check_calls_quiet|apply check_existing_footprint].
Qed.

Lemma get_metadata_silent v : silent (_get_metadata w v).
Proof.
  apply (footprint_silent probe_calls (inside self));
    [apply probe_calls_quiet|apply get_metadata_footprint].
Qed.

Lemma cleanup_silent : silent (cleanup w cfg self).
Proof.
  unfold cleanup. apply silent_bind; [apply silent_present|intros found].
  destruct (negb (KEEP_TEMP_FILES cfg) && found); [|apply silent_ret].
  apply silent_bind; [|intros _; apply silent_discard_tree].
  apply silent_ask. intros r. now destruct r.
Qed.

(** A run stops before the builders and fails, or runs every configured
    builder and succeeds when one of them wrote its artifact. *)
Lemma run_verdict : emits (run w cfg self) (verdict cfg).
Proof.
  unfold run.
  apply verdict_bind; [apply check_existing_outputs_silent|intros [should v0]].
  destruct should; cbn [negb]; [|apply verdict_false].
  apply verdict_bind; [silence|intros r].
  destruct (is_ok r); cbn [negb]; [|apply verdict_false].
  apply verdict_bind; [silence|intros _].
  apply verdict_bind; [silence|intros moved].
  destruct moved as [v|]; [|apply verdict_false].
  apply verdict_bind; [silence|intros r2].
  destruct (is_ok r2); cbn [negb]; [|apply verdict_false].
  apply verdict_bind; [silence|intros _].
  apply verdict_bind; [apply get_metadata_silent|intros md].
  destruct md as [md|]; [|apply verdict_false].
  cbv zeta. destruct (Qle_bool (duration md) 10); [apply verdict_false|].
  eapply emits_bind; [apply process_verdict|]. intros result n1 H1.
  eapply emits_bind; [apply silent_emits, cleanup_silent|]. intros _ n2 [Ha Hp].
  destruct result as [b|]; apply emits_ret; rewrite app_nil_r;
    now apply verdict_before.
Qed.
End Run.



(** A configuration with other artifact switches. *)
Definition with_artifacts (preview sheet image : bool) (cfg : Config) : Config :=
  {| INPUT_FOLDER := INPUT_FOLDER cfg;
     CUSTOM_OUTPUT_PATH := CUSTOM_OUTPUT_PATH cfg;
     CREATE_WEBP_PREVIEW := preview;
     CREATE_WEBP_PREVIEW_SHEET := sheet;
     CREATE_IMAGE_PREVIEW_SHEET := image;
     NUM_OF_SEGMENTS := NUM_OF_SEGMENTS cfg;
     SEGMENT_DURATION := SEGMENT_DURATION cfg;
     ADD_BLACK_BARS := ADD_BLACK_BARS cfg;
     GRID_WIDTH := GRID_WIDTH cfg;
     TIMESTAMPS_MODE := TIMESTAMPS_MODE cfg;
     IMAGE_SHEET_FORMAT := IMAGE_SHEET_FORMAT cfg;
     KEEP_TEMP_FILES := KEEP_TEMP_FILES cfg;
     IGNORE_EXISTING := IGNORE_EXISTING cfg;
     CONFIRM_CUT_POINTS_REQUIRED := CONFIRM_CUT_POINTS_REQUIRED cfg;
     BLACKLISTED_CUT_POINTS := BLACKLISTED_CUT_POINTS cfg;
     FONT_PATH := FONT_PATH cfg |}.

Lemma fresh_run_log (w : world) (cfg : Config) (self : VideoProcessor) (F : gset path) :
  verdict cfg (run w cfg self (fresh F)).1 (log (run w cfg self (fresh F)).2).
Proof.
  destruct (run_verdict w cfg self (fresh F)) as (new & Hl & H).
  cbn in Hl. now rewrite Hl.
Qed.



(** In that world the run succeeds on the static sheet alone, after starting
    all three builders. *)
Example one_artifact_is_enough :
  let r := run only_static_sheet shipped job (fresh fresh_disk) in
  (r.1, attempts (log r.2), products (log r.2))
  = (true, [WebpPreview; WebpSheet; ImageSheet], [ImageSheet]).
Proof. vm_compute. reflexivity. Qed.

(** C5 (as the code has it): with an artifact type configured, a run whose
    log shows no verified segment fails, and starts no builder. *)
Theorem no_verified_segment_fails (w : world) (cfg : Config)
    (self : VideoProcessor) (F : gset path) :
  any_preview_requested cfg = true ->
  let r := run w cfg self (fresh F) in
  verified_segments (log r.2) = 0%nat ->
  r.1 = false /\ attempts (log r.2) = [] /\ products (log r.2) = [].
Proof.
  intros Hreq. cbv zeta. intros Hz.
  destruct (fresh_run_log w cfg self F) as [(Ha & Hp & Hok)|(_ & _ & _ & Hv)].
  - now repeat split.
  - specialize (Hv Hreq). lia.
Qed.

Lemma no_verified_segment_fails_witness :
  any_preview_requested shipped = true
  /\ verified_segments (log (run barren_world shipped job (fresh fresh_disk)).2) = 0%nat
  /\ (run barren_world shipped job (fresh fresh_disk)).1 = false
  /\ attempts (log (run barren_world shipped job (fresh fresh_disk)).2) = []
  /\ products (log (run barren_world shipped job (fresh fresh_disk)).2) = [].
Proof.
  assert (H : any_preview_requested shipped = true) by reflexivity.
  assert (Hz : verified_segments
                 (log (run barren_world shipped job (fresh fresh_disk)).2) = 0%nat)
    by (vm_compute; reflexivity).
  split; [exact H|]. split; [exact Hz|].
  exact (no_verified_segment_fails barren_world shipped job fresh_disk H Hz).
Defined.

(** With no artifact type configured, the same run succeeds although no
    segment was verified. *)
Lemma no_artifact_counterexample :
  let cfg := with_artifacts false false false shipped in
  let r := run barren_world cfg (init id 1234 cfg clip) (fresh fresh_disk) in
  (any_preview_requested cfg, NUM_OF_SEGMENTS cfg, verified_segments (log r.2), r.1)
  = (false, 16%nat, 0%nat, true).
Proof. vm_compute. reflexivity. Qed.



(** * The place of the source video *)

Lemma footprint_anything {A : Type} P Q (m : M A) :
  footprint P Q m -> footprint anything Q m.
Proof. apply footprint_weaken; [now intros|auto]. Qed.

Lemma external_calls_app l1 l2 :
  external_calls (l1 ++ l2) = external_calls l1 ++ external_calls l2.
Proof. unfold external_calls. now rewrite map_app, filter_app. Qed.

Lemma check_calls_internal new :
  Forall (fun e : entry => check_calls e.1) new -> external_calls new = [].
Proof.
  induction 1 as [|[c r] new Hc Hf IH]; [reflexivity|].
  change (external_calls ((c, r) :: new)) with (external_calls ([(c, r)] ++ new)).
  rewrite external_calls_app, IH. destruct c; cbn in Hc; try contradiction; reflexivity.
Qed.

Ltac roam :=
  repeat first
    [ apply footprint_ret
    | apply footprint_present
    | apply footprint_ask; exact I
    | apply footprint_create; solve [auto with fp]
    | apply footprint_discard; solve [auto with fp]
    | eapply footprint_anything; solve [eauto with fp]
    | apply footprint_bind; [|intros ?]
    | match goal with
      | |- footprint _ _ (if ?b then _ else _) => destruct b
      | |- footprint _ _ (match ?x with _ => _ end) => destruct x
      end
    | progress cbv zeta ].

Section Source.
Variable w : world.
Variable cfg : Config.
Variable self : VideoProcessor.

Lemma generate_webp_preview_roams md segs :
  footprint anything (inside self) (_generate_webp_preview w cfg self md segs).
Proof. unfold _generate_webp_preview. roam. Qed.

Lemma generate_webp_preview_sheet_roams md segs :
  footprint anything (inside self) (_generate_webp_preview_sheet w cfg self md segs).
Proof. unfold _generate_webp_preview_sheet. roam. Qed.

Lemma extract_segment_frames_roams segs :
  footprint anything (inside self) (_extract_segment_frames w cfg self segs).
Proof. unfold _extract_segment_frames. roam. Qed.

Lemma generate_image_preview_sheet_roams md frames :
  footprint anything (inside self) (_generate_image_preview_sheet w cfg self md frames).
Proof. unfold _generate_image_preview_sheet. roam. Qed.

Lemma process_roams v md :
  footprint anything (inside self) (process w cfg self v md).
Proof.
  unfold process.
  pose proof generate_webp_preview_roams. pose proof generate_webp_preview_sheet_roams.
  pose proof extract_segment_frames_roams. pose proof generate_image_preview_sheet_roams.
  repeat first [ solve [auto] | progress roam ].
Qed.

Lemma cleanup_roams : footprint anything (inside self) (cleanup w cfg self).
Proof.
  unfold cleanup. roam.
  apply footprint_discard_tree. intros p Hp. now right.
Qed.

Lemma finish_roams v : footprint anything (inside self) (finish w cfg self v).
Proof.
  unfold finish. pose proof process_roams. pose proof cleanup_roams.
  repeat first [ solve [auto] | progress roam ].
Qed.

(** The video the check hands on, when the output directory does not hold
    the source yet. *)
Lemma check_video_path st :
  target_video_path self ∉ fs st ->
  (_check_existing_outputs w cfg self st).1.2 = original_video_path self.
Proof.
  intros Ht. unfold _check_existing_outputs. cbv zeta.
  set (s := foldl _ _ _).
  assert (Hs : video_path s = original_video_path self).
  { subst s. unfold output_files_config. cbn [foldl].
    set (found := fun p : path => bool_decide (p ∈ fs st)).
    unfold scan_item at 1.
    rewrite (bool_decide_eq_true_2 _ (eq_refl "Original Video (Moved)")).
    unfold found at 1. rewrite (bool_decide_eq_false_2 _ Ht). reflexivity. }
  repeat match goal with
         | |- context [if ?b then _ else _] => destruct b
         end; try rewrite !bind_eq; exact Hs.
Qed.
End Source.

Lemma run_finish (w : world) (cfg : Config) (self : VideoProcessor) :
  run w cfg self =
  bind (_check_existing_outputs w cfg self) (fun x =>
    match x with
    | (should_process, video_path) =>
      if negb should_process then ret false else
      bind (ask w (Mkdir (output_dir self))) (fun r =>
      if negb (is_ok r) then ret false else
      bind (create (output_dir self)) (fun _ =>
      bind (if negb (bool_decide (video_path = target_video_path self)) then
              bind (present video_path) (fun found =>
              if negb found then ret None else
              bind (ask w (Move video_path (target_video_path self))) (fun r =>
              if is_ok r then
                bind (discard video_path) (fun _ =>
                bind (create (target_video_path self)) (fun _ =>
                ret (Some (target_video_path self))))
              else ret None))
            else ret (Some video_path))
           (fun moved =>
              match moved with
              | None => ret false
              | Some video_path => finish w cfg self video_path
              end)))
    end).
Proof. reflexivity. Qed.






(** * Skipping a video whose outputs exist *)

Section Skip.
Variable w : world.
Variable cfg : Config.
Variable self : VideoProcessor.

Lemma scan_item_present found s nm p flag :
  nm <> "Original Video (Moved)" ->
  (flag = true -> found p = true) ->
  required_files_missing (scan_item self found s (nm, p, flag))
  = required_files_missing s.
Proof.
  intros Hnm Hp. unfold scan_item. rewrite (bool_decide_eq_false_2 _ Hnm).
  destruct flag; [rewrite (Hp eq_refl)|destruct (found p)]; reflexivity.
Qed.

Lemma check_skips st :
  IGNORE_EXISTING cfg = false ->
  (forall a, requested cfg a = true -> artifact_path cfg self a ∈ fs st) ->
  target_video_path self ∈ fs st ->
  _check_existing_outputs w cfg self st = (false, target_video_path self, st).
Proof.
  intros Hign Hall Ht. unfold _check_existing_outputs. cbv zeta.
  set (found := fun p : path => bool_decide (p ∈ fs st)).
  assert (Hfound : forall a, requested cfg a = true ->
                             found (artifact_path cfg self a) = true).
  { intros a Ha. apply bool_decide_eq_true_2, Hall, Ha. }
  set (s := foldl _ _ _).
  assert (Hs : required_files_missing s = [] /\ original_video_in_target s = true
               /\ video_path s = target_video_path self).
  { subst s. unfold output_files_config. cbn [foldl].
    match goal with
    | |- context [scan_item self found ?inner ("Original Video (Moved)", _, _)] =>
      set (s0 := inner)
    end.
    unfold scan_item.
    rewrite (bool_decide_eq_true_2 _ (eq_refl "Original Video (Moved)")).
    unfold found at 1 2 3. rewrite !(bool_decide_eq_true_2 _ Ht).
    cbn [required_files_missing original_video_in_target video_path].
    split; [|now split]. subst s0.
    rewrite !scan_item_present; try discriminate; try reflexivity.
    - apply (Hfound WebpPreview).
    - apply (Hfound WebpSheet).
    - apply (Hfound ImageSheet). }
  destruct Hs as (-> & -> & ->). now rewrite Hign.
Qed.
End Skip.

(** C6 (as the code has it): with the ignore-existing policy disabled, a run
    on a video whose configured artifacts all exist and whose source already
    lies in the output directory ends at once: it returns [false], makes no
    call and changes nothing. *)
Theorem existing_outputs_are_skipped (w : world) (cfg : Config)
    (self : VideoProcessor) (st : state) :
  IGNORE_EXISTING cfg = false ->
  (forall a, requested cfg a = true -> artifact_path cfg self a ∈ fs st) ->
  target_video_path self ∈ fs st ->
  run w cfg self st = (false, st)
  /\ external_calls (drop (length (log st)) (log (run w cfg self st).2)) = [].
Proof.
  intros Hign Hall Ht.
  assert (E : run w cfg self st = (false, st)).
  { unfold run. rewrite bind_eq, (check_skips w cfg self st Hign Hall Ht). reflexivity. }
  split; [exact E|]. rewrite E. cbn [snd]. now rewrite drop_all.
Qed.

Lemma existing_outputs_are_skipped_witness :
  IGNORE_EXISTING keeping = false
  /\ run kind_world keeping job after_first_run = (false, after_first_run)
  /\ external_calls (drop (length (log after_first_run))
                       (log (run kind_world keeping job after_first_run).2)) = [].
Proof.
  assert (H : bool_decide (artifact_path keeping job WebpPreview
                           ∈ elements (fs after_first_run))
              && bool_decide (artifact_path keeping job WebpSheet
                              ∈ elements (fs after_first_run))
              && bool_decide (artifact_path keeping job ImageSheet
                              ∈ elements (fs after_first_run))
              && bool_decide (target_video_path job ∈ elements (fs after_first_run))
              = true) by (vm_compute; reflexivity).
  apply andb_prop in H as [H H4]. apply andb_prop in H as [H H3].
  apply andb_prop in H as [H1 H2].
  apply bool_decide_eq_true_1, elem_of_elements in H1, H2, H3, H4.
  split; [reflexivity|].
  apply (existing_outputs_are_skipped kind_world keeping job after_first_run).
  - reflexivity.
  - intros a _. destruct a; assumption.
  - exact H4.
Defined.

(** All three artifacts exist and the video is still at its original place:
    the user declines the first run's question, which changes nothing, and
    accepts the questions of the second run, which then regenerates
    everything. *)
Lemma declined_then_accepted_counterexample :
  let st1 := (run moody_world keeping job (fresh stale_disk)).2 in
  let r2 := run moody_world keeping job st1 in
  (IGNORE_EXISTING keeping,
   forallb (fun a => bool_decide (artifact_path keeping job a ∈ fs st1))
     [WebpPreview; WebpSheet; ImageSheet],
   r2.1,
   length (external_calls (drop (length (log st1)) (log r2.2))))
  = (false, true, true, 81%nat).
Proof. vm_compute. reflexivity. Qed.



(** * The black-bar toggle and the output paths *)

Lemma decimal_four_digits r :
  (1000 <= Z.of_nat r <= 9999)%Z -> String.length (decimal r) = 4%nat.
Proof.
  assert (H : forallb (fun r => (String.length (decimal r) =? 4)%nat)
                (seq (Z.to_nat 1000) (Z.to_nat 9000))
              = true) by (vm_compute; reflexivity).
  rewrite forallb_forall in H. intros Hr. apply Nat.eqb_eq, H, in_seq. lia.
Qed.

Lemma base_differs f r1 r2 s :
  (1000 <= Z.of_nat r1 <= 9999)%Z -> (1000 <= Z.of_nat r2 <= 9999)%Z ->
  sanitize_filename f r1 s +:+ "_black_bars" <> sanitize_filename f r2 s.
Proof.
  intros H1 H2 E. apply (f_equal String.length) in E. revert E.
  unfold sanitize_filename. cbv zeta.
  destruct (bool_decide _); rewrite !append_length;
    rewrite ?(decimal_four_digits _ H1), ?(decimal_four_digits _ H2);
    cbn [String.length]; lia.
Qed.

Lemma nested_child_differs (d : path) b1 b2 n1 n2 :
  b1 <> b2 -> d // b1 // n1 <> d // b2 // n2.
Proof.
  unfold child. intros Hb E. apply app_inj_tail in E as [E _].
  apply app_inj_tail in E as [_ E]. now apply Hb.
Qed.

Section Blind.
Variable w : world.
Variable cfg : Config.
Variable self : VideoProcessor.
Variable p : path.

Lemma blind_ret {A : Type} (a : A) : blind p (ret a).
Proof. intros st. reflexivity. Qed.

Lemma blind_bind {A B : Type} (m : M A) (k : A -> M B) :
  blind p m -> (forall a, blind p (k a)) -> blind p (bind m k).
Proof. intros Hm Hk st. rewrite !bind_eq, Hm. cbn [fst snd]. apply Hk. Qed.

Lemma blind_ask c : blind p (ask w c).
Proof. intros st. reflexivity. Qed.

Lemma blind_discard f : f <> p -> blind p (discard f).
Proof.
  intros Hf st. unfold discard, plus. cbn [fst snd fs log]. do 2 f_equal.
  apply set_eq. intros q.
  rewrite elem_of_difference, !elem_of_union, elem_of_difference, !elem_of_singleton.
  split; [tauto|]. intros [H| ->]; [tauto|]. split; [now right|].
  intros E. now apply Hf.
Qed.

Lemma delete_existing_blind files :
  Forall (fun f : string * path => f.2 <> p) files ->
  blind p (delete_existing w files).
Proof.
  induction 1 as [|[nm f] files Hp Hf IH]; [apply blind_ret|].
  cbn [delete_existing]. cbn [snd] in Hp.
  apply blind_bind; [apply blind_ask|intros r].
  apply blind_bind; [|intros _; exact IH].
  destruct (is_ok r); [now apply blind_discard|apply blind_ret].
Qed.

Lemma prompt_and_delete_blind files :
  Forall (fun f : string * path => f.2 <> p) files ->
  blind p (prompt_and_delete w files).
Proof.
  induction 1 as [|[nm f] files Hp Hf IH]; [apply blind_ret|].
  cbn [prompt_and_delete]. cbn [snd] in Hp.
  apply blind_bind; [apply blind_ask|intros r].
  destruct r as [| |choice| | | |]; try apply blind_ret.
  destruct (accepts choice); [|apply blind_ret].
  apply blind_bind; [apply blind_ask|intros r].
  destruct (is_ok r); [|apply blind_ret].
  apply blind_bind; [now apply blind_discard|intros _; exact IH].
Qed.

Lemma scan_item_agree found found' s it :
  found' it.1.2 = found it.1.2 ->
  scan_item self found' s it = scan_item self found s it.
Proof. destruct it as [[nm f] flag]. cbn [fst snd]. unfold scan_item. now intros ->. Qed.

Lemma scan_agree found found' items : forall s,
  Forall (fun it : string * path * bool => found' it.1.2 = found it.1.2) items ->
  foldl (scan_item self found') s items = foldl (scan_item self found) s items.
Proof.
  induction items as [|it items IH]; intros s Hf; [reflexivity|].
  inversion Hf as [|? ? Hi Hf']; subst. cbn [foldl].
  now rewrite (scan_item_agree _ _ _ _ Hi), IH.
Qed.

Lemma scan_deletes_watched (R : path -> Prop) found items : forall s,
  Forall (fun it : string * path * bool => R it.1.2) items ->
  Forall (fun f : string * path => R f.2) (files_to_potentially_delete s) ->
  Forall (fun f : string * path => R f.2)
    (files_to_potentially_delete (foldl (scan_item self found) s items)).
Proof.
  induction items as [|[[nm f] flag] items IH]; intros s Hi Hs; cbn [foldl]; [exact Hs|].
  inversion Hi as [|? ? Hp Hi']; subst. apply IH; [exact Hi'|].
  unfold scan_item.
  destruct (found f), (bool_decide (nm = "Original Video (Moved)")), flag;
    cbn; try exact Hs.
  apply Forall_app. split; [exact Hs|]. constructor; [exact Hp|constructor].
Qed.

(** The check neither reads nor touches a path it does not watch. *)
Lemma check_blind :
  p ∉ watched cfg self -> blind p (_check_existing_outputs w cfg self).
Proof.
  intros Hp st.
  assert (Hw : Forall (fun it : string * path * bool => it.1.2 <> p)
                 (output_files_config cfg self)).
  { apply Forall_forall. intros it Hit E. apply Hp. unfold watched.
    rewrite <- E. apply (list_elem_of_fmap_2 (fun it : string * path * bool => it.1.2)).
    exact Hit. }
  unfold _check_existing_outputs. cbv zeta.
  rewrite (scan_agree (fun q => bool_decide (q ∈ fs st))
             (fun q => bool_decide (q ∈ fs (plus p st)))).
  2: { eapply Forall_impl; [exact Hw|]. intros it Hit. cbn beta.
       apply bool_decide_ext. unfold plus. cbn [fs].
       rewrite elem_of_union, elem_of_singleton.
       split; [intros [H|H]; [exact H|now destruct Hit]|now left]. }
  set (s := foldl _ _ _).
  assert (Hdel : Forall (fun f : string * path => f.2 <> p)
                   (files_to_potentially_delete s)).
  { subst s. apply (scan_deletes_watched (fun q => q <> p)); [exact Hw|constructor]. }
  destruct (is_nil (required_files_missing s) && original_video_in_target s
            && negb (IGNORE_EXISTING cfg)); [reflexivity|].
  destruct (IGNORE_EXISTING cfg).
  { apply blind_bind; [now apply delete_existing_blind|intros; apply blind_ret]. }
  destruct (negb (is_nil (required_files_missing s))
            || negb (original_video_in_target s)); [|reflexivity].
  apply blind_bind; [now apply prompt_and_delete_blind|intros; apply blind_ret].
Qed.
End Blind.

Lemma artifact_in_output_dir cfg self a :
  exists ending, artifact_path cfg self a = output_dir self // (base_filename self +:+ ending).
Proof. destruct a; eexists; reflexivity. Qed.

Lemma watched_in_output_dir cfg self :
  Forall (fun q => exists n, q = output_dir self // n) (watched cfg self).
Proof.
  unfold watched, output_files_config. cbn [map fst snd].
  repeat (apply Forall_cons; split;
          [first [ destruct (artifact_in_output_dir cfg self WebpPreview) as [e He];
                   eexists; exact He
                 | destruct (artifact_in_output_dir cfg self WebpSheet) as [e He];
                   eexists; exact He
                 | destruct (artifact_in_output_dir cfg self ImageSheet) as [e He];
                   eexists; exact He
                 | eexists; reflexivity ]|]).
  constructor.
Qed.

Lemma other_directory_unwatched cfg self d b1 b2 n :
  output_dir self = d // b1 -> b1 <> b2 -> d // b2 // n ∉ watched cfg self.
Proof.
  intros Ho Hb Hin.
  pose proof (watched_in_output_dir cfg self) as Hw.
  rewrite Forall_forall in Hw. destruct (Hw _ Hin) as [m Hm].
  rewrite Ho in Hm. symmetry in Hm. revert Hm. now apply nested_child_differs.
Qed.

Lemma init_output_dir f r cfg v :
  output_dir (init f r cfg v) = base_output_dir cfg // base_filename (init f r cfg v).
Proof. reflexivity. Qed.

(** C10: with the padding toggle enabled the base filename ends in
    "_black_bars", and the output directory, the workspace and every
    artifact path are made from that base filename; no artifact path of a
    run with padding is an artifact path of a run on the same video without
    it; and the existing-output check of either run neither sees nor touches
    an artifact of the other. *)
Theorem black_bars_separate_outputs (f : string -> string) (r_on r_off : nat)
    (cfg : Config) (v : path) :
  (1000 <= Z.of_nat r_on <= 9999)%Z ->
  (1000 <= Z.of_nat r_off <= 9999)%Z ->
  let on := with_black_bars true cfg in
  let off := with_black_bars false cfg in
  let padded := init f r_on on v in
  let plain := init f r_off off v in
  base_filename padded = sanitize_filename f r_on (stem v) +:+ "_black_bars"
  /\ base_filename plain = sanitize_filename f r_off (stem v)
  /\ output_dir padded = base_output_dir cfg // base_filename padded
  /\ temp_dir padded = output_dir padded // (base_filename padded +:+ "-temp")
  /\ (forall a, exists ending,
        artifact_path on padded a = output_dir padded // (base_filename padded +:+ ending))
  /\ (forall a a', artifact_path on padded a <> artifact_path off plain a')
  /\ (forall w st a,
        _check_existing_outputs w on padded (plus (artifact_path off plain a) st)
        = ((_check_existing_outputs w on padded st).1,
           plus (artifact_path off plain a) (_check_existing_outputs w on padded st).2))
  /\ (forall w st a,
        _check_existing_outputs w off plain (plus (artifact_path on padded a) st)
        = ((_check_existing_outputs w off plain st).1,
           plus (artifact_path on padded a) (_check_existing_outputs w off plain st).2)).
Proof.
  intros Hon Hoff. cbv zeta.
  set (on := with_black_bars true cfg). set (off := with_black_bars false cfg).
  set (padded := init f r_on on v). set (plain := init f r_off off v).
  assert (Hb : base_filename padded <> base_filename plain).
  { apply (base_differs f r_on r_off (stem v) Hon Hoff). }
  assert (Hd1 : output_dir padded = base_output_dir cfg // base_filename padded)
    by reflexivity.
  assert (Hd2 : output_dir plain = base_output_dir cfg // base_filename plain)
    by reflexivity.
  split; [reflexivity|]. split; [reflexivity|]. split; [exact Hd1|].
  split; [reflexivity|]. split; [apply artifact_in_output_dir|].
  split; [|split].
  - intros a a'.
    destruct (artifact_in_output_dir on padded a) as [e ->].
    destruct (artifact_in_output_dir off plain a') as [e' ->].
    rewrite Hd1, Hd2. now apply nested_child_differs.
  - intros w st a. apply check_blind.
    destruct (artifact_in_output_dir off plain a) as [e ->]. rewrite Hd2.
    apply (other_directory_unwatched on padded _ (base_filename padded)); [exact Hd1|exact Hb].
  - intros w st a. apply check_blind.
    destruct (artifact_in_output_dir on padded a) as [e ->]. rewrite Hd1.
    apply (other_directory_unwatched off plain _ (base_filename plain)); [exact Hd2|].
    intros E. now apply Hb.
Qed.

Lemma black_bars_separate_outputs_witness :
  (1000 <= Z.of_nat 1234 <= 9999)%Z
  /\ (1000 <= Z.of_nat 5678 <= 9999)%Z
  /\ base_filename (init id 1234 (with_black_bars true shipped) clip)
     = sanitize_filename id 1234 (stem clip) +:+ "_black_bars"
  /\ artifact_path (with_black_bars true shipped)
       (init id 1234 (with_black_bars true shipped) clip) WebpSheet
     <> artifact_path (with_black_bars false shipped)
          (init id 5678 (with_black_bars false shipped) clip) WebpSheet.
Proof.
  assert (H1 : (1000 <= Z.of_nat 1234 <= 9999)%Z) by (vm_compute; split; discriminate).
  assert (H2 : (1000 <= Z.of_nat 5678 <= 9999)%Z) by (vm_compute; split; discriminate).
  pose proof (black_bars_separate_outputs id 1234 5678 shipped clip H1 H2) as H.
  cbv zeta in H. split; [exact H1|]. split; [exact H2|].
  split; [exact (proj1 H)|].
  exact (proj1 (proj2 (proj2 (proj2 (proj2 (proj2 H))))) WebpSheet WebpSheet).
Defined.

(** The paths of the two runs on [clip]. *)
Example black_bars_paths :
  (artifact_path (with_black_bars true shipped)
     (init id 1234 (with_black_bars true shipped) clip) WebpPreview,
   artifact_path (with_black_bars false shipped)
     (init id 1234 (with_black_bars false shipped) clip) WebpPreview)
  = (["videos"; "clip_black_bars"; "clip_black_bars_preview.webp"],
     ["videos"; "clip"; "clip_preview.webp"]).
Proof. vm_compute. reflexivity. Qed.


(** * The utility functions *)

Lemma pad2_two_digits n : (n < 100)%nat -> String.length (pad2 n) = 2%nat.
Proof.
  assert (H : forallb (fun n => (String.length (pad2 n) =? 2)%nat) (seq 0 100) = true)
    by (vm_compute; reflexivity).
  rewrite forallb_forall in H. intros Hn. apply Nat.eqb_eq, H, in_seq. lia.
Qed.

(** X1.  [format_duration] prints the number of seconds rounded to the
    nearest one as hours, minutes and seconds; the hours are not wrapped at
    a day, and the text has the eight characters of HH:MM:SS below a hundred
    hours. *)
Theorem format_duration_fields (seconds : Q) :
  (0 <= py_round seconds <= 86399999999999)%Z ->
  format_duration seconds
  = pad2 (Z.to_nat (py_round seconds / 3600)) +:+ ":"
    +:+ pad2 (Z.to_nat ((py_round seconds mod 3600) / 60)) +:+ ":"
    +:+ pad2 (Z.to_nat (py_round seconds mod 60))
  /\ ((py_round seconds < 360000)%Z -> String.length (format_duration seconds) = 8%nat).
Proof.
  intros Ht.
  assert (E : format_duration seconds
              = pad2 (Z.to_nat (py_round seconds / 3600)) +:+ ":"
                +:+ pad2 (Z.to_nat ((py_round seconds mod 3600) / 60)) +:+ ":"
                +:+ pad2 (Z.to_nat (py_round seconds mod 60))).
  { unfold format_duration. cbv zeta. generalize dependent (py_round seconds).
    intros t Ht.
    replace (999999999 <? Z.abs (t / 86400))%Z with false
      by (symmetry; apply Z.ltb_ge; Z.div_mod_to_equations; lia).
    replace ((t mod 86400) mod 3600)%Z with (t mod 3600)%Z
      by (Z.div_mod_to_equations; lia).
    replace ((t mod 3600) mod 60)%Z with (t mod 60)%Z
      by (Z.div_mod_to_equations; lia).
    replace (if (0 <? t / 86400)%Z
             then (t mod 86400 / 3600 + t / 86400 * 24)%Z
             else (t mod 86400 / 3600)%Z) with (t / 3600)%Z.
    - reflexivity.
    - destruct (0 <? t / 86400)%Z eqn:Ed.
      + Z.div_mod_to_equations. lia.
      + apply Z.ltb_ge in Ed. Z.div_mod_to_equations. lia. }
  split; [exact E|]. intros Hs. rewrite E, !append_length, !pad2_two_digits.
  - reflexivity.
  - Z.div_mod_to_equations. lia.
  - Z.div_mod_to_equations. lia.
  - Z.div_mod_to_equations. lia.
Qed.

Lemma format_duration_fields_witness :
  (0 <= py_round 3725.4 <= 86399999999999)%Z
  /\ format_duration 3725.4 = "01:02:05".
Proof.
  assert (H : (0 <= py_round 3725.4 <= 86399999999999)%Z)
    by (vm_compute; split; discriminate).
  split; [exact H|].
  rewrite (proj1 (format_duration_fields 3725.4 H)). vm_compute. reflexivity.
Defined.


Lemma chars_app s t : chars (s +:+ t) = chars s ++ chars t.
Proof.
  induction s as [|c s IH]; [reflexivity|].
  change (chars (String c (s +:+ t)) = chars (String c s) ++ chars t).
  cbn [chars]. now rewrite IH.
Qed.

Lemma chars_rev_app s1 : forall s2,
  chars (String.rev_app s1 s2) = rev (chars s1) ++ chars s2.
Proof.
  induction s1 as [|c s1 IH]; intros s2; [reflexivity|].
  cbn [String.rev_app chars rev]. rewrite IH. cbn [chars]. now rewrite <- app_assoc.
Qed.

Lemma chars_rev s : chars (String.rev s) = rev (chars s).
Proof. unfold String.rev. rewrite chars_rev_app. cbn [chars]. now rewrite app_nil_r. Qed.

Lemma chars_lstrip d s : chars (lstrip d s) = ldrop d (chars s).
Proof.
  induction s as [|c s IH]; [reflexivity|]. cbn [lstrip chars ldrop].
  now destruct (d c).
Qed.

Lemma chars_strip d s : chars (strip d s) = rev (ldrop d (rev (ldrop d (chars s)))).
Proof. unfold strip. now rewrite chars_rev, chars_lstrip, chars_rev, chars_lstrip. Qed.

Lemma chars_inj s t : chars s = chars t -> s = t.
Proof.
  revert t. induction s as [|c s IH]; intros [|c' t] H; try discriminate; [reflexivity|].
  cbn [chars] in H. injection H as -> H. f_equal. now apply IH.
Qed.

Lemma ldrop_suffix d l : exists pre, l = pre ++ ldrop d l.
Proof.
  induction l as [|c l [pre IH]]; [now exists []|]. cbn [ldrop].
  destruct (d c); [|now exists []]. exists (c :: pre). cbn. now rewrite <- IH.
Qed.

Lemma ldrop_head d l c l' : ldrop d l = c :: l' -> d c = false.
Proof.
  induction l as [|a l IH]; [discriminate|]. cbn [ldrop].
  destruct (d a) eqn:E; [exact IH|]. intros H. injection H as <- _. exact E.
Qed.

Lemma ldrop_Forall (P : ascii -> Prop) d l : Forall P l -> Forall P (ldrop d l).
Proof.
  destruct (ldrop_suffix d l) as [pre E]. intros H. rewrite E in H.
  now apply Forall_app in H as [_ H].
Qed.

Lemma strip_middle d s :
  exists pre post, chars s = pre ++ chars (strip d s) ++ post.
Proof.
  rewrite chars_strip.
  destruct (ldrop_suffix d (chars s)) as [pre E1].
  destruct (ldrop_suffix d (rev (ldrop d (chars s)))) as [p2 E2].
  exists pre, (rev p2). rewrite <- rev_app_distr, <- E2, rev_involutive. exact E1.
Qed.

Lemma strip_Forall (P : ascii -> Prop) d s :
  Forall P (chars s) -> Forall P (chars (strip d s)).
Proof.
  destruct (strip_middle d s) as (pre & post & E). intros H. rewrite E in H.
  apply Forall_app in H as [_ H]. now apply Forall_app in H as [H _].
Qed.

Lemma strip_last d s c : last (chars (strip d s)) = Some c -> d c = false.
Proof.
  rewrite chars_strip. destruct (ldrop d (rev _)) as [|a B] eqn:E; [discriminate|].
  cbn [rev]. rewrite last_snoc. intros H. injection H as <-.
  now apply ldrop_head in E.
Qed.

Lemma strip_head d s c : head (chars (strip d s)) = Some c -> d c = false.
Proof.
  rewrite chars_strip.
  destruct (ldrop_suffix d (rev (ldrop d (chars s)))) as [p2 E2].
  assert (E : ldrop d (chars s) = rev (ldrop d (rev (ldrop d (chars s)))) ++ rev p2).
  { now rewrite <- rev_app_distr, <- E2, rev_involutive. }
  destruct (rev (ldrop d (rev (ldrop d (chars s))))) as [|a R]; [discriminate|].
  cbn [head]. intros H. injection H as <-.
  now apply ldrop_head in E.
Qed.

Lemma sub_runs_kept keep s : forall b,
  Forall (fun c => keep c = true \/ c = "_"%char) (chars (sub_runs keep b s)).
Proof.
  induction s as [|c s IH]; intros b; [constructor|]. cbn [sub_runs].
  destruct (keep c) eqn:E; [constructor; auto|].
  destruct b; [apply IH|]. constructor; auto.
Qed.

Lemma sub_runs_Forall (P : ascii -> Prop) keep s : forall b,
  P "_"%char -> Forall P (chars s) -> Forall P (chars (sub_runs keep b s)).
Proof.
  induction s as [|c s IH]; intros b Hu H; [constructor|].
  cbn [chars] in H. inversion H as [|? ? Hc Hs]; subst. cbn [sub_runs].
  destruct (keep c); [constructor; auto|].
  destruct b; [now apply IH|]. constructor; auto.
Qed.

(** Runs of underscores are squeezed. *)
Lemma squeezed_start s l :
  chars (sub_runs (fun c => negb (bool_decide (c = "_"%char))) true s) <> "_"%char :: l.
Proof.
  induction s as [|c s IH]; [discriminate|]. cbn [sub_runs].
  destruct (bool_decide (c = "_"%char)) eqn:E; cbn [negb]; [exact IH|].
  cbn [chars]. intros H. injection H as -> _. discriminate E.
Qed.

Lemma squeezed s : forall b l1 l2,
  chars (sub_runs (fun c => negb (bool_decide (c = "_"%char))) b s)
  <> l1 ++ "_"%char :: "_"%char :: l2.
Proof.
  induction s as [|c s IH]; intros b l1 l2; [now destruct l1|]. cbn [sub_runs].
  destruct (bool_decide (c = "_"%char)) eqn:E; cbn [negb].
  - destruct b; [apply IH|]. cbn [chars]. destruct l1 as [|a l1]; cbn [app].
    + intros H. injection H as H. now apply squeezed_start in H.
    + intros H. injection H as _ H. now apply IH in H.
  - cbn [chars]. destruct l1 as [|a l1]; cbn [app].
    + intros H. injection H as -> _. discriminate E.
    + intros H. injection H as _ H. now apply IH in H.
Qed.

Lemma uint_digits d :
  Forall (fun c => is_digit c = true) (chars (NilEmpty.string_of_uint d)).
Proof. induction d; cbn [NilEmpty.string_of_uint chars]; constructor; auto. Qed.

Lemma decimal_digits n :
  Forall (fun c => is_digit c = true) (chars (decimal n))
  /\ chars (decimal n) <> [].
Proof.
  unfold decimal, NilZero.string_of_uint.
  destruct (Nat.to_uint n) eqn:E; try (split; [apply uint_digits|discriminate]).
  split; [now repeat constructor|discriminate].
Qed.

(** X2.  [sanitize_filename] never returns the empty name; the name it
    returns is made of ASCII letters, digits, underscores, dots and hyphens
    only, neither begins nor ends with an underscore or a dot, and holds no
    two underscores in a row. *)
Theorem sanitize_filename_safe (ascii_fold : string -> string) (rnd : nat)
    (filename : string) :
  let r := chars (sanitize_filename ascii_fold rnd filename) in
  r <> []
  /\ Forall (fun c => safe_char c = true) r
  /\ (forall c, head r = Some c -> edge_char c = false)
  /\ (forall c, last r = Some c -> edge_char c = false)
  /\ (forall l1 l2, r <> l1 ++ "_"%char :: "_"%char :: l2).
Proof.
  cbv zeta. unfold sanitize_filename. cbv zeta.
  set (s1 := sub_runs _ false (ascii_fold filename)).
  set (s2 := sub_runs _ false s1).
  set (d := fun c => bool_decide (c = "_"%char) || bool_decide (c = "."%char)).
  destruct (bool_decide (strip d s2 = EmptyString)) eqn:E.
  - rewrite chars_app. destruct (decimal_digits rnd) as [Hd Hn].
    set (ds := chars (decimal rnd)) in *.
    assert (Hu : forall i, ds !! i <> Some "_"%char).
    { intros i Hi. rewrite Forall_forall in Hd.
      apply list_elem_of_lookup_2 in Hi. apply Hd in Hi. discriminate Hi. }
    split; [discriminate|]. split; [|split; [|split]].
    + apply Forall_app. split; [now repeat constructor|].
      eapply Forall_impl; [exact Hd|]. intros c Hc. unfold safe_char, is_word.
      now rewrite Hc, !orb_true_r.
    + intros c H. injection H as <-. reflexivity.
    + intros c. rewrite last_app. destruct (last ds) as [x|] eqn:El.
      * intros H. injection H as <-. rewrite Forall_forall in Hd.
        assert (Hx : is_digit x = true).
        { apply Hd. rewrite last_lookup in El. now apply list_elem_of_lookup_2 in El. }
        unfold edge_char. destruct (bool_decide (x = "_"%char)) eqn:E1;
          [apply bool_decide_eq_true_1 in E1; subst; discriminate Hx|].
        destruct (bool_decide (x = "."%char)) eqn:E2;
          [apply bool_decide_eq_true_1 in E2; subst; discriminate Hx|reflexivity].
      * apply last_None in El. contradiction.
    + intros l1 l2 H.
      assert (H1 : (chars "sanitized_" ++ ds) !! length l1 = Some "_"%char)
        by (rewrite H; now apply list_lookup_middle).
      assert (H2 : (chars "sanitized_" ++ ds) !! S (length l1) = Some "_"%char).
      { rewrite H. change (l1 ++ "_"%char :: "_"%char :: l2)
          with (l1 ++ ["_"%char] ++ "_"%char :: l2).
        rewrite app_assoc. replace (S (length l1)) with (length (l1 ++ ["_"%char]))
          by (rewrite length_app; cbn; lia).
        now apply list_lookup_middle. }
      do 9 (destruct l1 as [|? l1]; [discriminate H1|]).
      destruct l1 as [|? l1]; [now apply (Hu 0%nat)|].
      now apply (Hu (length l1)).
  - apply bool_decide_eq_false_1 in E.
    assert (Hs1 : Forall (fun c => safe_char c = true) (chars s1)).
    { eapply Forall_impl; [apply sub_runs_kept|]. intros c [H| ->]; [exact H|reflexivity]. }
    assert (Hs2 : Forall (fun c => safe_char c = true) (chars s2)).
    { apply sub_runs_Forall; [reflexivity|exact Hs1]. }
    split; [|split; [|split; [|split]]].
    + intros H. apply E, chars_inj. exact H.
    + now apply strip_Forall.
    + intros c H. now apply (strip_head d s2).
    + intros c H. now apply (strip_last d s2).
    + intros l1 l2 H. destruct (strip_middle d s2) as (pre & post & Em).
      rewrite H in Em. apply (squeezed s1 false (pre ++ l1) (l2 ++ post)).
      fold s2. rewrite Em, <- !app_assoc. reflexivity.
Qed.


(** * Probing the video *)

(** X3.  [_get_metadata] never changes the file system; it rejects a video
    that is not on disk without a call; and it accepts a video only after
    exactly two probes, when the rotation probe reported no rotation and the
    format probe a video stream with a non-zero width and height and a codec
    other than MSMPEG4V3; the duration is then the one of the format section
    and the video is vertical when it is higher than wide. *)
Theorem get_metadata_accepts (w : world) (v : path) (st : state) :
  let r := _get_metadata w v st in
  fs r.2 = fs st
  /\ (v ∉ fs st -> r = (None, st))
  /\ (forall md, r.1 = Some md ->
        exists rot data vs,
          log r.2 = log st ++ [(ProbeRotation v, rot); (ProbeFormat v, Streams data)]
          /\ (forall t, rot = Text t ->
                t = EmptyString \/ strip is_space t = "0"
                \/ strip is_space t = EmptyString)
          /\ video_stream data = Some vs
          /\ width vs <> 0%Z /\ height vs <> 0%Z
          /\ upper (codec_name vs) <> "MSMPEG4V3"
          /\ duration md = format_duration_field data
          /\ is_vertical md = (width vs <? height vs)%Z).
Proof.
  cbv zeta. unfold _get_metadata. rewrite bind_eq. cbn [present fst snd].
  destruct (bool_decide (v ∈ fs st)) eqn:Ev; cbn [negb].
  2: { split; [reflexivity|]. split; [reflexivity|]. intros md H. discriminate H. }
  apply bool_decide_eq_true_1 in Ev.
  rewrite bind_eq. cbn [ask fst snd].
  set (rot := w (log st) (ProbeRotation v)).
  set (st1 := {| fs := fs st; log := log st ++ [(ProbeRotation v, rot)] |}).
  set (rotated := match rot with Text t => _ | _ => false end).
  destruct rotated eqn:Er.
  { split; [reflexivity|]. split; [now intros H|]. intros md H. discriminate H. }
  rewrite bind_eq. cbn [ask fst snd].
  set (r := w (log st1) (ProbeFormat v)).
  assert (Hlog : log st1 ++ [(ProbeFormat v, r)]
                 = log st ++ [(ProbeRotation v, rot); (ProbeFormat v, r)]).
  { cbn [st1 log]. now rewrite <- app_assoc. }
  destruct r as [| | | | |data|] eqn:Edata;
    try (split; [reflexivity|]; split; [now intros H|]; intros md H; discriminate H).
  destruct (video_stream data) as [vs|] eqn:Evs;
    [|split; [reflexivity|]; split; [now intros H|]; intros md H; discriminate H].
  destruct (bool_decide (width vs = 0%Z)) eqn:Ew; cbn [orb];
    [split; [reflexivity|]; split; [now intros H|]; intros md H; discriminate H|].
  destruct (bool_decide (height vs = 0%Z)) eqn:Eh;
    [split; [reflexivity|]; split; [now intros H|]; intros md H; discriminate H|].
  destruct (bool_decide (upper (codec_name vs) = "MSMPEG4V3")) eqn:Ec;
    [split; [reflexivity|]; split; [now intros H|]; intros md H; discriminate H|].
  split; [reflexivity|]. split; [now intros H|].
  intros md H. cbn [ret fst snd] in H |- *. injection H as <-.
  exists rot, data, vs. split; [exact Hlog|].
  apply bool_decide_eq_false_1 in Ew, Eh, Ec.
  split; [|now repeat split].
  intros t Ht. subst rotated. rewrite Ht in Er.
  destruct (bool_decide (t = EmptyString)) eqn:E1;
    [left; now apply bool_decide_eq_true_1 in E1|].
  destruct (bool_decide (strip is_space t = "0")) eqn:E2;
    [right; left; now apply bool_decide_eq_true_1 in E2|].
  destruct (bool_decide (strip is_space t = EmptyString)) eqn:E3;
    [right; right; now apply bool_decide_eq_true_1 in E3|].
  discriminate Er.
Qed.


(** * Deleting existing outputs *)

Lemma emits_ask w c : emits (ask w c) (fun r new => new = [(c, r)]).
Proof. intros st. now exists [(c, w (log st) c)]. Qed.

Lemma emits_still {A : Type} (m : M A) :
  (forall st, log (m st).2 = log st) -> emits m (fun _ new => new = []).
Proof. intros H st. exists []. now rewrite H, app_nil_r. Qed.

Lemma consented_nil : consented [].
Proof. intros i p r H. discriminate H. Qed.

Lemma consented_app l1 l2 : consented l1 -> consented l2 -> consented (l1 ++ l2).
Proof.
  intros H1 H2 i p r Hi.
  destruct (decide (i < length l1)%nat) as [Hlt|Hge].
  - rewrite lookup_app_l in Hi by exact Hlt.
    destruct (H1 i p r Hi) as (j & q & t & -> & Hj & Ht).
    exists j, q, t. split; [reflexivity|]. split; [|exact Ht].
    rewrite lookup_app_l; [exact Hj|]. apply lookup_lt_Some in Hj. exact Hj.
  - rewrite lookup_app_r in Hi by lia.
    destruct (H2 _ p r Hi) as (j & q & t & Hij & Hj & Ht).
    exists (length l1 + j)%nat, q, t. split; [lia|]. split; [|exact Ht].
    rewrite lookup_app_r by lia. replace (length l1 + j - length l1)%nat with j by lia.
    exact Hj.
Qed.

Lemma consented_question q r : consented [(Input q, r)].
Proof. intros [|[|i]] p r' H; discriminate H. Qed.

Lemma consented_deletion q t p r :
  accepts t = true -> consented [(Input q, Text t); (Unlink p, r)].
Proof.
  intros Ht [|[|i]] p' r' H; try discriminate H.
  exists 0%nat, q, t. now repeat split.
Qed.

Section Consent.
Variable w : world.
Variable cfg : Config.
Variable self : VideoProcessor.

Lemma delete_existing_emits files :
  emits (delete_existing w files) (fun _ new => deletes_only files new).
Proof.
  induction files as [|[nm f] files IH]; [apply emits_ret; constructor|].
  cbn [delete_existing].
  eapply emits_bind; [apply emits_ask|]. intros r n1 ->.
  eapply emits_bind.
  { apply (emits_still (if is_ok r then discard f else ret tt)).
    intros st. now destruct (is_ok r). }
  intros _ n2 ->. eapply emits_impl; [|apply IH].
  intros ? n3 H. cbn [app]. constructor.
  - exists (nm, f). split; [apply list_elem_of_here|reflexivity].
  - eapply Forall_impl; [exact H|]. intros e (f' & Hf & He). exists f'.
    split; [now apply list_elem_of_further|exact He].
Qed.

Lemma deletes_among_question files q r : deletes_among files [(Input q, r)].
Proof. intros p r' H. apply list_elem_of_singleton in H. discriminate H. Qed.

Lemma prompt_and_delete_emits files :
  emits (prompt_and_delete w files)
    (fun _ new => consented new /\ deletes_among files new).
Proof.
  induction files as [|[nm f] files IH];
    [apply emits_ret; split; [apply consented_nil|intros p r H; now apply elem_of_nil in H]|].
  cbn [prompt_and_delete].
  eapply emits_bind; [apply emits_ask|]. intros r n1 ->.
  destruct r as [| |choice| | | |];
    try (apply emits_ret; rewrite app_nil_r; split;
         [apply consented_question|apply deletes_among_question]).
  destruct (accepts choice) eqn:Ea;
    [|apply emits_ret; rewrite app_nil_r; split;
      [apply consented_question|apply deletes_among_question]].
  eapply emits_bind; [apply emits_ask|]. intros r n2 ->.
  assert (Hd : deletes_among ((nm, f) :: files)
                 [(Input ("  Existing '" +:+ nm +:+ "' found: '" +:+ name f
                          +:+ "'. Delete before regenerating? (yes/no): "),
                   Text choice); (Unlink f, r)]).
  { intros p r' H. apply elem_of_cons in H as [H|H]; [discriminate H|].
    apply list_elem_of_singleton in H. injection H as -> _.
    exists (nm, f). split; [apply list_elem_of_here|reflexivity]. }
  destruct (is_ok r).
  - eapply emits_bind; [apply (emits_still (discard f)); reflexivity|].
    intros _ n3 ->. eapply emits_impl; [|apply IH].
    intros ? n4 [Hc Hm]. cbn [app]. split.
    + apply (consented_app [_; _] n4); [now apply consented_deletion|exact Hc].
    + intros p r' H. apply elem_of_cons in H as [H|H]; [discriminate H|].
      apply elem_of_cons in H as [H|H].
      * injection H as -> _. exists (nm, f). split; [apply list_elem_of_here|reflexivity].
      * destruct (Hm p r' H) as (f' & Hf & ->). exists f'.
        split; [now apply list_elem_of_further|reflexivity].
  - apply emits_ret. rewrite app_nil_r. cbn [app].
    split; [now apply consented_deletion|exact Hd].
Qed.

(** What the scan marks for deletion. *)
Lemma scan_deletes_marked (R : path -> Prop) found items : forall s,
  (forall nm p, (nm, p, true) ∈ items -> nm <> "Original Video (Moved)" ->
                found p = true -> R p) ->
  Forall (fun f : string * path => R f.2) (files_to_potentially_delete s) ->
  Forall (fun f : string * path => R f.2)
    (files_to_potentially_delete (foldl (scan_item self found) s items)).
Proof.
  induction items as [|[[nm f] flag] items IH]; intros s Hi Hs; cbn [foldl]; [exact Hs|].
  apply IH; [intros nm' p Hin; apply Hi; now apply list_elem_of_further|].
  unfold scan_item.
  destruct (found f) eqn:Ef, (bool_decide (nm = "Original Video (Moved)")) eqn:En,
    flag eqn:Eg; cbn; try exact Hs.
  apply Forall_app. split; [exact Hs|]. constructor; [|constructor]. cbn.
  apply (Hi nm f); [apply list_elem_of_here| |exact Ef].
  now apply bool_decide_eq_false_1 in En.
Qed.
End Consent.

(** X4.  The existing-output check deletes nothing but configured artifacts
    that were on disk when it started.  With the ignore-existing policy
    disabled every deletion directly follows a question the user accepted;
    with the policy enabled the check asks nothing and always lets the run
    go on. *)
Theorem existing_outputs_deleted_with_consent (w : world) (cfg : Config)
    (self : VideoProcessor) (st : state) :
  let r := _check_existing_outputs w cfg self st in
  exists new,
    log r.2 = log st ++ new
    /\ (forall p resp, ((Unlink p, resp) : entry) ∈ new ->
          p ∈ fs st
          /\ exists a, requested cfg a = true /\ p = artifact_path cfg self a)
    /\ (IGNORE_EXISTING cfg = false -> consented new)
    /\ (IGNORE_EXISTING cfg = true ->
          r.1.1 = true /\ forall q resp, ((Input q, resp) : entry) ∉ new).
Proof.
  cbv zeta. unfold _check_existing_outputs. cbv zeta.
  set (found := fun p : path => bool_decide (p ∈ fs st)).
  set (R := fun p : path =>
              p ∈ fs st /\ exists a, requested cfg a = true /\ p = artifact_path cfg self a).
  set (s := foldl _ _ _).
  assert (Hdel : Forall (fun f : string * path => R f.2) (files_to_potentially_delete s)).
  { subst s. apply (scan_deletes_marked self R); [|constructor].
    intros nm p Hin Hnm Hf. split; [now apply bool_decide_eq_true_1 in Hf|].
    unfold output_files_config in Hin.
    repeat (apply elem_of_cons in Hin as [Hin|Hin]);
      [injection Hin as _ -> Hc; now exists WebpPreview
      |injection Hin as _ -> Hc; now exists WebpSheet
      |injection Hin as _ -> Hc; now exists ImageSheet
      |injection Hin as -> _; now destruct Hnm
      |now apply elem_of_nil in Hin]. }
  rewrite Forall_forall in Hdel.
  assert (Hnil : (forall p resp, ((Unlink p, resp) : entry) ∈ [] -> R p)
                 /\ (IGNORE_EXISTING cfg = false -> consented [])).
  { split; [intros p resp H; now apply elem_of_nil in H|intros _; apply consented_nil]. }
  destruct (is_nil (required_files_missing s) && original_video_in_target s
            && negb (IGNORE_EXISTING cfg)) eqn:Eskip.
  { exists []. cbn [fst snd]. rewrite app_nil_r. split; [reflexivity|].
    split; [apply Hnil|]. split; [apply Hnil|]. intros Hi. rewrite Hi in Eskip.
    now rewrite andb_false_r in Eskip. }
  destruct (IGNORE_EXISTING cfg) eqn:Ei.
  { rewrite bind_eq.
    destruct (delete_existing_emits w (files_to_potentially_delete s) st)
      as (new & Hl & Hd).
    exists new. cbn [ret fst snd]. split; [exact Hl|]. unfold deletes_only in Hd.
    rewrite Forall_forall in Hd.
    split; [|split; [discriminate|]].
    - intros p resp Hin. destruct (Hd _ Hin) as (f & Hf & He). cbn in He.
      injection He as ->. now apply Hdel.
    - intros _. split; [reflexivity|]. intros q resp Hin.
      destruct (Hd _ Hin) as (f & Hf & He). discriminate He. }
  destruct (negb (is_nil (required_files_missing s))
            || negb (original_video_in_target s)).
  { rewrite bind_eq.
    destruct (prompt_and_delete_emits w (files_to_potentially_delete s) st)
      as (new & Hl & Hc & Hd).
    exists new. cbn [ret fst snd]. split; [exact Hl|].
    split; [|split; [now intros _|discriminate]].
    intros p resp Hin. destruct (Hd _ _ Hin) as (f & Hf & ->). now apply Hdel. }
  exists []. cbn [fst snd]. rewrite app_nil_r. split; [reflexivity|].
  split; [apply Hnil|]. split; [apply Hnil|discriminate].
Qed.


(** * What a run leaves alone *)

Section Frame.
Variable w : world.
Variable cfg : Config.
Variable self : VideoProcessor.

Lemma check_video_path_cases st :
  (_check_existing_outputs w cfg self st).1.2 = original_video_path self
  \/ (_check_existing_outputs w cfg self st).1.2 = target_video_path self.
Proof.
  unfold _check_existing_outputs. cbv zeta.
  set (s := foldl _ _ _).
  assert (Hs : video_path s = original_video_path self
               \/ video_path s = target_video_path self).
  { subst s. unfold output_files_config. cbn [foldl].
    set (found := fun p : path => bool_decide (p ∈ fs st)).
    match goal with
    | |- context [scan_item self found ?inner ("Original Video (Moved)", _, _)] =>
      set (s0 := inner)
    end.
    unfold scan_item.
    rewrite (bool_decide_eq_true_2 _ (eq_refl "Original Video (Moved)")).
    destruct (found (target_video_path self)); cbn [andb negb video_path];
      [now right|now left]. }
  repeat match goal with
         | |- context [if ?b then _ else _] => destruct b
         end; try rewrite !bind_eq; exact Hs.
Qed.

Lemma run_footprint : footprint anything (own self) (run w cfg self).
Proof.
  rewrite run_finish.
  apply (footprint_bind_yields _ _ _ _
           (fun x : bool * path =>
              x.2 = original_video_path self \/ x.2 = target_video_path self)).
  { apply (footprint_weaken check_calls _ (inside self) _);
      [now intros|now left|apply check_existing_footprint]. }
  { intros st. apply check_video_path_cases. }
  intros [should v] Hv. cbn [snd] in Hv.
  assert (Hown : own self v).
  { destruct Hv as [-> | ->]; [now right|left; apply inside_target]. }
  destruct should; cbn [negb]; [|apply footprint_ret].
  apply footprint_bind; [now apply footprint_ask|intros r].
  destruct (is_ok r); cbn [negb]; [|apply footprint_ret].
  apply footprint_bind; [apply footprint_create; left; apply inside_output_dir|intros _].
  apply footprint_bind.
  - destruct (negb (bool_decide (v = target_video_path self))); [|apply footprint_ret].
    apply footprint_bind; [apply footprint_present|intros found].
    destruct (negb found); [apply footprint_ret|].
    apply footprint_bind; [now apply footprint_ask|intros r2].
    destruct (is_ok r2); [|apply footprint_ret].
    apply footprint_bind; [now apply footprint_discard|intros _].
    apply footprint_bind; [apply footprint_create; left; apply inside_target|intros _].
    apply footprint_ret.
  - intros [v'|]; [|apply footprint_ret].
    apply (footprint_weaken anything _ (inside self) _);
      [now intros|now left|apply finish_roams].
Qed.
End Frame.

(** X5.  A run changes nothing outside its output directory, its workspace
    and the place of the source video: any other path exists after the run
    exactly when it existed before. *)
Theorem run_touches_own_paths (w : world) (cfg : Config) (self : VideoProcessor)
    (st : state) (p : path) :
  ~ inside self p ->
  p <> original_video_path self ->
  p ∈ fs (run w cfg self st).2 <-> p ∈ fs st.
Proof.
  intros Hi Hp. destruct (run_footprint w cfg self st) as [_ H].
  apply H. intros [Ho|Ho]; [now apply Hi|now apply Hp].
Qed.

Lemma run_touches_own_paths_witness :
  ~ inside job (FONT_PATH shipped)
  /\ FONT_PATH shipped <> original_video_path job
  /\ (FONT_PATH shipped ∈ fs (run kind_world shipped job (fresh fresh_disk)).2
      <-> FONT_PATH shipped ∈ fs (fresh fresh_disk)).
Proof.
  assert (H1 : ~ inside job (FONT_PATH shipped)).
  { intros [[k Hk]|[k Hk]]; vm_compute in Hk; discriminate Hk. }
  assert (H2 : FONT_PATH shipped <> original_video_path job) by discriminate.
  split; [exact H1|]. split; [exact H2|].
  exact (run_touches_own_paths kind_world shipped job (fresh fresh_disk)
           (FONT_PATH shipped) H1 H2).
Defined.


(** * The segments handed to the builders *)

Section Lengths.
Variable w : world.
Variable cfg : Config.
Variable self : VideoProcessor.

Lemma segment_step_bounded v md acc i start :
  counts (segment_step w cfg self v md acc i start) (grows_by_one acc).
Proof.
  unfold segment_step, grows_by_one.
  destruct (Qle_bool (duration md) start);
    [apply counts_ret; split; [apply grows_refl|lia]|].
  destruct (Qle_bool _ 0.01); [apply counts_ret; split; [apply grows_refl|lia]|].
  eapply counts_bind; [apply counts_ask|]. intros r n1 ->. cbn [is_verification].
  eapply counts_bind.
  { instantiate (1 := fun b n => n = if b then 1%nat else 0%nat).
    destruct (is_ok r); [apply verify_segment_counts|now apply counts_ret]. }
  intros verified n2 ->. destruct verified.
  - eapply counts_bind; [apply counts_still; reflexivity|]. intros _ n3 ->.
    eapply counts_bind.
    { instantiate (1 := fun _ n => n = 0%nat).
      destruct (bool_decide (TIMESTAMPS_MODE cfg = 1%nat)
                || bool_decide (TIMESTAMPS_MODE cfg = 2%nat));
        [|now apply counts_ret].
      eapply counts_bind.
      - eapply (footprint_counts overlay_calls); [|apply overlay_only, inside_overlay].
        now intros [].
      - intros o n ->. destruct o; [destruct (bool_decide _)|]; now apply counts_ret. }
    intros [p1 p2] n4 ->. apply counts_ret. unfold grows. cbn.
    rewrite !length_app. cbn. lia.
  - eapply counts_bind; [apply counts_still; reflexivity|]. intros _ n3 ->.
    eapply counts_bind; [apply counts_still; reflexivity|]. intros _ n4 ->.
    apply counts_ret. unfold grows. cbn. lia.
Qed.

Lemma segments_loop_bounded v md cuts : forall i acc,
  counts (segments_loop w cfg self v md i cuts acc)
    (fun acc' n => grows acc acc' n /\ (n <= length cuts)%nat).
Proof.
  induction cuts as [|s cuts IH]; intros i acc; cbn [segments_loop].
  - apply counts_ret. split; [apply grows_refl|cbn; lia].
  - eapply counts_bind; [apply segment_step_bounded|].
    intros acc1 n1 [H1 Hb1]. eapply counts_impl; [|apply IH].
    intros acc2 n2 [H2 Hb2]. unfold grows in *. cbn [length]. lia.
Qed.
End Lengths.

(** X6.  The extractor hands on two lists of the same length, one path per
    segment that passed verification and never more than one per cut point;
    when the video is not on disk it returns two empty lists without a
    call. *)
Theorem segments_match_verifications (w : world) (cfg : Config)
    (self : VideoProcessor) (v : path) (md : metadata) (cuts : list Q) (st : state) :
  let r := _generate_segments w cfg self v md cuts st in
  (exists new,
     log r.2 = log st ++ new
     /\ length r.1.1 = verified_segments new
     /\ length r.1.2 = verified_segments new
     /\ (verified_segments new <= length cuts)%nat)
  /\ (v ∉ fs st -> r = ([], [], st)).
Proof.
  cbv zeta. split.
  - assert (H : counts (_generate_segments w cfg self v md cuts)
                  (fun r n => length r.1 = n /\ length r.2 = n /\ (n <= length cuts)%nat)).
    { unfold _generate_segments. cbv zeta.
      eapply counts_bind; [apply counts_still; reflexivity|]. intros found n0 ->.
      destruct found; cbn [negb]; [|apply counts_ret; cbn; lia].
      eapply counts_bind; [apply segments_loop_bounded|].
      intros acc n ((Hg & Hv & Ht) & Hb). cbn in Hg, Hv, Ht.
      destruct (bool_decide (segments_generated acc = 0%nat)) eqn:E; cbn [andb].
      - apply bool_decide_eq_true_1 in E.
        destruct (0 <? length cuts)%nat; apply counts_ret; cbn; lia.
      - apply counts_ret. cbn. lia. }
    destruct (H st) as (new & Hl & H1 & H2 & H3). exists new. auto.
  - intros Hv. unfold _generate_segments. cbv zeta. rewrite bind_eq.
    cbn [present fst snd]. now rewrite (bool_decide_eq_false_2 _ Hv).
Qed.


(** * A segment count of zero *)

Lemma yields_ret {A : Type} (a : A) (R : A -> Prop) : R a -> yields (ret a) R.
Proof. intros H st. exact H. Qed.

Lemma yields_bind {A B : Type} (m : M A) (k : A -> M B) (R : B -> Prop) :
  (forall a, yields (k a) R) -> yields (bind m k) R.
Proof. intros Hk st. rewrite bind_eq. apply Hk. Qed.

Lemma yields_bind_from {A B : Type} (m : M A) (k : A -> M B) (R1 : A -> Prop)
    (R : B -> Prop) :
  yields m R1 -> (forall a, R1 a -> yields (k a) R) -> yields (bind m k) R.
Proof. intros Hm Hk st. rewrite bind_eq. apply Hk, Hm. Qed.

Section Zero.
Variable w : world.
Variable cfg : Config.
Variable self : VideoProcessor.
Hypothesis Hzero : NUM_OF_SEGMENTS cfg = 0%nat.

Lemma plan_nothing md :
  yields (_generate_cut_points w cfg md) (fun planned => planned = Returns []).
Proof.
  unfold _generate_cut_points, plan_cut_points. rewrite Hzero.
  destruct (negb (Qltb 0 (duration md))); [now apply yields_ret|].
  cbn [cut_points_loop Nat.ltb Nat.leb negb length].
  destruct (CONFIRM_CUT_POINTS_REQUIRED cfg); [|now apply yields_ret].
  apply yields_bind. intros r. destruct r as [| |t| | | |]; try now apply yields_ret.
  destruct (accepts t); now apply yields_ret.
Qed.

Lemma process_nothing v md :
  yields (process w cfg self v md) (fun r => r = Returns false).
Proof.
  unfold process. cbv zeta.
  eapply yields_bind_from; [apply plan_nothing|]. intros planned ->.
  cbn [is_nil]. now apply yields_ret.
Qed.

Lemma run_nothing : yields (run w cfg self) (fun ok => ok = false).
Proof.
  rewrite run_finish. apply yields_bind. intros [should v].
  destruct should; cbn [negb]; [|now apply yields_ret].
  apply yields_bind. intros r.
  destruct (is_ok r); cbn [negb]; [|now apply yields_ret].
  apply yields_bind. intros _. apply yields_bind. intros [v'|]; [|now apply yields_ret].
  unfold finish. apply yields_bind. intros r2.
  destruct (is_ok r2); cbn [negb]; [|now apply yields_ret].
  apply yields_bind. intros _. apply yields_bind. intros [md|]; [|now apply yields_ret].
  cbv zeta. destruct (Qle_bool (duration md) 10); [now apply yields_ret|].
  eapply yields_bind_from; [apply process_nothing|]. intros result ->.
  apply yields_bind. intros _. now apply yields_ret.
Qed.
End Zero.

(** X7.  With a segment count of zero the planner returns no cut point,
    whatever the duration, the blacklist and the user's answer, and every run
    fails. *)
Theorem zero_segments_never_succeed (w : world) (cfg : Config)
    (self : VideoProcessor) (md : metadata) (st : state) :
  NUM_OF_SEGMENTS cfg = 0%nat ->
  (_generate_cut_points w cfg md st).1 = Returns []
  /\ (run w cfg self st).1 = false.
Proof.
  intros Hz. split; [apply (plan_nothing w cfg Hz md st)|].
  apply (run_nothing w cfg self Hz st).
Qed.

Lemma zero_segments_never_succeed_witness :
  NUM_OF_SEGMENTS (with_segment_count 0 shipped) = 0%nat
  /\ (run kind_world (with_segment_count 0 shipped) job (fresh fresh_disk)).1 = false.
Proof.
  assert (H : NUM_OF_SEGMENTS (with_segment_count 0 shipped) = 0%nat) by reflexivity.
  split; [exact H|].
  exact (proj2 (zero_segments_never_succeed kind_world
                  (with_segment_count 0 shipped) job two_minutes
                  (fresh fresh_disk) H)).
Defined.


Open Scope Q_scope.

(** * The margins of the cut points *)

Lemma within_nil lo hi : within lo hi [].
Proof. constructor. Qed.

Lemma set_add_within lo hi x s :
  within lo hi s -> lo <= x -> x <= hi -> within lo hi (set_add x s).
Proof.
  intros H Hl Hh. unfold set_add. destruct (Qmem x s); [exact H|].
  apply Forall_app. split; [exact H|]. now repeat constructor.
Qed.

Lemma add_inner_point_within BL lo hi cs ce step points i :
  lo <= cs -> cs + 0.001 <= ce -> ce <= hi ->
  within lo hi points -> within lo hi (add_inner_point BL cs ce step points i).
Proof.
  intros Hlo Hgap Hhi H. unfold add_inner_point. cbv zeta.
  set (p := round3 _). destruct (Qmem _ BL); [exact H|].
  apply set_add_within; [exact H| |].
  - destruct (py_max_cases (cs + 0.001) (py_min (ce - 0.001) p)) as [[-> _]|[-> Hlt]]; lra.
  - destruct (py_max_cases (cs + 0.001) (py_min (ce - 0.001) p)) as [[-> _]|[-> Hlt]];
      [lra|].
    destruct (py_min_cases (ce - 0.001) p) as [[-> _]|[-> Hlt']]; lra.
Qed.

Lemma inner_points_within BL lo hi cs ce step l : forall points,
  lo <= cs -> cs + 0.001 <= ce -> ce <= hi ->
  within lo hi points ->
  within lo hi (fold_left (add_inner_point BL cs ce step) l points).
Proof.
  induction l as [|i l IH]; intros points Hlo Hgap Hhi H; cbn [fold_left]; [exact H|].
  apply IH; try assumption. now apply add_inner_point_within.
Qed.

Section Margins.
Variable N : nat.
Variable BL : list Q.
Variables lo hi : Q.

Lemma cut_points_loop_within retries : forall start_pct end_pct,
  milli start_pct -> milli end_pct ->
  lo <= start_pct -> start_pct < end_pct -> end_pct <= hi ->
  planned_within lo hi (cut_points_loop N BL retries start_pct end_pct).
Proof.
  induction retries as [|retries IH]; intros s e Hms Hme Hs Hse He;
    cbn [cut_points_loop]; [apply within_nil|].
  destruct (negb (0 <? N)%nat); [apply within_nil|]. cbv zeta.
  pose proof (round3_milli _ Hms) as Hrs. pose proof (round3_milli _ Hme) as Hre.
  assert (Hnudge : forall d, milli d -> 0 < d ->
            planned_within lo hi
              (if Qle_bool (e - d) (s + d) then Exits []
               else cut_points_loop N BL retries (s + d) (e - d))).
  { intros d Hmd Hd. destruct (Qle_bool (e - d) (s + d)) eqn:E; [apply within_nil|].
    apply IH.
    - now apply milli_plus.
    - now apply milli_minus.
    - lra.
    - apply Qnot_le_lt. intros H. apply Qle_bool_iff in H. congruence.
    - lra. }
  assert (Hfinal : forall points, within lo hi points ->
            planned_within lo hi
              (if (length points <? N)%nat
               then if Qle_bool (e - 0.005) (s + 0.005) then Exits []
                    else cut_points_loop N BL retries (s + 0.005) (e - 0.005)
               else Falls (sorted points))).
  { intros points Hw. destruct (length points <? N)%nat.
    - apply (Hnudge 0.005); [apply milli_0005|reflexivity].
    - now apply sorted_Forall. }
  assert (Hws : within lo hi [round3 s]).
  { repeat constructor; rewrite Hrs; lra. }
  assert (Hwe : within lo hi [round3 e]).
  { repeat constructor; rewrite Hre; lra. }
  remember (2 <=? N)%nat as big eqn:E2. symmetry in E2.
  destruct (Qmem s BL) eqn:Es; destruct (Qmem e BL) eqn:Ee.
  - (* no boundary left *)
    cbn [length Nat.ltb Nat.leb andb]. destruct big; cbn [andb set_min].
    + apply (Hnudge 0.01); [apply milli_001|reflexivity].
    + exact I.
  - (* the end boundary alone *)
    change (set_add (round3 e) []) with [round3 e].
    cbn [length Nat.ltb Nat.leb andb]. destruct big; cbn [andb].
    + apply (Hnudge 0.01); [apply milli_001|reflexivity].
    + cbn [set_min set_max fold_left length].
      replace (0 <? Z.of_nat N - Z.of_nat 1)%Z with false.
      * now apply Hfinal.
      * symmetry. apply Z.ltb_ge. apply Nat.leb_gt in E2. lia.
  - (* the start boundary alone *)
    change (set_add (round3 s) []) with [round3 s].
    cbn [length Nat.ltb Nat.leb andb]. destruct big; cbn [andb].
    + apply (Hnudge 0.01); [apply milli_001|reflexivity].
    + cbn [set_min set_max fold_left length].
      replace (0 <? Z.of_nat N - Z.of_nat 1)%Z with false.
      * now apply Hfinal.
      * symmetry. apply Z.ltb_ge. apply Nat.leb_gt in E2. lia.
  - (* both boundaries *)
    assert (Hne : Qmem (round3 e) [round3 s] = false).
    { destruct (Qmem (round3 e) [round3 s]) eqn:E; [|reflexivity].
      apply Qmem_true in E as [y [[<-|[]] Hy]]. rewrite Hrs, Hre in Hy. lra. }
    assert (Hpts : set_add (round3 e) (set_add (round3 s) []) = [round3 s; round3 e]).
    { change (set_add (round3 s) []) with [round3 s].
      unfold set_add. now rewrite Hne. }
    rewrite Hpts. cbn [length Nat.ltb Nat.leb andb].
    assert (Hmin : set_min [round3 s; round3 e] = Some (round3 s)).
    { cbn [set_min fold_left]. unfold py_min.
      replace (Qltb (round3 e) (round3 s)) with false; [reflexivity|].
      symmetry. apply Qltb_false. rewrite Hrs, Hre. lra. }
    assert (Hmax : set_max [round3 s; round3 e] = Some (round3 e)).
    { cbn [set_max fold_left]. unfold py_max.
      replace (Qltb (round3 s) (round3 e)) with true; [reflexivity|].
      symmetry. apply Qltb_true. rewrite Hrs, Hre. lra. }
    rewrite Hmin, Hmax.
    assert (Hw2 : within lo hi [round3 s; round3 e]).
    { repeat constructor; rewrite ?Hrs, ?Hre; lra. }
    destruct (0 <? Z.of_nat N - Z.of_nat 2)%Z.
    + destruct (Qeq_bool (round3 e) (round3 s)); [apply within_nil|].
      apply Hfinal. apply inner_points_within; [rewrite Hrs; lra| |rewrite Hre; lra|exact Hw2].
      rewrite Hrs, Hre. now apply milli_gap.
    + now apply Hfinal.
Qed.
End Margins.

Lemma plan_cut_points_within N BL D :
  planned_within 0.05 0.98 (plan_cut_points N BL D).
Proof.
  unfold plan_cut_points. destruct (negb (Qltb 0 D)); [apply within_nil|].
  pose proof (cut_points_loop_within N BL 0.05 0.98 2 0.05 0.98) as H.
  assert (Hm1 : milli 0.05) by (exists 50%Z; reflexivity).
  assert (Hm2 : milli 0.98) by (exists 980%Z; reflexivity).
  specialize (H Hm1 Hm2).
  assert (H' : planned_within 0.05 0.98 (cut_points_loop N BL 2 0.05 0.98)).
  { apply H; lra. }
  destruct (cut_points_loop N BL 2 0.05 0.98) as [l|r|]; [|exact H'|exact I].
  destruct (length l <? N)%nat; [apply within_nil|exact H'].
Qed.

(** X8.  Whatever the segment count, the blacklist and the duration, every
    cut point the planner returns lies between 5 % and 98 % of the video:
    the retries only narrow the range. *)
Theorem cut_points_within_margins (w : world) (cfg : Config) (md : metadata)
    (st : state) :
  match (_generate_cut_points w cfg md st).1 with
  | Returns l => within 0.05 0.98 l
  | Raises => True
  end.
Proof.
  unfold _generate_cut_points.
  pose proof (plan_cut_points_within (NUM_OF_SEGMENTS cfg) (BLACKLISTED_CUT_POINTS cfg)
                (duration md)) as H.
  destruct (plan_cut_points _ _ _) as [l|r|]; [|exact H|exact I].
  destruct (CONFIRM_CUT_POINTS_REQUIRED cfg); [|exact H].
  rewrite bind_eq. cbn [ask fst snd].
  destruct (w (log st) _) as [| |t| | | |]; try apply within_nil.
  destruct (accepts t); [exact H|apply within_nil].
Qed.


Close Scope Q_scope.

(** * [Config.validate] *)

Lemma first_font_result fonts : forall st,
  fs (first_font fonts st).2 = fs st /\ log (first_font fonts st).2 = log st
  /\ match (first_font fonts st).1 with
     | Some f => f ∈ fonts /\ f ∈ fs st
     | None => forall f, f ∈ fonts -> f ∉ fs st
     end.
Proof.
  induction fonts as [|f fonts IH]; intros st; cbn [first_font].
  - cbn. repeat split. intros f H. now apply elem_of_nil in H.
  - rewrite bind_eq. cbn [present fst snd].
    destruct (bool_decide (f ∈ fs st)) eqn:E.
    + apply bool_decide_eq_true_1 in E. cbn. repeat split; [apply list_elem_of_here|exact E].
    + apply bool_decide_eq_false_1 in E. destruct (IH st) as (H1 & H2 & H3).
      split; [exact H1|]. split; [exact H2|].
      destruct (first_font fonts st).1 as [g|].
      * destruct H3. split; [now apply list_elem_of_further|assumption].
      * intros g Hg. apply elem_of_cons in Hg as [->|Hg]; [exact E|now apply H3].
Qed.

Lemma segments_fit_grid_spec cfg :
  segments_fit_grid cfg = true ->
  GRID_WIDTH cfg = 3%nat \/ GRID_WIDTH cfg = 4%nat ->
  (NUM_OF_SEGMENTS cfg mod GRID_WIDTH cfg = 0)%nat
  /\ (9 <= NUM_OF_SEGMENTS cfg <= 30)%nat
  /\ (GRID_WIDTH cfg = 4%nat -> (12 <= NUM_OF_SEGMENTS cfg <= 28)%nat).
Proof.
  unfold segments_fit_grid. cbv zeta. intros H HG.
  apply andb_prop in H as [H H3]. apply andb_prop in H as [H1 H2].
  apply bool_decide_eq_true_1 in H3. apply Nat.leb_le in H1, H2.
  destruct HG as [HG|HG]; rewrite HG in *.
  - rewrite bool_decide_eq_true_2 in H1, H2 by reflexivity.
    split; [exact H3|]. split; [lia|discriminate].
  - rewrite bool_decide_eq_false_2 in H1, H2 by discriminate.
    split; [exact H3|]. split; lia.
Qed.

(** X9.  When [Config.validate] accepts a configuration: with the animated
    sheet enabled the grid width is 3 or 4 and the segment count a multiple of
    it, between 9 and 30 (12 and 28 for a width of 4); the image format is
    PNG, JPG or JPEG in upper case, PNG replacing anything else; the input
    folder exists; the font exists unless neither the configured font nor one
    of the common ones does; and the switches, the segment count and the
    grid width are as they were. *)
Theorem validate_establishes (w : world) (cfg cfg' : Config) (st : state) :
  (validate w cfg st).1 = Returns (true, cfg') ->
  (CREATE_WEBP_PREVIEW_SHEET cfg' = true ->
     (GRID_WIDTH cfg' = 3%nat \/ GRID_WIDTH cfg' = 4%nat)
     /\ (NUM_OF_SEGMENTS cfg' mod GRID_WIDTH cfg' = 0)%nat
     /\ (9 <= NUM_OF_SEGMENTS cfg' <= 30)%nat
     /\ (GRID_WIDTH cfg' = 4%nat -> (12 <= NUM_OF_SEGMENTS cfg' <= 28)%nat))
  /\ upper (IMAGE_SHEET_FORMAT cfg') ∈ ["PNG"; "JPG"; "JPEG"]
  /\ INPUT_FOLDER cfg' ∈ fs st
  /\ (FONT_PATH cfg' ∈ fs st
      \/ (FONT_PATH cfg' = FONT_PATH cfg
          /\ forall f, f ∈ FONT_PATH cfg :: common_fonts -> f ∉ fs st))
  /\ same_settings cfg cfg'.
Proof.
  unfold validate.
  destruct (CREATE_WEBP_PREVIEW_SHEET cfg
            && negb (bool_decide (GRID_WIDTH cfg = 3%nat)
                     || bool_decide (GRID_WIDTH cfg = 4%nat))) eqn:Eg;
    [intros H; discriminate H|].
  destruct (CREATE_WEBP_PREVIEW_SHEET cfg && negb (segments_fit_grid cfg)) eqn:Ef;
    [intros H; discriminate H|].
  assert (Hgrid : CREATE_WEBP_PREVIEW_SHEET cfg = true ->
            (GRID_WIDTH cfg = 3%nat \/ GRID_WIDTH cfg = 4%nat)
            /\ (NUM_OF_SEGMENTS cfg mod GRID_WIDTH cfg = 0)%nat
            /\ (9 <= NUM_OF_SEGMENTS cfg <= 30)%nat
            /\ (GRID_WIDTH cfg = 4%nat -> (12 <= NUM_OF_SEGMENTS cfg <= 28)%nat)).
  { intros Hs. rewrite Hs in Eg, Ef. cbn [andb] in Eg, Ef.
    apply negb_false_iff in Eg, Ef.
    assert (HG : GRID_WIDTH cfg = 3%nat \/ GRID_WIDTH cfg = 4%nat).
    { apply orb_prop in Eg as [E|E]; apply bool_decide_eq_true_1 in E; auto. }
    split; [exact HG|]. now apply segments_fit_grid_spec. }
  clear Eg Ef.
  rewrite bind_eq. cbn [present fst snd]. rewrite bind_eq.
  (* the font *)
  set (fonted := (if negb (bool_decide (FONT_PATH cfg ∈ fs st)) then _ else ret cfg) st).
  assert (Hfont : fs fonted.2 = fs st /\ log fonted.2 = log st
            /\ same_settings cfg fonted.1
            /\ IMAGE_SHEET_FORMAT fonted.1 = IMAGE_SHEET_FORMAT cfg
            /\ (FONT_PATH fonted.1 ∈ fs st
                \/ (FONT_PATH fonted.1 = FONT_PATH cfg
                    /\ forall f, f ∈ FONT_PATH cfg :: common_fonts -> f ∉ fs st))).
  { subst fonted. destruct (bool_decide (FONT_PATH cfg ∈ fs st)) eqn:E; cbn [negb].
    - apply bool_decide_eq_true_1 in E. cbn. repeat split. now left.
    - apply bool_decide_eq_false_1 in E. rewrite bind_eq.
      destruct (first_font_result common_fonts st) as (H1 & H2 & H3).
      destruct (first_font common_fonts st).1 as [alt|]; cbn [ret fst snd].
      + split; [exact H1|]. split; [exact H2|]. split; [now repeat split|].
        split; [reflexivity|]. left. apply H3.
      + split; [exact H1|]. split; [exact H2|]. split; [now repeat split|].
        split; [reflexivity|]. right. split; [reflexivity|].
        intros f Hf. apply elem_of_cons in Hf as [->|Hf]; [exact E|now apply H3]. }
  destruct fonted as [cfg1 st1]. cbn [fst snd] in Hfont |- *.
  destruct Hfont as (Hfs & Hlog & Hsame & Hfmt & Hfp).
  rewrite bind_eq. cbn [present fst snd]. rewrite Hfs.
  destruct (bool_decide (INPUT_FOLDER cfg1 ∈ fs st)) eqn:Ed; cbn [negb];
    [|intros H; discriminate H].
  apply bool_decide_eq_true_1 in Ed.
  rewrite bind_eq.
  match goal with
  | |- context [if negb ?made then _ else _] => destruct made
  end; cbn [negb]; [|intros H; discriminate H].
  cbn [ret fst]. intros H. injection H as <-.
  destruct Hsame as (S1 & S2 & S3 & S4 & S5 & S6 & S7).
  destruct (bool_decide (upper (IMAGE_SHEET_FORMAT cfg1) ∈ ["PNG"; "JPG"; "JPEG"])) eqn:Eu;
    cbn [negb].
  - apply bool_decide_eq_true_1 in Eu.
    split; [rewrite S4, S6, S7; exact Hgrid|]. split; [exact Eu|].
    split; [exact Ed|]. split; [exact Hfp|]. now repeat split.
  - split; [cbn; rewrite S4, S6, S7; exact Hgrid|].
    split; [cbn; apply list_elem_of_here|].
    split; [exact Ed|]. split; [exact Hfp|]. now repeat split.
Qed.

Lemma validate_establishes_witness :
  (validate kind_world shipped (fresh scanned_disk)).1 = Returns (true, shipped)
  /\ upper (IMAGE_SHEET_FORMAT shipped) ∈ ["PNG"; "JPG"; "JPEG"].
Proof.
  assert (H : (validate kind_world shipped (fresh scanned_disk)).1
              = Returns (true, shipped)) by (vm_compute; reflexivity).
  split; [exact H|].
  exact (proj1 (proj2 (validate_establishes kind_world shipped shipped
                         (fresh scanned_disk) H))).
Defined.


(** * A grid without filler clips *)

Lemma row_full_or_empty cfg segs r :
  (0 < GRID_WIDTH cfg)%nat ->
  (length segs mod GRID_WIDTH cfg = 0)%nat ->
  row_of cfg segs r = [] \/ length (row_of cfg segs r) = GRID_WIDTH cfg.
Proof.
  intros HG Hm. unfold row_of.
  destruct (decide (length segs <= r * GRID_WIDTH cfg)%nat) as [Hle|Hgt].
  - left. apply length_zero_iff_nil. rewrite length_take. lia.
  - right. rewrite length_take, length_drop.
    apply Nat.Div0.div_exact in Hm.
    set (k := (length segs / GRID_WIDTH cfg)%nat) in *.
    assert (r < k)%nat by nia.
    assert ((r + 1) * GRID_WIDTH cfg <= length segs)%nat by nia.
    lia.
Qed.

Section Grid.
Variable w : world.
Variable cfg : Config.
Variable self : VideoProcessor.
Variable md : metadata.
Variable segs : list path.
Hypothesis HG : (0 < GRID_WIDTH cfg)%nat.
Hypothesis Hm : (length segs mod GRID_WIDTH cfg = 0)%nat.

Lemma stacking_no_filler inputs ax c : stacking_of inputs ax c -> no_filler c.
Proof. destruct c; cbn; tauto. Qed.

Lemma sheet_row_no_filler hs r :
  footprint no_filler (inside self) (sheet_row w cfg self md segs hs r).
Proof.
  unfold sheet_row. cbv zeta.
  change (take _ (drop _ segs)) with (row_of cfg segs r).
  destruct (row_full_or_empty cfg segs r HG Hm) as [E|E]; [rewrite E; apply footprint_ret|].
  destruct (row_of cfg segs r) as [|first rest] eqn:Er; [apply footprint_ret|].
  rewrite E, Nat.sub_diag. cbn [Nat.ltb Nat.leb].
  apply footprint_bind; [apply footprint_ret|]. intros [group|]; [|apply footprint_ret].
  apply footprint_bind; [|intros stacked; destruct stacked; apply footprint_ret].
  eapply footprint_weaken; [apply stacking_no_filler|intros p Hp; exact Hp
                           |apply stack_videos_stacking, inside_temp].
Qed.

Lemma sheet_rows_no_filler rows : forall hs,
  footprint no_filler (inside self) (sheet_rows w cfg self md segs rows hs).
Proof.
  induction rows as [|r rows IH]; intros hs; cbn [sheet_rows]; [apply footprint_ret|].
  apply footprint_bind; [apply sheet_row_no_filler|].
  intros [hs'|]; [apply IH|apply footprint_ret].
Qed.

Lemma generate_webp_preview_sheet_no_filler :
  footprint no_filler (inside self) (_generate_webp_preview_sheet w cfg self md segs).
Proof.
  unfold _generate_webp_preview_sheet.
  pose proof sheet_rows_no_filler as Hrows.
  repeat first
    [ apply footprint_ret
    | apply footprint_ask; exact I
    | apply footprint_create; apply inside_artifact
    | apply footprint_discard; apply inside_artifact
    | apply Hrows
    | apply (footprint_weaken render_calls _ (inside self) (inside self));
      [ intros c Hc; destruct c; cbn in Hc |- *; tauto
      | intros ? Hq; exact Hq
      | apply create_info_image_render ]
    | match goal with
      | |- footprint _ _ (_stack_videos _ _ _ ?ins _ Vertical) =>
        apply (footprint_weaken (stacking_of ins Vertical) _
                 (inside self) (inside self));
        [ apply stacking_no_filler
        | intros ? Hq; exact Hq
        | apply stack_videos_stacking, inside_temp ]
      end
    | apply footprint_bind; [|intros ?]
    | match goal with
      | |- footprint _ _ (if ?b then _ else _) => destruct b
      | |- footprint _ _ (match ?x with _ => _ end) => destruct x
      end ].
Qed.
End Grid.

(** X10.  When the number of segments is a multiple of the grid width, the
    animated-sheet composer probes no clip for padding and synthesizes no
    filler clip: every row is made of segments alone. *)
Theorem full_grid_needs_no_filler (w : world) (cfg : Config) (self : VideoProcessor)
    (md : metadata) (segs : list path) (st : state) :
  (0 < GRID_WIDTH cfg)%nat ->
  (length segs mod GRID_WIDTH cfg = 0)%nat ->
  exists new,
    log (_generate_webp_preview_sheet w cfg self md segs st).2 = log st ++ new
    /\ Forall (fun e : entry => no_filler e.1) new.
Proof.
  intros HG Hm.
  apply (generate_webp_preview_sheet_no_filler w cfg self md segs HG Hm st).
Qed.

Lemma full_grid_needs_no_filler_witness :
  (0 < GRID_WIDTH shipped)%nat
  /\ (length sixteen_segments mod GRID_WIDTH shipped = 0)%nat
  /\ exists new,
       log (_generate_webp_preview_sheet kind_world shipped job two_minutes
              sixteen_segments (fresh fresh_disk)).2
       = log (fresh fresh_disk) ++ new
       /\ Forall (fun e : entry => no_filler e.1) new.
Proof.
  assert (H1 : (0 < GRID_WIDTH shipped)%nat) by (cbn; lia).
  assert (H2 : (length sixteen_segments mod GRID_WIDTH shipped = 0)%nat)
    by (vm_compute; reflexivity).
  split; [exact H1|]. split; [exact H2|].
  exact (full_grid_needs_no_filler kind_world shipped job two_minutes
           sixteen_segments (fresh fresh_disk) H1 H2).
Defined.


(** * [main]: the scan of the input folder *)

Lemma lower_char_dot c :
  bool_decide (lower_char c = "."%char) = bool_decide (c = "."%char).
Proof. destruct c as [[] [] [] [] [] [] [] []]; vm_compute; reflexivity. Qed.

Lemma rfind_dot_map f s :
  (forall c, bool_decide (f c = "."%char) = bool_decide (c = "."%char)) ->
  rfind_dot (map_string f s) = rfind_dot s.
Proof.
  intros Hf. induction s as [|c s IH]; [reflexivity|].
  cbn [map_string rfind_dot]. now rewrite IH, Hf.
Qed.

Lemma length_map_string f s : String.length (map_string f s) = String.length s.
Proof. induction s as [|c s IH]; [reflexivity|]. cbn. now rewrite IH. Qed.

Lemma substring_map f s : forall i n,
  String.substring i n (map_string f s) = map_string f (String.substring i n s).
Proof.
  induction s as [|c s IH]; intros [|i] [|n]; cbn; try reflexivity.
  - now rewrite IH.
  - apply IH.
  - apply IH.
Qed.

Lemma suffix_of_lower nm : suffix_of (lower nm) = lower (suffix_of nm).
Proof.
  change lower with (map_string lower_char).
  unfold suffix_of, splits_at.
  rewrite (rfind_dot_map _ nm lower_char_dot), length_map_string.
  destruct (rfind_dot nm) as [i|]; [|reflexivity].
  destruct ((0 <? i)%nat && (i <? String.length nm - 1)%nat); [|reflexivity].
  apply substring_map.
Qed.

Lemma scan_folder_filter ex items : forall found,
  fold_left (fun video_files_found (it : path * bool) =>
               if is_selected ex it.1 it.2
               then video_files_found ++ [it.1] else video_files_found)
            items found
  = found ++ (filter (fun it : path * bool => is_selected ex it.1 it.2 = true) items).*1.
Proof.
  induction items as [|it items IH]; intros found; cbn [fold_left].
  - cbn. now rewrite app_nil_r.
  - rewrite IH, filter_cons. destruct (is_selected ex it.1 it.2) eqn:E.
    + rewrite decide_True by reflexivity. rewrite fmap_cons, <- app_assoc. reflexivity.
    + rewrite decide_False by discriminate. reflexivity.
Qed.

(** X11.  The scan of the input folder keeps, in the order of the folder,
    the files whose extension is one of the video extensions and whose name is
    not excluded; both tests ignore the case of ASCII letters, so two names
    that differ in case only are kept or skipped alike; and the empty names of
    the exclusion list exclude nothing. *)
Theorem scan_folder_selects (EXCLUDED_FILES : list string)
    (items : list (path * bool)) :
  scan_folder EXCLUDED_FILES items
  = (filter (fun it : path * bool => is_selected EXCLUDED_FILES it.1 it.2 = true)
            items).*1
  /\ (forall a b is_file,
        lower (name a) = lower (name b) ->
        is_selected EXCLUDED_FILES a is_file = is_selected EXCLUDED_FILES b is_file)
  /\ (forall item is_file,
        Forall (fun f => f = EmptyString) EXCLUDED_FILES ->
        is_selected EXCLUDED_FILES item is_file
        = is_file && bool_decide (lower (suffix item) ∈ VALID_VIDEO_EXTENSIONS)).
Proof.
  split; [apply (scan_folder_filter EXCLUDED_FILES items [])|]. split.
  - intros a b is_file H. unfold is_selected, suffix.
    rewrite <- !suffix_of_lower, H. reflexivity.
  - intros item is_file H. unfold is_selected, excluded_lower.
    assert (E : filter (fun f => f <> EmptyString) EXCLUDED_FILES = []).
    { induction H as [|f l Hf Hl IH]; [reflexivity|]. subst f.
      rewrite filter_cons, decide_False by (intros H'; now apply H'). exact IH. }
    rewrite E. cbn [map].
    rewrite (bool_decide_eq_false_2 (lower (name item) ∈ [])) by apply not_elem_of_nil.
    now rewrite andb_true_r.
Qed.


(** * [main]: the processing loop *)

Section Batch.
Variable w : world.
Variable cfg : Config.
Variable ascii_fold : string -> string.

Lemma processing_loop_counts videos : forall c st,
  let r := (processing_loop w cfg ascii_fold videos c st).1 in
  r.1.1 = (c.1.1 + length videos)%nat
  /\ (r.1.2 + r.2 = c.1.2 + c.2 + length videos)%nat
  /\ (c.1.2 <= r.1.2)%nat.
Proof.
  induction videos as [|[v rnd] videos IH]; intros [[p s] f] st.
  - cbn. lia.
  - cbn [processing_loop]. rewrite bind_eq.
    destruct (run w cfg (init ascii_fold rnd cfg v) st).1.
    + specialize (IH ((p + 1)%nat, (s + 1)%nat, f)
                    (run w cfg (init ascii_fold rnd cfg v) st).2).
      cbn [fst snd length] in *. lia.
    + specialize (IH ((p + 1)%nat, s, (f + 1)%nat)
                    (run w cfg (init ascii_fold rnd cfg v) st).2).
      cbn [fst snd length] in *. lia.
Qed.

Lemma processing_loop_footprint videos : forall c,
  footprint anything (batch_own cfg ascii_fold videos)
            (processing_loop w cfg ascii_fold videos c).
Proof.
  induction videos as [|[v rnd] videos IH]; intros [[p s] f].
  - apply footprint_ret.
  - cbn [processing_loop]. apply footprint_bind.
    + apply (footprint_weaken anything _ (own (init ascii_fold rnd cfg v)) _);
        [now intros| |apply run_footprint].
      intros q Hq. now apply Exists_cons_hd.
    + intros result.
      destruct result;
        (apply (footprint_weaken anything _ (batch_own cfg ascii_fold videos) _);
         [now intros| |apply IH]);
        intros q Hq; now apply Exists_cons_tl.
Qed.
End Batch.

(** X12.  The processing loop of [main] runs every video found, whatever the
    earlier ones returned: the videos processed are all those found and each
    one counts as a success or as a failure; and the whole batch changes no
    path outside the output directories, the workspaces and the source places
    of its videos. *)
Theorem batch_counts_every_video (w : world) (cfg : Config)
    (ascii_fold : string -> string) (video_files_found : list (path * nat))
    (st : state) :
  (processing_loop w cfg ascii_fold video_files_found (0, 0, 0)%nat st).1.1.1
  = length video_files_found
  /\ ((processing_loop w cfg ascii_fold video_files_found (0, 0, 0)%nat st).1.1.2
      + (processing_loop w cfg ascii_fold video_files_found (0, 0, 0)%nat st).1.2)%nat
     = length video_files_found
  /\ (forall p, ~ batch_own cfg ascii_fold video_files_found p ->
        p ∈ fs (processing_loop w cfg ascii_fold video_files_found (0, 0, 0)%nat st).2
        <-> p ∈ fs st).
Proof.
  cbv zeta. split; [|split].
  - apply (processing_loop_counts w cfg ascii_fold video_files_found (0, 0, 0)%nat st).
  - apply (processing_loop_counts w cfg ascii_fold video_files_found (0, 0, 0)%nat st).
  - intros p Hp.
    destruct (processing_loop_footprint w cfg ascii_fold video_files_found
                (0, 0, 0)%nat st) as [_ H].
    now apply H.
Qed.


(** * The names of the segment files *)

Lemma decimal_value n : value (decimal n) = Some n.
Proof.
  unfold value, decimal, NilZero.string_of_uint.
  pose proof (DecimalNat.Unsigned.of_to n) as H.
  destruct (Nat.to_uint n) eqn:E;
    try (rewrite NilEmpty.usu; cbn [option_map]; now rewrite H).
  cbn in H. subst n. reflexivity.
Qed.

Lemma pad2_value n : value (pad2 n) = Some n.
Proof.
  unfold pad2. destruct (n <? 10)%nat; [|apply decimal_value].
  pose proof (decimal_value n) as H. unfold value in *.
  change ("0" +:+ decimal n) with (String "0" (decimal n)).
  cbn [NilEmpty.uint_of_string].
  destruct (NilEmpty.uint_of_string (decimal n)) as [d|]; [|discriminate].
  exact H.
Qed.

Lemma pad2_inj m n : pad2 m = pad2 n -> m = n.
Proof.
  intros H. pose proof (pad2_value m) as Hm. rewrite H, pad2_value in Hm. congruence.
Qed.

Lemma pad2_digits n : Forall (fun c => is_digit c = true) (chars (pad2 n)).
Proof.
  unfold pad2. destruct (n <? 10)%nat; [|apply decimal_digits].
  change ("0" +:+ decimal n) with (String "0" (decimal n)). cbn [chars].
  constructor; [reflexivity|apply decimal_digits].
Qed.

Lemma first_mark {A : Type} (x : A) (l1 l2 r1 r2 : list A) :
  x ∉ l1 -> x ∉ l2 -> l1 ++ x :: r1 = l2 ++ x :: r2 -> l1 = l2.
Proof.
  revert l2. induction l1 as [|a l1 IH]; intros [|b l2] H1 H2 E; cbn in E.
  - reflexivity.
  - injection E as -> _. exfalso. apply H2. now left.
  - injection E as -> _. exfalso. apply H1. now left.
  - injection E as -> E. f_equal. apply (IH l2); [| |exact E].
    + intros H. apply H1. now right.
    + intros H. apply H2. now right.
Qed.

Lemma digits_no_dash l :
  Forall (fun c => is_digit c = true) l -> "-"%char ∉ l.
Proof.
  intros H Hin. rewrite Forall_forall in H. specialize (H _ Hin). discriminate.
Qed.

(** A text is cut at its last dash when only digits and a fixed ending
    follow it. *)
Lemma last_number (x y d e t : list ascii) :
  Forall (fun c => is_digit c = true) d ->
  Forall (fun c => is_digit c = true) e ->
  x ++ "-"%char :: d ++ t = y ++ "-"%char :: e ++ t -> d = e.
Proof.
  intros Hd He E. apply (f_equal (@rev ascii)) in E.
  rewrite !rev_app_distr in E. cbn [rev] in E. rewrite !rev_app_distr in E.
  rewrite <- !app_assoc in E. apply app_inv_head in E. cbn [app] in E.
  apply first_mark in E.
  - apply (f_equal (@rev ascii)) in E. now rewrite !rev_involutive in E.
  - apply digits_no_dash. now apply Forall_rev.
  - apply digits_no_dash. now apply Forall_rev.
Qed.

Lemma segment_file_inj self i j s t :
  segment_file self i s = segment_file self j t -> i = j.
Proof.
  unfold segment_file, child. cbv zeta. intros E.
  apply app_inj_tail in E as [_ E].
  apply (f_equal chars) in E. rewrite !chars_app in E.
  assert (D : chars (pad2 (i + 1)) = chars (pad2 (j + 1))).
  { apply (last_number
             (chars (base_filename self) ++ chars "_start-"
                ++ chars (replace_char ":" "." (format_duration s)) ++ chars "_seg")
             (chars (base_filename self) ++ chars "_start-"
                ++ chars (replace_char ":" "." (format_duration t)) ++ chars "_seg")
             _ _ (chars ".mp4")); try apply pad2_digits.
    rewrite <- !app_assoc. exact E. }
  clear E. rename D into E.
  apply chars_inj, pad2_inj in E. lia.
Qed.

(** X13.  The segment files of two different cut points are different files
    of the workspace, whatever their start times: no segment overwrites
    another one. *)
Theorem segment_files_distinct (self : VideoProcessor) (i j : nat) (s t : Q) :
  i <> j ->
  segment_file self i s <> segment_file self j t
  /\ temp_dir self `prefix_of` segment_file self i s.
Proof.
  intros H. split.
  - intros E. apply H. exact (segment_file_inj self i j s t E).
  - unfold segment_file, child. cbv zeta. now apply prefix_app_r.
Qed.

Lemma segment_files_distinct_witness :
  0%nat <> 1%nat
  /\ segment_file job 0 (6 # 1) <> segment_file job 1 (12 # 1)
  /\ temp_dir job `prefix_of` segment_file job 0 (6 # 1).
Proof.
  split; [discriminate|]. apply (segment_files_distinct job 0 1 (6 # 1) (12 # 1)).
  discriminate.
Defined.


(** * The cells of the image sheet *)

Lemma cell_split (grid i : nat) :
  (0 < grid)%nat ->
  (i = grid * (i / grid) + i mod grid)%nat /\ (i mod grid < grid)%nat.
Proof.
  intros H. split; [apply Nat.div_mod_eq|apply Nat.mod_upper_bound; lia].
Qed.

(** X14.  On the image sheet the cells of two different frames never
    overlap, and every cell lies below the info image and within the width of
    the grid. *)
Theorem grid_cells_do_not_overlap (grid i j : nat) (info_h frame_w frame_h : Z) :
  (0 < grid)%nat -> (0 < frame_w)%Z -> (0 < frame_h)%Z -> i <> j ->
  ((cell_x grid frame_w i + frame_w <= cell_x grid frame_w j)%Z
   \/ (cell_x grid frame_w j + frame_w <= cell_x grid frame_w i)%Z
   \/ (cell_y grid info_h frame_h i + frame_h <= cell_y grid info_h frame_h j)%Z
   \/ (cell_y grid info_h frame_h j + frame_h <= cell_y grid info_h frame_h i)%Z)
  /\ (0 <= cell_x grid frame_w i)%Z
  /\ (cell_x grid frame_w i + frame_w <= Z.of_nat grid * frame_w)%Z
  /\ (info_h <= cell_y grid info_h frame_h i)%Z.
Proof.
  intros Hg Hw Hh Hij. unfold cell_x, cell_y.
  destruct (cell_split grid i Hg) as [Ei Hi].
  destruct (cell_split grid j Hg) as [Ej Hj].
  set (a := (i mod grid)%nat) in *. set (b := (i / grid)%nat) in *.
  set (c := (j mod grid)%nat) in *. set (d := (j / grid)%nat) in *.
  split; [|nia].
  destruct (Nat.lt_trichotomy b d) as [H | [H | H]]; [right; right; left; nia| |
    right; right; right; nia].
  assert (a <> c) by (intros ->; apply Hij; rewrite Ei, Ej, H; reflexivity).
  destruct (Nat.lt_trichotomy a c) as [H' | [H' | H']]; [left; nia|contradiction|
    right; left; nia].
Qed.

Lemma grid_cells_do_not_overlap_witness :
  (0 < 4)%nat /\ (0 < 480)%Z /\ (0 < 270)%Z /\ 3%nat <> 4%nat
  /\ ((cell_x 4 480 3 + 480 <= cell_x 4 480 4)%Z
      \/ (cell_x 4 480 4 + 480 <= cell_x 4 480 3)%Z
      \/ (cell_y 4 300 270 3 + 270 <= cell_y 4 300 270 4)%Z
      \/ (cell_y 4 300 270 4 + 270 <= cell_y 4 300 270 3)%Z)
  /\ (0 <= cell_x 4 480 3)%Z
  /\ (cell_x 4 480 3 + 480 <= Z.of_nat 4 * 480)%Z
  /\ (300 <= cell_y 4 300 270 3)%Z.
Proof.
  split; [lia|]. split; [lia|]. split; [lia|]. split; [discriminate|].
  apply (grid_cells_do_not_overlap 4 3 4 300 480 270); [lia|lia|lia|discriminate].
Defined.


(** * What [Config.validate] refuses *)

Lemma segments_fit_grid_fails cfg :
  segments_fit_grid cfg = false ->
  ~ (((GRID_WIDTH cfg = 3%nat /\ (9 <= NUM_OF_SEGMENTS cfg <= 30)%nat)
      \/ (GRID_WIDTH cfg = 4%nat /\ (12 <= NUM_OF_SEGMENTS cfg <= 28)%nat))
     /\ (NUM_OF_SEGMENTS cfg mod GRID_WIDTH cfg = 0)%nat).
Proof.
  unfold segments_fit_grid. cbv zeta. intros H [HG Hm].
  rewrite (bool_decide_eq_true_2 _ Hm), andb_true_r in H.
  destruct HG as [[HG Hn]|[HG Hn]]; rewrite HG in H.
  - rewrite bool_decide_eq_true_2 in H by reflexivity.
    apply andb_false_iff in H as [H|H]; apply Nat.leb_gt in H; lia.
  - rewrite bool_decide_eq_false_2 in H by discriminate.
    apply andb_false_iff in H as [H|H]; apply Nat.leb_gt in H; lia.
Qed.


